(** * STAR best-fit tabulation (frontend/src/utils/star.ts and
      calculateAvailability.ts): a shallow embedding and its properties.

    Numbers.  Every score the engine adds or compares is an integer (the
    serialization layer parses and clamps them), so [score], [fiveStars] and
    [rankedWins] are in [Z].  A [randomTieValue] is the double drawn from the
    seeded generator; every finite double is an integer multiple of 2^-1074,
    and the value is kept as that integer: [>], [===] and the sign of a
    difference of two doubles are exact, so they are those of [Z].  The two
    unguarded divisions by [numTimeslots] are kept as quotients of rationals
    in [jsnum], which also has the values a division by zero gives.

    Faults.  A [throw] (and a property read on [undefined]) is an [Err];
    functions that can throw return a [result].

    Mutation.  [Array.prototype.sort] reorders the caller's array and
    [calculateRankedWins] writes into the caller's objects, so the functions
    that do this return the array as it is after the call next to their
    result.  A [structuredClone] is the value itself. *)

From Stdlib Require Import ZArith String List QArith Lia Bool Permutation Sorted.
Import ListNotations.
Close Scope Q_scope.
Open Scope Z_scope.

(** ** Numbers *)

Definition MAXSCORE : Z := 5.
Definition TIMESLOT_MINUTES : Z := 15.

(** The value of a JavaScript division of two rationals. *)
Inductive jsnum : Type :=
| Fin (q : Q)
| PosInf
| NegInf
| NaN.

Definition Qlt_bool (x y : Q) : bool := negb (Qle_bool y x).

(** [x / y] *)
Definition jsdiv (x y : Q) : jsnum :=
  if Qeq_bool y 0 then
    if Qlt_bool 0 x then PosInf else if Qlt_bool x 0 then NegInf else NaN
  else Fin (x / y)%Q.

(** [a > b] for a finite [b] *)
Definition jsgt (a : jsnum) (b : Q) : bool :=
  match a with
  | Fin q => Qlt_bool b q
  | PosInf => true
  | NegInf | NaN => false
  end.

(** ToIntegerOrInfinity on a rational: truncation towards zero. *)
Definition toInteger (q : Q) : Z := Z.quot (Qnum q) (Z.pos (Qden q)).

(** ** Faults *)

Inductive fault : Type :=
| MiniRoundPrecondition  (* "calculateMiniRound should be called with more
                           candidates than the desired number of winners" *)
| RankedWinsMissing      (* "ranked wins were not calculated before ranked
                           robin round" *)
| TypeError.             (* a property read on undefined *)

Inductive result (A : Type) : Type :=
| Ok (a : A)
| Err (e : fault).
Arguments Ok {A} a.
Arguments Err {A} e.

Definition bind {A B : Type} (r : result A) (k : A -> result B) : result B :=
  match r with
  | Ok a => k a
  | Err e => Err e
  end.

Notation "x <- r ;; k" := (bind r (fun x => k))
  (at level 61, r at next level, right associativity).
Notation "' p <- r ;; k" := (bind r (fun p => k))
  (at level 61, p pattern, r at next level, right associativity).

Fixpoint mapM {A B : Type} (f : A -> result B) (l : list A) : result (list B) :=
  match l with
  | [] => Ok []
  | a :: l' => b <- f a ;; bs <- mapM f l' ;; Ok (b :: bs)
  end.

(** ** Arrays *)

(** [Array.prototype.sort(cmp)]: the sort is stable, so for a comparator that
    is a total preorder the outcome is the one of this insertion sort: an
    element stays in front of a later one unless the comparator is positive
    on the pair. *)
Fixpoint insert {A : Type} (cmp : A -> A -> Z) (x : A) (l : list A) : list A :=
  match l with
  | [] => [x]
  | y :: l' => if 0 <? cmp x y then y :: insert cmp x l' else x :: y :: l'
  end.

Definition sort {A : Type} (cmp : A -> A -> Z) (l : list A) : list A :=
  fold_right (insert cmp) [] l.

(** A relative index of [slice], clamped to the array. *)
Definition relIndex (len k : Z) : Z :=
  if k <? 0 then Z.max (len + k) 0 else Z.min k len.

(** [l.slice(s, e)] for integral [s] and [e]. *)
Definition slice {A : Type} (s e : Z) (l : list A) : list A :=
  let len := Z.of_nat (length l) in
  let from := relIndex len s in
  let to := relIndex len e in
  firstn (Z.to_nat (to - from)) (skipn (Z.to_nat from) l).

(** [l.map((a, idx) => f a idx)], counting from [i]. *)
Fixpoint mapi_from {A B : Type} (f : A -> nat -> B) (i : nat) (l : list A) : list B :=
  match l with
  | [] => []
  | a :: l' => f a i :: mapi_from f (S i) l'
  end.

Definition mapi {A B : Type} (f : A -> nat -> B) (l : list A) : list B :=
  mapi_from f 0%nat l.

(** [l.reduce((sum, cur) => sum + f cur, 0)] *)
Definition sumOf {A : Type} (f : A -> Z) (l : list A) : Z :=
  fold_left (fun sum cur => sum + f cur) l 0.

(** ** Data model (config/api.ts, calculateAvailability.ts, star.ts) *)

Module TimeScore.
Record t (num : Type) : Type := mk { time : string; score : num }.
Arguments mk {num} time score.
Arguments time {num} _.
Arguments score {num} _.
End TimeScore.

Module PersonResponse.
Record t : Type := mk
  { name : string;
    availability : list (TimeScore.t Z);
    created_at : Z }.
End PersonResponse.

Module NameScore.
Record t : Type := mk { name : string; score : Z }.
End NameScore.

Module Availability.
Record t : Type := mk { date : string; people : list NameScore.t }.
End Availability.

Module Candidate.
Record t : Type := mk
  { date : string;
    people : list NameScore.t;
    score : Z;
    rankedWins : option Z;
    fiveStars : Z;
    randomTieValue : Z }.

Definition setRankedWins (c : t) (w : Z) : t :=
  mk (date c) (people c) (score c) (Some w) (fiveStars c) (randomTieValue c).
End Candidate.

Inductive miniRoundType : Type := score | rankedRobin | fiveStars | random.

Module MiniRoundResult.
Record t : Type := mk
  { roundType : miniRoundType;
    candidates : list Candidate.t;
    winners : list Candidate.t;
    tied : list Candidate.t }.
End MiniRoundResult.

Module FullRoundResult.
Record t : Type := mk
  { candidates : list Candidate.t;
    rounds : list MiniRoundResult.t;
    winners : list Candidate.t }.
End FullRoundResult.

Module StarResults.
Record t : Type := mk
  { bestTime : option (TimeScore.t jsnum);
    nextBest : option (TimeScore.t jsnum);
    preferredFraction : option Q }.
End StarResults.

(** A time label's instant, in minutes of UTC: the [Temporal.ZonedDateTime]
    that calculateTimeMap stored under the label (every label of [times] is a
    key); [add({ minutes })] is [+]. *)
Definition TimeMap : Type := string -> Z.

(** [Temporal.ZonedDateTime.compare] *)
Definition compare (a b : Z) : Z :=
  match a ?= b with
  | Lt => -1
  | Eq => 0
  | Gt => 1
  end.

(** The seeded generator of the seedrandom package: [seedrandom s] makes a
    generator whose state depends on [s] alone, and a call of it yields the
    next draw and moves the state. *)
Record Rng : Type := mkRng
  { rng_state : Type;
    seedrandom : string -> rng_state;
    draw : rng_state -> Z * rng_state }.

(** ** Helpers of star.ts *)

Definition getScoreForTime (time : string) (availability : list (TimeScore.t Z)) : Z :=
  match find (fun item => String.eqb (TimeScore.time item) time) availability with
  | Some timescore => TimeScore.score timescore
  | None => 0
  end.

Definition dropZeroScores (availability : list (TimeScore.t Z)) : list (TimeScore.t Z) :=
  filter (fun item => 0 <? TimeScore.score item) availability.

(** ** calculateAvailability.ts (the collation; [min] and [max] feed the
    heat map only and are left out) *)

Definition calculateAvailability (dates : list string) (people : list PersonResponse.t)
  : list Availability.t :=
  match people with
  | [] => []
  | _ :: _ =>
      map (fun date =>
             Availability.mk date
               (flat_map (fun p =>
                            let score := getScoreForTime date (PersonResponse.availability p) in
                            if 0 <? score then [NameScore.mk (PersonResponse.name p) score]
                            else [])
                         people))
          dates
  end.

(** ** Duration Aggregator *)

(** An entry of [fullAvailability]. *)
Module Slot.
Record t : Type := mk { time : string; timeObj : Z; score : Z }.
End Slot.

(** number of timeslots the meeting spans *)
Definition numTimeslots (duration : Z) : Q :=
  (inject_Z duration / inject_Z TIMESLOT_MINUTES)%Q.

Definition timeInsideRange (other : Z) (range : Z * Z) : bool :=
  (compare (fst range) other <? 0) && (compare other (snd range) <? 0).

Definition fullAvailability (times : list string) (p : PersonResponse.t)
    (timeMap : TimeMap) : list Slot.t :=
  sort (fun a b => compare (Slot.timeObj a) (Slot.timeObj b))
       (map (fun time =>
               let avail :=
                 find (fun a => String.eqb (TimeScore.time a) time)
                      (PersonResponse.availability p) in
               let score := match avail with
                            | Some avail => TimeScore.score avail
                            | None => 0
                            end in
               Slot.mk time (timeMap time) score)
            times).

(** The score of the meeting time that starts at entry [a], found at index
    [idx] of [fullAvailability]. *)
Definition fullScore (fullAvailability : list Slot.t) (duration : Z)
    (a : Slot.t) (idx : nat) : Z :=
  let range := (Slot.timeObj a, Slot.timeObj a + duration) in
  Slot.score a
  + sumOf Slot.score
      (filter (fun a2 => timeInsideRange (Slot.timeObj a2) range)
         (slice (Z.of_nat idx)
                (toInteger (inject_Z (Z.of_nat idx) + numTimeslots duration)%Q)
                fullAvailability)).

Definition newAvailability (fullAvailability : list Slot.t) (duration : Z)
  : list (TimeScore.t Z) :=
  mapi (fun a idx => TimeScore.mk (Slot.time a) (fullScore fullAvailability duration a idx))
       fullAvailability.

Definition replaceScoresWithFullScores (times : list string)
    (people : list PersonResponse.t) (duration : Z) (timeMap : TimeMap)
  : list PersonResponse.t :=
  map (fun p =>
         PersonResponse.mk
           (PersonResponse.name p)
           (dropZeroScores (newAvailability (fullAvailability times p timeMap) duration))
           (PersonResponse.created_at p))
      people.

(** The reference the bounded scan stands for: "filter TimeScores that cover
    the desired meeting duration starting at t (start < other <
    start+duration), then sum up the scores", over the whole array. *)
Definition fullScore_reference (fullAvailability : list Slot.t) (duration : Z)
    (a : Slot.t) : Z :=
  let range := (Slot.timeObj a, Slot.timeObj a + duration) in
  Slot.score a
  + sumOf Slot.score
      (filter (fun a2 => timeInsideRange (Slot.timeObj a2) range) fullAvailability).

(** ** Candidate Metrics Calculator *)

Definition isFiveStars (duration : Z) (p : NameScore.t) : bool :=
  jsgt (jsdiv (inject_Z (NameScore.score p)) (numTimeslots duration))
       (inject_Z MAXSCORE - (1 # 2))%Q.

(** The first loop: one entry of [scores], [fiveStars] and [randomTieValues]
    per time, the generator called once in each turn. *)
Fixpoint simpleMetrics (rng : Rng) (myrng : rng_state rng) (duration : Z)
    (times : list Availability.t) : list (Z * Z * Z) :=
  match times with
  | [] => []
  | t :: times' =>
      let drawn := draw rng myrng in
      (sumOf NameScore.score (Availability.people t),
       Z.of_nat (length (filter (isFiveStars duration) (Availability.people t))),
       fst drawn) :: simpleMetrics rng (snd drawn) duration times'
  end.

Definition calculateSimpleCandidateMetrics (rng : Rng) (times : list Availability.t)
    (duration : Z) (eventId : string) : list Candidate.t :=
  map (fun '(t, (s, f, r)) =>
         Candidate.mk (Availability.date t) (Availability.people t) s None f r)
      (combine times (simpleMetrics rng (seedrandom rng eventId) duration times)).

(** ** Ranked robin *)

(** Calculate the number of rank wins of [a] over [b] *)
Definition calculateRankedWinsBetweenPair (a b : list NameScore.t) : Z :=
  fold_left
    (fun aWins aNameScore =>
       match find (fun p => String.eqb (NameScore.name p) (NameScore.name aNameScore)) b with
       | None => aWins + 1
       | Some bNameScore =>
           if NameScore.score bNameScore <? NameScore.score aNameScore
           then aWins + 1 else aWins
       end)
    a 0.

(** The inner loop for candidate [a] with tally [wi]: the later candidates
    [bs] with their tallies [ws]. *)
Fixpoint rankedWinsInner (a : list NameScore.t) (wi : Z)
    (bs : list Candidate.t) (ws : list Z) : Z * list Z :=
  match bs, ws with
  | b :: bs', wj :: ws' =>
      let b := Candidate.people b in
      let wi := wi + calculateRankedWinsBetweenPair a b in
      let wj := wj + calculateRankedWinsBetweenPair b a in
      let '(wi, ws'') := rankedWinsInner a wi bs' ws' in
      (wi, wj :: ws'')
  | _, _ => (wi, [])
  end.

(** The outer loop from candidate [i] on: [candidates] and [rankedWins] from
    index [i]. *)
Fixpoint rankedWinsOuter (candidates : list Candidate.t) (rankedWins : list Z)
  : list Candidate.t :=
  match candidates, rankedWins with
  | c :: candidates', wi :: ws =>
      let '(wi, ws) := rankedWinsInner (Candidate.people c) wi candidates' ws in
      Candidate.setRankedWins c wi :: rankedWinsOuter candidates' ws
  | _, _ => []
  end.

(** The candidates as [calculateRankedWins] leaves them. *)
Definition calculateRankedWins (candidates : list Candidate.t) : list Candidate.t :=
  rankedWinsOuter candidates (repeat 0 (length candidates)).

(** ** Round Tabulator *)

Definition getMetric (candidate : Candidate.t) (metric : miniRoundType) : result Z :=
  match metric with
  | score => Ok (Candidate.score candidate)
  | rankedRobin =>
      match Candidate.rankedWins candidate with
      | None => Err RankedWinsMissing
      | Some w => Ok w
      end
  | fiveStars => Ok (Candidate.fiveStars candidate)
  | random => Ok (Candidate.randomTieValue candidate)
  end.

(** [scoringFunc] where [getMetric] returns; [calculateMiniRound] checks
    beforehand that it does on every candidate. *)
Definition scoringFunc (roundType : miniRoundType) (time : Candidate.t) : Z :=
  match getMetric time roundType with
  | Ok m => m
  | Err _ => 0
  end.

(** The array after the call, and the result. *)
Definition calculateMiniRound (numWinners : Z) (candidates : list Candidate.t)
    (roundType : miniRoundType) : result (list Candidate.t * MiniRoundResult.t) :=
  if Z.of_nat (length candidates) <=? numWinners then Err MiniRoundPrecondition
  else
    let candidates :=
      match roundType with
      | rankedRobin => calculateRankedWins candidates
      | _ => candidates
      end in
    _ <- mapM (fun c => getMetric c roundType) candidates ;;
    let candidates :=
      sort (fun a b => scoringFunc roundType b - scoringFunc roundType a) candidates in
    match (if numWinners <? 0 then None else nth_error candidates (Z.to_nat numWinners)) with
    | None => Err TypeError
    | Some c =>
        let scoreToBeat := scoringFunc roundType c in
        let winners := filter (fun w => scoreToBeat <? scoringFunc roundType w) candidates in
        let tied :=
          if Z.of_nat (length winners) =? numWinners then []
          else filter (fun w => scoringFunc roundType w =? scoreToBeat) candidates in
        Ok (candidates, MiniRoundResult.mk roundType candidates winners tied)
    end.

(** The loop of [calculateFullRound] from mini round [i] on.  The first
    component is [candidates] after the mini round run on it. *)
Fixpoint fullRoundLoop (numWinners : Z) (miniRounds : list miniRoundType)
    (candidates : list Candidate.t) (rounds : list MiniRoundResult.t)
    (winners : list Candidate.t)
  : result (list Candidate.t * (list MiniRoundResult.t * list Candidate.t)) :=
  match miniRounds with
  | [] => Ok (candidates, (rounds, winners))
  | roundType :: miniRounds' =>
      '(sorted, roundResult) <-
        calculateMiniRound (numWinners - Z.of_nat (length winners)) candidates roundType ;;
      let rounds := rounds ++ [roundResult] in
      let winners := winners ++ MiniRoundResult.winners roundResult in
      if Z.of_nat (length winners) =? numWinners then Ok (sorted, (rounds, winners))
      else
        '(_, out) <-
          fullRoundLoop numWinners miniRounds' (MiniRoundResult.tied roundResult)
                        rounds winners ;;
        Ok (sorted, out)
  end.

(** The caller's array after the call, and the result. *)
Definition calculateFullRound (numWinners : Z) (candidates : list Candidate.t)
    (miniRounds : list miniRoundType)
  : result (list Candidate.t * FullRoundResult.t) :=
  let startingCandidates := candidates in
  '(candidates, (rounds, winners)) <- fullRoundLoop numWinners miniRounds candidates [] [] ;;
  Ok (candidates, FullRoundResult.mk startingCandidates rounds winners).

(** ** Overlap Filter *)

Definition scoringRound : list miniRoundType := [score; rankedRobin; fiveStars; random].
Definition runoffRoundTypes : list miniRoundType := [rankedRobin; score; fiveStars; random].

(** [other] is dropped by the filter around the window from [start]. *)
Definition overlapsWindow (timeMap : TimeMap) (duration start : Z)
    (other : Candidate.t) : bool :=
  let end_ := start + duration in
  let otherStart := timeMap (Candidate.date other) in
  let otherEnd := otherStart + duration in
  timeInsideRange otherStart (start, end_) || timeInsideRange otherEnd (start, end_).

Definition removeOverlapsWithTopScorer (candidates : list Candidate.t)
    (duration : Z) (timeMap : TimeMap) : result (list Candidate.t) :=
  if 2 <? Z.of_nat (length candidates) then
    '(candidates, scoreResult) <- calculateFullRound 1 candidates scoringRound ;;
    match FullRoundResult.winners scoreResult with
    | [] => Err TypeError
    | highestScored :: _ =>
        let start := timeMap (Candidate.date highestScored) in
        Ok (filter (fun other => negb (overlapsWindow timeMap duration start other))
                   candidates)
    end
  else Ok candidates.

(** ** Result Selector *)

Definition emptyResults : StarResults.t := StarResults.mk None None None.

Definition calculateStarBest (candidates : list Candidate.t) (duration : Z)
  : result StarResults.t :=
  let numTimeslots := numTimeslots duration in
  match candidates with
  | [] => Ok emptyResults
  | [c] =>
      Ok (StarResults.mk
            (Some (TimeScore.mk (Candidate.date c)
                                (jsdiv (inject_Z (Candidate.score c)) numTimeslots)))
            None None)
  | _ =>
      (* scoring round -> find the top two by score *)
      '(_, scoreRound) <- calculateFullRound 2 candidates scoringRound ;;
      (* runoff round -> find the winner by rankings; its first mini round
         works on the array scoreRound.winners itself *)
      '(scoreRoundWinners, runoffRound) <-
        calculateFullRound 1 (FullRoundResult.winners scoreRound) runoffRoundTypes ;;
      match FullRoundResult.winners runoffRound with
      | [] => Err TypeError
      | winner :: _ =>
          let second :=
            find (fun w => negb (String.eqb (Candidate.date w) (Candidate.date winner)))
                 scoreRoundWinners in
          winnerRankedWins <- getMetric winner rankedRobin ;;
          match second with
          | None => Err TypeError
          | Some second =>
              secondRankedWins <- getMetric second rankedRobin ;;
              let totalRankedWins := winnerRankedWins + secondRankedWins in
              (* report the number of preferences expressed as 0 and not NaN *)
              let preferredFraction :=
                if totalRankedWins =? 0 then 0%Q
                else (inject_Z winnerRankedWins / inject_Z totalRankedWins)%Q in
              Ok (StarResults.mk
                    (Some (TimeScore.mk (Candidate.date winner)
                             (jsdiv (inject_Z (Candidate.score winner)) numTimeslots)))
                    (Some (TimeScore.mk (Candidate.date second)
                             (jsdiv (inject_Z (Candidate.score second)) numTimeslots)))
                    (Some preferredFraction))
          end
      end
  end.

(** What a call that returns leaves behind: the value returned and, when the
    tabulation ran, the elapsed milliseconds written to the console. *)
Module Completed.
Record t : Type := mk { out : StarResults.t; loggedMs : option Z }.
End Completed.

(** [now] holds the two readings of [performance.now()]. *)
Definition calculateBestTime (rng : Rng) (now : Z * Z) (times : list string)
    (people : list PersonResponse.t) (duration : Z) (eventId : string)
    (timeMap : TimeMap) : result Completed.t :=
  match people with
  | [] => Ok (Completed.mk emptyResults None)
  | _ :: _ =>
      let t0 := fst now in
      let fullPeopleScores := replaceScoresWithFullScores times people duration timeMap in
      (* collate the list of people's responses to the candidate times *)
      let dateCollated := calculateAvailability times fullPeopleScores in
      let candidates := calculateSimpleCandidateMetrics rng dateCollated duration eventId in
      candidates <- removeOverlapsWithTopScorer candidates duration timeMap ;;
      out <- calculateStarBest candidates duration ;;
      Ok (Completed.mk out (Some (snd now - t0)))
  end.

(** ** Definitions used to state the properties *)

(** The calls of [calculateMiniRound] a full round makes, in order, each as
    the winner count it asks for and the pool it passes. *)
Fixpoint miniRoundCalls (numWinners : Z) (miniRounds : list miniRoundType)
    (candidates winners : list Candidate.t) : list (Z * list Candidate.t) :=
  match miniRounds with
  | [] => []
  | roundType :: miniRounds' =>
      let need := numWinners - Z.of_nat (length winners) in
      (need, candidates) ::
        match calculateMiniRound need candidates roundType with
        | Err _ => []
        | Ok (_, roundResult) =>
            let winners := winners ++ MiniRoundResult.winners roundResult in
            if Z.of_nat (length winners) =? numWinners then []
            else miniRoundCalls numWinners miniRounds'
                   (MiniRoundResult.tied roundResult) winners
        end
  end.

(** A candidate without its [rankedWins], the one field a round rewrites. *)
Definition identity (c : Candidate.t) : string * list NameScore.t * Z * Z * Z :=
  (Candidate.date c, Candidate.people c, Candidate.score c,
   Candidate.fiveStars c, Candidate.randomTieValue c).

(** The first [n] draws of a generator. *)
Fixpoint draws (rng : Rng) (g : rng_state rng) (n : nat) : list Z :=
  match n with
  | O => []
  | S n' => fst (draw rng g) :: draws rng (snd (draw rng g)) n'
  end.

(** "A person wins it for A": their score for A strictly exceeds their score
    for B, or their score for B is absent/zero while their score for A is
    present and nonzero (an absent score is 0). *)
Definition winsItFor (scoreA scoreB : Z) : bool :=
  (scoreB <? scoreA) || ((scoreB =? 0) && negb (scoreA =? 0)).

(** The window [start, start + duration) of the candidate at [start] meets
    the one at [start']. *)
Definition windowsOverlap (duration start start' : Z) : Prop :=
  start < start' + duration /\ start' < start + duration.

(** Slot arrays: chronological, no instant twice, instants on one grid of
    timeslots. *)
Definition chronological (l : list Slot.t) : Prop :=
  StronglySorted (fun a b => Slot.timeObj a <= Slot.timeObj b) l.

Definition onSlotGrid (l : list Slot.t) : Prop :=
  forall a b, In a l -> In b l ->
    (TIMESLOT_MINUTES | Slot.timeObj b - Slot.timeObj a).

(** The pool of a mini round with the round's metric in place: the
    candidates as [calculateRankedWins] leaves them in a ranked-robin round,
    the candidates themselves in the others. *)
Definition roundPool (roundType : miniRoundType) (candidates : list Candidate.t)
  : list Candidate.t :=
  match roundType with
  | rankedRobin => calculateRankedWins candidates
  | _ => candidates
  end.

(** [candidates.sort((a, b) => scoringFunc(b) - scoringFunc(a))] *)
Definition sortByMetric (roundType : miniRoundType) (candidates : list Candidate.t)
  : list Candidate.t :=
  sort (fun a b => scoringFunc roundType b - scoringFunc roundType a) candidates.


(** Descending by [key], as [(a, b) => key b - key a] sorts. *)
Definition descending {A : Type} (key : A -> Z) : list A -> Prop :=
  StronglySorted (fun a b => key b <= key a).

(** [c'] is [c] after [calculateRankedWins] wrote its tally. *)
Definition rewritten (c c' : Candidate.t) : Prop :=
  exists w, c' = Candidate.setRankedWins c w.

(** The result of a mini round whose precondition holds. *)
Definition miniRoundResultOf (numWinners : Z) (roundType : miniRoundType)
    (sorted : list Candidate.t) (scoreToBeat : Z) : MiniRoundResult.t :=
  let winners := filter (fun w => scoreToBeat <? scoringFunc roundType w) sorted in
  MiniRoundResult.mk roundType sorted winners
    (if Z.of_nat (length winners) =? numWinners then []
     else filter (fun w => scoringFunc roundType w =? scoreToBeat) sorted).

(** A person's entry in the collated list of a date (the body of the
    [flatMap] in [calculateAvailability]). *)
Definition collatedEntry (date : string) (p : PersonResponse.t) : list NameScore.t :=
  let score := getScoreForTime date (PersonResponse.availability p) in
  if 0 <? score then [NameScore.mk (PersonResponse.name p) score] else [].

(** What one person adds to the tally of A over B. *)
Definition winPoint (scoreA scoreB : Z) : Z :=
  if winsItFor scoreA scoreB then 1 else 0.

(** [totalRankedWins ? winnerRankedWins / totalRankedWins : 0] *)
Definition fractionOf (winnerRankedWins secondRankedWins : Z) : Q :=
  if winnerRankedWins + secondRankedWins =? 0 then 0%Q
  else (inject_Z winnerRankedWins / inject_Z (winnerRankedWins + secondRankedWins))%Q.

(** The value a call returns, or its fault. *)
Definition returned (r : result Completed.t) : result StarResults.t :=
  match r with
  | Ok c => Ok (Completed.out c)
  | Err e => Err e
  end.

(** A call of [calculateMiniRound] within its precondition, asking for a
    winner. *)
Definition callOk (call : Z * list Candidate.t) : Prop :=
  0 < fst call < Z.of_nat (length (snd call)).

(** Timeslots that start at least a timeslot apart, in order. *)
Definition spaced (l : list Slot.t) : Prop :=
  StronglySorted (fun a b => Slot.timeObj a + TIMESLOT_MINUTES <= Slot.timeObj b) l.

(** The reference aggregation of a person's dense array. *)
Definition newAvailability_reference (fullAvailability : list Slot.t) (duration : Z)
  : list (TimeScore.t Z) :=
  map (fun a => TimeScore.mk (Slot.time a)
                             (fullScore_reference fullAvailability duration a))
      fullAvailability.

(** ** Concrete inputs *)

(** A morning of 1 January 2024 in quarter hours, as labels and as minutes
    of the day. *)
Definition exampleTimeMap : TimeMap := fun label =>
  if String.eqb label "0900-01012024" then 540
  else if String.eqb label "0915-01012024" then 555
  else if String.eqb label "0930-01012024" then 570
  else if String.eqb label "0945-01012024" then 585
  else if String.eqb label "1000-01012024" then 600
  else 0.

Definition morning : list string :=
  ["0900-01012024"; "0915-01012024"; "0930-01012024"; "0945-01012024";
   "1000-01012024"]%string.

(** A generator to run examples with: the draws count up from the length of
    the seed. *)
Definition countingRng : Rng :=
  mkRng Z (fun seed => Z.of_nat (String.length seed)) (fun g => (g, g + 1)).

(** Two timeslots and one person: two candidates reach the Result Selector. *)
Definition twoTimes : list string := ["0900-01012024"; "0915-01012024"]%string.

Definition onePerson : list PersonResponse.t :=
  [PersonResponse.mk "Ada" [TimeScore.mk "0900-01012024"%string 5] 0].

(** Three people on the five timeslots of [morning], for 30-minute meetings. *)
Definition threePeople : list PersonResponse.t :=
  [PersonResponse.mk "Ada"
     [TimeScore.mk "0900-01012024"%string 1; TimeScore.mk "0915-01012024"%string 3;
      TimeScore.mk "0930-01012024"%string 5; TimeScore.mk "0945-01012024"%string 3] 0;
   PersonResponse.mk "Bob"
     [TimeScore.mk "0900-01012024"%string 1; TimeScore.mk "0915-01012024"%string 3;
      TimeScore.mk "0930-01012024"%string 2; TimeScore.mk "0945-01012024"%string 5;
      TimeScore.mk "1000-01012024"%string 5] 0;
   PersonResponse.mk "Cy"
     [TimeScore.mk "0900-01012024"%string 5; TimeScore.mk "0915-01012024"%string 3;
      TimeScore.mk "0945-01012024"%string 1; TimeScore.mk "1000-01012024"%string 2] 0].

(** Three candidates with scores 7, 9 and 7; the second overlaps the first
    for 30-minute meetings. *)
Definition threeCandidates : list Candidate.t :=
  [Candidate.mk "0900-01012024" [NameScore.mk "Ada" 7] 7 None 0 1;
   Candidate.mk "0915-01012024" [NameScore.mk "Ada" 5; NameScore.mk "Bob" 4] 9 None 0 2;
   Candidate.mk "1000-01012024" [NameScore.mk "Bob" 7] 7 None 0 3].

(** Four entries of a person's dense array, in order. *)
Definition fourSlots : list Slot.t :=
  [Slot.mk "0900-01012024" 540 2; Slot.mk "0915-01012024" 555 0;
   Slot.mk "0930-01012024" 570 5; Slot.mk "0945-01012024" 585 1].

(** What the Overlap Filter leaves of [threeCandidates] for 30 minutes. *)
Definition threeCandidatesKept : list Candidate.t :=
  [Candidate.mk "0915-01012024" [NameScore.mk "Ada" 5; NameScore.mk "Bob" 4] 9 None 0 2;
   Candidate.mk "1000-01012024" [NameScore.mk "Bob" 7] 7 None 0 3].

(** What the Result Selector returns on [threeCandidates] for 30 minutes. *)
Definition threeCandidatesBest : StarResults.t :=
  StarResults.mk
    (Some (TimeScore.mk "0915-01012024"%string (jsdiv (inject_Z 9) (numTimeslots 30))))
    (Some (TimeScore.mk "1000-01012024"%string (jsdiv (inject_Z 7) (numTimeslots 30))))
    (Some (1 # 2)%Q).

(** Two people on [twoTimes], and the two collated dates. *)
Definition twoPeople : list PersonResponse.t :=
  [PersonResponse.mk "Ada"
     [TimeScore.mk "0900-01012024"%string 5; TimeScore.mk "0915-01012024"%string 2] 0;
   PersonResponse.mk "Bob" [TimeScore.mk "0915-01012024"%string 4] 0].

Definition collatedFirst : Availability.t :=
  Availability.mk "0900-01012024" [NameScore.mk "Ada" 5].

Definition collatedSecond : Availability.t :=
  Availability.mk "0915-01012024" [NameScore.mk "Ada" 2; NameScore.mk "Bob" 4].

(** One person giving five stars to each of four contiguous timeslots. *)
Definition fourTimes : list string :=
  ["0900-01012024"; "0915-01012024"; "0930-01012024"; "0945-01012024"]%string.

Definition fiveStarPerson : list PersonResponse.t :=
  [PersonResponse.mk "Ada"
     [TimeScore.mk "0900-01012024"%string 5; TimeScore.mk "0915-01012024"%string 5;
      TimeScore.mk "0930-01012024"%string 5; TimeScore.mk "0945-01012024"%string 5] 0].

(** Entries five minutes apart, and two entries a timeslot apart. *)
Definition fiveMinuteSlots : list Slot.t :=
  [Slot.mk "a" 0 1; Slot.mk "b" 5 1; Slot.mk "c" 10 1].

Definition twoSlots : list Slot.t :=
  [Slot.mk "0900-01012024" 540 1; Slot.mk "0915-01012024" 555 1].

(** Two people under one name. *)
Definition namesakes : list PersonResponse.t :=
  [PersonResponse.mk "Ada" [TimeScore.mk "0900-01012024"%string 5] 0;
   PersonResponse.mk "Ada" [TimeScore.mk "0915-01012024"%string 3] 1].

(** The second of [threeCandidates], and the third as the ranked-robin round
    among the two tied at 7 leaves it. *)
Definition candidateQuarterPast : Candidate.t :=
  Candidate.mk "0915-01012024" [NameScore.mk "Ada" 5; NameScore.mk "Bob" 4] 9 None 0 2.

Definition candidateTen : Candidate.t :=
  Candidate.mk "1000-01012024" [NameScore.mk "Bob" 7] 7 (Some 1) 0 3.

(** ** calculateAvailability.ts, with the bounds it reports *)

(** The value of [min] and [max]: a total score or one of the infinities they
    start from. *)
Inductive bound : Type :=
| NegInfinity
| Int (z : Z)
| Infinity.

(** [totalScore < min] and [totalScore > max] *)
Definition belowBound (totalScore : Z) (b : bound) : bool :=
  match b with
  | NegInfinity => false
  | Int z => totalScore <? z
  | Infinity => true
  end.

Definition aboveBound (totalScore : Z) (b : bound) : bool :=
  match b with
  | NegInfinity => true
  | Int z => z <? totalScore
  | Infinity => false
  end.

Module AvailabilityInfo.
Record t : Type := mk
  { availabilities : list Availability.t;
    min : bound;
    max : bound }.
End AvailabilityInfo.

(** [min] and [max] after the callback of [dates.map] ran on a date with
    the collated list [nameScores]. *)
Definition noteTotal (bounds : bound * bound) (nameScores : list NameScore.t)
  : bound * bound :=
  let totalScore := sumOf NameScore.score nameScores in
  (if belowBound totalScore (fst bounds) then Int totalScore else fst bounds,
   if aboveBound totalScore (snd bounds) then Int totalScore else snd bounds).

Definition calculateAvailabilityInfo (dates : list string) (people : list PersonResponse.t)
  : AvailabilityInfo.t :=
  match people with
  | [] => AvailabilityInfo.mk [] (Int 0) (Int 0)
  | _ :: _ =>
      let availabilities := calculateAvailability dates people in
      let bounds :=
        fold_left (fun bounds a => noteTotal bounds (Availability.people a))
                  availabilities (Infinity, NegInfinity) in
      AvailabilityInfo.mk availabilities (fst bounds) (snd bounds)
  end.

(** The index of a cell in the palette of the heat map
    ([Math.max(hereCount - min, 0)]) and the size of that palette
    ([Math.max((max - min) + 1, 2)]), for bounds that are totals. *)
Definition paletteIndex (hereCount min : Z) : Z := Z.max (hereCount - min) 0.
Definition paletteSize (min max : Z) : Z := Z.max (max - min + 1) 2.

(** ** The selection controls of AvailabilityEditor *)

Definition selectAll (times : list string) (selectedScore : Z) : list (TimeScore.t Z) :=
  map (fun t => TimeScore.mk t selectedScore) times.

Definition selectNone : list (TimeScore.t Z) := [].

Definition selectInvert (times : list string) (value : list (TimeScore.t Z))
  : list (TimeScore.t Z) :=
  map (fun t => TimeScore.mk t (MAXSCORE - getScoreForTime t value)) times.

(** [mode.current] *)
Inductive selectionMode : Type := add | remove.

(** What the [pointerup] handler passes to [onChange], if anything:
    [selecting] is [selectingRef.current]. *)
Definition commitSelection (value : list (TimeScore.t Z)) (selecting : list string)
    (mode : option selectionMode) (selectedScore : Z) : option (list (TimeScore.t Z)) :=
  (* current availability with the selected region removed *)
  let selectingRemoved :=
    filter (fun ts => negb (existsb (String.eqb (TimeScore.time ts)) selecting)) value in
  match mode with
  | Some add =>
      (* selecting region with the selected score *)
      let selectingScored := map (fun t => TimeScore.mk t selectedScore) selecting in
      Some (selectingRemoved ++ selectingScored)
  | Some remove => Some selectingRemoved
  | None => None
  end.

(** ** config/api.ts: time scores on the wire *)

(** [s.split(sep)] for a separator that is not empty: the pieces of [s],
    whose first [skip] characters are the rest of a separator just matched. *)
Fixpoint splitFrom (sep : string) (skip : nat) (s : string) : list string :=
  match s with
  | EmptyString => [EmptyString]
  | String c s' =>
      match skip with
      | S skip' => splitFrom sep skip' s'
      | O =>
          if prefix sep s then
            EmptyString :: splitFrom sep (String.length sep - 1) s'
          else
            match splitFrom sep 0 s' with
            | piece :: pieces => String c piece :: pieces
            | [] => [String c EmptyString]
            end
      end
  end.

Definition split (sep s : string) : list string := splitFrom sep 0 s.

Module APIPersonResponse.
Record t : Type := mk
  { name : string;
    availability : list string;
    created_at : Z }.
End APIPersonResponse.

(** [parseInt] and the conversion of a number inside a template string are
    the platform's: [parseInt] gives an integer or [NaN] ([None]); what it
    gives above the integers it reads exactly is clamped away below. *)
Section Wire.
Variable parseInt : string -> option Z.
Variable numberToString : Z -> string.

Definition serializeTimeScore (ts : TimeScore.t Z) : string :=
  (TimeScore.time ts ++ "__" ++ numberToString (TimeScore.score ts))%string.

Definition deserializeTimeScore (ts : string) : TimeScore.t Z :=
  let parts := split "__" ts in
  let timeStr := nth 0 parts EmptyString in
  let scoreStr := nth 1 parts "undefined"%string in
  let parsed := parseInt scoreStr in
  (* if we can't parse out the score we assume it's the max *)
  let parsed := match parsed with
                | None => MAXSCORE
                | Some n => n
                end in
  (* clamp to valid range *)
  let clamped := Z.min (Z.max parsed 0) MAXSCORE in
  TimeScore.mk timeStr clamped.

Definition serializePersonInput (input : list (TimeScore.t Z)) : list string :=
  map serializeTimeScore input.

Definition deserializePersonResponse (response : APIPersonResponse.t) : PersonResponse.t :=
  PersonResponse.mk
    (APIPersonResponse.name response)
    (map deserializeTimeScore (APIPersonResponse.availability response))
    (APIPersonResponse.created_at response).
End Wire.

(** ** Definitions used to state further properties *)

(** The candidates of a pool other than the one at index [i]. *)
Definition others {A : Type} (i : nat) (l : list A) : list A :=
  firstn i l ++ skipn (S i) l.

(** The wins of [c] in its matchups with the candidates [pool]. *)
Definition tally (c : Candidate.t) (pool : list Candidate.t) : Z :=
  sumOf (fun o => calculateRankedWinsBetweenPair (Candidate.people c) (Candidate.people o))
        pool.

(** Consecutive entries are exactly a timeslot apart. *)
Definition contiguous (l : list Slot.t) : Prop :=
  forall i a b,
    nth_error l i = Some a -> nth_error l (S i) = Some b ->
    Slot.timeObj b = Slot.timeObj a + TIMESLOT_MINUTES.

(** Scores as the wire layer hands them over. *)
Definition validScores (availability : list (TimeScore.t Z)) : Prop :=
  Forall (fun ts => 0 <= TimeScore.score ts <= MAXSCORE) availability.

(** The underscore, and strings without one. *)
Definition underscore : Ascii.ascii := Ascii.ascii_of_nat 95.

Fixpoint noUnderscore (s : string) : bool :=
  match s with
  | EmptyString => true
  | String c s' => negb (Ascii.eqb c underscore) && noUnderscore s'
  end.

(** Stand-ins for the platform's conversions on the scores 0 to 9. *)
Definition digitToString (n : Z) : string :=
  String (Ascii.ascii_of_nat (48 + Z.to_nat n)) EmptyString.

Definition parseDigit (s : string) : option Z :=
  match s with
  | String c EmptyString =>
      let n := Z.of_nat (Ascii.nat_of_ascii c) - 48 in
      if (0 <=? n) && (n <=? 9) then Some n else None
  | _ => None
  end.

(** The entry of the dense array for a time label. *)
Definition slotOf (p : PersonResponse.t) (timeMap : TimeMap) (time : string) : Slot.t :=
  Slot.mk time (timeMap time) (getScoreForTime time (PersonResponse.availability p)).

Definition validSlots (l : list Slot.t) : Prop :=
  Forall (fun a => 0 <= Slot.score a <= MAXSCORE) l.

(** * Properties *)

(** ** Arrays *)

Lemma bind_Ok {A B : Type} (r : result A) (k : A -> result B) (b : B) :
  bind r k = Ok b -> exists a, r = Ok a /\ k a = Ok b.
Proof.
  destruct r as [a | e]; simpl; intros H; [eauto | discriminate].
Qed.

Lemma insert_perm {A : Type} (cmp : A -> A -> Z) (x : A) (l : list A) :
  Permutation (insert cmp x l) (x :: l).
Proof.
  induction l as [| y l IH]; simpl; [reflexivity |].
  destruct (0 <? cmp x y); [| reflexivity].
  rewrite IH. apply perm_swap.
Qed.

Lemma sort_perm {A : Type} (cmp : A -> A -> Z) (l : list A) :
  Permutation (sort cmp l) l.
Proof.
  induction l as [| x l IH]; simpl; [reflexivity |].
  rewrite insert_perm. now apply perm_skip.
Qed.

Lemma sort_length {A : Type} (cmp : A -> A -> Z) (l : list A) :
  length (sort cmp l) = length l.
Proof. apply Permutation_length, sort_perm. Qed.

Lemma sort_In {A : Type} (cmp : A -> A -> Z) (l : list A) (x : A) :
  In x (sort cmp l) <-> In x l.
Proof.
  split; apply Permutation_in; [| symmetry]; apply sort_perm.
Qed.

Section SortedByKey.
Context {A : Type} (key : A -> Z).

Lemma insert_descending (x : A) (l : list A) :
  descending key l -> descending key (insert (fun a b => key b - key a) x l).
Proof.
  unfold descending. induction 1 as [| y l Hl IH Hy]; simpl.
  - repeat constructor.
  - destruct (0 <? key y - key x) eqn:E.
    + constructor; [exact IH |].
      rewrite Forall_forall in *. intros z Hz.
      apply (Permutation_in _ (insert_perm _ x l)) in Hz.
      destruct Hz as [<- | Hz]; [apply Z.ltb_lt in E; lia | auto].
    + apply Z.ltb_ge in E.
      constructor; [constructor; assumption |].
      constructor; [lia |].
      rewrite Forall_forall in *. intros z Hz. specialize (Hy z Hz). lia.
Qed.

Lemma sort_descending (l : list A) :
  descending key (sort (fun a b => key b - key a) l).
Proof.
  induction l as [| x l IH]; simpl; [constructor |].
  now apply insert_descending.
Qed.

(** In a descending array the entries above the key at index [k] are fewer
    than [k + 1], and those not below it are more than [k]. *)
Lemma descending_counts (l : list A) (k : nat) (c : A) :
  descending key l -> nth_error l k = Some c ->
  let above := filter (fun w => key c <? key w) l in
  let level := filter (fun w => key w =? key c) l in
  (length above <= k)%nat /\ (k < length above + length level)%nat.
Proof.
  unfold descending. intros Hl. revert k.
  induction Hl as [| x l Hl IH Hx]; intros k Hk.
  - destruct k; discriminate.
  - destruct k as [| k]; simpl in Hk.
    + injection Hk as ->. simpl.
      rewrite Z.ltb_irrefl, Z.eqb_refl. simpl.
      assert (E : filter (fun w => key c <? key w) l = []).
      { clear -Hx. induction Hx as [| y l Hy _ IHl]; [reflexivity |]. simpl.
        destruct (key c <? key y) eqn:E; [apply Z.ltb_lt in E; lia | exact IHl]. }
      rewrite E. simpl. lia.
    + destruct (IH k Hk) as [H1 H2].
      assert (Hc : key c <= key x).
      { rewrite Forall_forall in Hx. apply Hx. eapply nth_error_In; eauto. }
      simpl.
      destruct (key c <? key x) eqn:E1; destruct (key x =? key c) eqn:E2; simpl;
        lia.
Qed.
End SortedByKey.

(** ** Ranked wins are written into every candidate *)

Lemma rankedWinsInner_length (a : list NameScore.t) (bs : list Candidate.t) :
  forall (wi : Z) (ws : list Z),
    length ws = length bs -> length (snd (rankedWinsInner a wi bs ws)) = length bs.
Proof.
  induction bs as [| b bs IH]; intros wi ws Hlen; destruct ws as [| wj ws];
    try discriminate; simpl; [reflexivity |].
  specialize (IH (wi + calculateRankedWinsBetweenPair a (Candidate.people b)) ws).
  destruct (rankedWinsInner a _ bs ws) as [wi' ws'] eqn:E. simpl in *.
  f_equal. apply IH. now injection Hlen.
Qed.

Lemma rankedWinsOuter_rewritten (candidates : list Candidate.t) :
  forall rankedWins : list Z,
    length rankedWins = length candidates ->
    Forall2 rewritten candidates (rankedWinsOuter candidates rankedWins).
Proof.
  induction candidates as [| c cs IH]; intros ws Hlen; destruct ws as [| wi ws];
    try discriminate; simpl; [constructor |].
  pose proof (rankedWinsInner_length (Candidate.people c) cs wi ws) as Hin.
  destruct (rankedWinsInner (Candidate.people c) wi cs ws) as [wi' ws'] eqn:E.
  simpl in Hin. constructor.
  - now exists wi'.
  - apply IH, Hin. now injection Hlen.
Qed.

Lemma calculateRankedWins_rewritten (candidates : list Candidate.t) :
  Forall2 rewritten candidates (calculateRankedWins candidates).
Proof.
  apply rankedWinsOuter_rewritten, repeat_length.
Qed.

Lemma calculateRankedWins_length (candidates : list Candidate.t) :
  length (calculateRankedWins candidates) = length candidates.
Proof.
  symmetry. eapply Forall2_length, calculateRankedWins_rewritten.
Qed.

Lemma Forall2_In_r {A B : Type} (R : A -> B -> Prop) (l : list A) (l' : list B) (b : B) :
  Forall2 R l l' -> In b l' -> exists a, In a l /\ R a b.
Proof.
  induction 1 as [| x y l l' Hxy _ IH]; intros Hin; [contradiction |].
  destruct Hin as [<- | Hin].
  - exists x. split; [now left | assumption].
  - destruct (IH Hin) as (a & Ha & HR). exists a. split; [now right | assumption].
Qed.

Lemma roundPool_length (roundType : miniRoundType) (candidates : list Candidate.t) :
  length (roundPool roundType candidates) = length candidates.
Proof.
  destruct roundType; simpl; auto using calculateRankedWins_length.
Qed.

(** In its round every candidate of the pool has the round's metric. *)
Lemma roundPool_getMetric (roundType : miniRoundType) (candidates : list Candidate.t)
    (c : Candidate.t) :
  In c (roundPool roundType candidates) ->
  getMetric c roundType = Ok (scoringFunc roundType c).
Proof.
  destruct roundType; simpl; try reflexivity.
  intros Hin.
  destruct (Forall2_In_r _ _ _ _ (calculateRankedWins_rewritten candidates) Hin)
    as (c0 & _ & w & ->).
  reflexivity.
Qed.

(** A candidate of the pool is one of the candidates, up to [rankedWins]. *)
Lemma roundPool_identity (roundType : miniRoundType) (candidates : list Candidate.t)
    (c : Candidate.t) :
  In c (roundPool roundType candidates) ->
  exists c0, In c0 candidates /\ identity c = identity c0.
Proof.
  destruct roundType; simpl; eauto.
  intros Hin.
  destruct (Forall2_In_r _ _ _ _ (calculateRankedWins_rewritten candidates) Hin)
    as (c0 & Hc0 & w & ->).
  exists c0. split; [assumption | reflexivity].
Qed.

Lemma mapM_Ok {A B : Type} (f : A -> result B) (g : A -> B) (l : list A) :
  (forall a, In a l -> f a = Ok (g a)) -> mapM f l = Ok (map g l).
Proof.
  induction l as [| a l IH]; intros H; simpl; [reflexivity |].
  rewrite (H a (or_introl eq_refl)). simpl.
  rewrite IH; [reflexivity |]. intros; apply H; now right.
Qed.

(** ** Mini round *)

Lemma calculateMiniRound_Ok (numWinners : Z) (candidates : list Candidate.t)
    (roundType : miniRoundType) :
  0 <= numWinners < Z.of_nat (length candidates) ->
  let sorted := sortByMetric roundType (roundPool roundType candidates) in
  exists c,
    nth_error sorted (Z.to_nat numWinners) = Some c /\
    calculateMiniRound numWinners candidates roundType
    = Ok (sorted, miniRoundResultOf numWinners roundType sorted (scoringFunc roundType c)).
Proof.
  intros Hn sorted.
  assert (Hlen : length sorted = length candidates).
  { unfold sorted, sortByMetric. now rewrite sort_length, roundPool_length. }
  destruct (nth_error sorted (Z.to_nat numWinners)) as [c |] eqn:Hc.
  2:{ apply nth_error_None in Hc. lia. }
  exists c. split; [reflexivity |].
  unfold calculateMiniRound.
  destruct (Z.of_nat (length candidates) <=? numWinners) eqn:E; [lia |].
  fold (roundPool roundType candidates).
  rewrite (mapM_Ok _ (scoringFunc roundType)) by apply roundPool_getMetric.
  simpl. fold (sortByMetric roundType (roundPool roundType candidates)). fold sorted.
  destruct (numWinners <? 0) eqn:E0; [lia |].
  rewrite Hc. reflexivity.
Qed.

(** C1.  A mini round asked for [need] winners on a pool [C], with
    [0 < need < |C|], returns. Its array is the pool (with the round's metric
    in place) sorted descending by the metric; [scoreToBeat] is the metric of
    the entry at sorted index [need]; the winners are exactly the entries
    whose metric strictly exceeds [scoreToBeat]; when there are [need] of them
    the tied list is empty, and otherwise the tied list is exactly the
    entries whose metric equals [scoreToBeat]. *)
Theorem C1_mini_round (need : Z) (C : list Candidate.t) (roundType : miniRoundType) :
  0 < need < Z.of_nat (length C) ->
  let sorted := sortByMetric roundType (roundPool roundType C) in
  exists (r : MiniRoundResult.t) (atNeed : Candidate.t) (scoreToBeat : Z),
    calculateMiniRound need C roundType = Ok (sorted, r) /\
    Permutation sorted (roundPool roundType C) /\
    descending (scoringFunc roundType) sorted /\
    (forall c, In c sorted -> getMetric c roundType = Ok (scoringFunc roundType c)) /\
    nth_error sorted (Z.to_nat need) = Some atNeed /\
    getMetric atNeed roundType = Ok scoreToBeat /\
    MiniRoundResult.candidates r = sorted /\
    MiniRoundResult.winners r
    = filter (fun w => scoreToBeat <? scoringFunc roundType w) sorted /\
    (Z.of_nat (length (MiniRoundResult.winners r)) = need ->
     MiniRoundResult.tied r = []) /\
    (Z.of_nat (length (MiniRoundResult.winners r)) <> need ->
     MiniRoundResult.tied r
     = filter (fun w => scoringFunc roundType w =? scoreToBeat) sorted).
Proof.
  intros Hneed sorted.
  destruct (calculateMiniRound_Ok need C roundType) as (c & Hc & Hrun); [lia |].
  fold sorted in Hc, Hrun.
  assert (Hmetric : forall c, In c sorted ->
                              getMetric c roundType = Ok (scoringFunc roundType c)).
  { intros c' Hin. apply (roundPool_getMetric roundType C).
    unfold sorted, sortByMetric in Hin. now apply sort_In in Hin. }
  eexists; exists c, (scoringFunc roundType c).
  split; [exact Hrun |].
  split; [apply sort_perm |].
  split; [apply sort_descending |].
  split; [exact Hmetric |].
  split; [exact Hc |].
  split; [apply Hmetric; eapply nth_error_In; exact Hc |].
  unfold miniRoundResultOf; simpl.
  split; [reflexivity |]. split; [reflexivity |].
  split; intros H.
  - apply Z.eqb_eq in H. now rewrite H.
  - apply Z.eqb_neq in H. now rewrite H.
Qed.

(** The witness of C1: three candidates scored 7, 9, 7 and one winner asked. *)
Lemma C1_mini_round_witness :
  let C := [Candidate.mk "a" [] 7 None 0 1; Candidate.mk "b" [] 9 None 0 2;
            Candidate.mk "c" [] 7 None 0 3] in
  0 < 1 < Z.of_nat (length C) /\
  exists r, calculateMiniRound 1 C score = Ok (sortByMetric score C, r).
Proof.
  split; [simpl; lia |].
  destruct (C1_mini_round 1
              [Candidate.mk "a" [] 7 None 0 1; Candidate.mk "b" [] 9 None 0 2;
               Candidate.mk "c" [] 7 None 0 3] score) as (r & _ & _ & H & _).
  - simpl; lia.
  - exists r. exact H.
Defined.

(** ** Full round *)

(** A mini round never finds more winners than asked, and when it finds
    fewer, the candidates it leaves tied outnumber the winners still missing. *)
Lemma calculateMiniRound_progress (need : Z) (candidates : list Candidate.t)
    (roundType : miniRoundType) :
  0 <= need < Z.of_nat (length candidates) ->
  exists sorted r,
    calculateMiniRound need candidates roundType = Ok (sorted, r) /\
    Z.of_nat (length (MiniRoundResult.winners r)) <= need /\
    (Z.of_nat (length (MiniRoundResult.winners r)) <> need ->
     need - Z.of_nat (length (MiniRoundResult.winners r))
     < Z.of_nat (length (MiniRoundResult.tied r))).
Proof.
  intros Hneed.
  destruct (calculateMiniRound_Ok need candidates roundType Hneed) as (c & Hc & Hrun).
  do 2 eexists. split; [exact Hrun |].
  pose proof (descending_counts (scoringFunc roundType) _ _ _
                (sort_descending (scoringFunc roundType) _) Hc) as [H1 H2].
  unfold miniRoundResultOf. simpl.
  fold (sortByMetric roundType (roundPool roundType candidates)) in H1, H2.
  split; [lia |].
  intros Hne. apply Z.eqb_neq in Hne. rewrite Hne. lia.
Qed.

Lemma fullRoundLoop_safe (numWinners : Z) (miniRounds : list miniRoundType) :
  forall (candidates : list Candidate.t) (rounds : list MiniRoundResult.t)
         (winners : list Candidate.t),
    0 < numWinners - Z.of_nat (length winners) < Z.of_nat (length candidates) ->
    Forall callOk (miniRoundCalls numWinners miniRounds candidates winners) /\
    exists sorted rounds' winners',
      fullRoundLoop numWinners miniRounds candidates rounds winners
      = Ok (sorted, (rounds', winners')) /\
      Z.of_nat (length winners') <= numWinners.
Proof.
  induction miniRounds as [| roundType miniRounds IH]; intros candidates rounds winners H.
  - split; [constructor |]. simpl. do 3 eexists. split; [reflexivity | lia].
  - simpl.
    destruct (calculateMiniRound_progress
                (numWinners - Z.of_nat (length winners)) candidates roundType)
      as (sorted & r & Hrun & Hle & Hlt); [lia |].
    rewrite Hrun. simpl.
    rewrite length_app, Nat2Z.inj_add.
    destruct (Z.of_nat (length winners) + Z.of_nat (length (MiniRoundResult.winners r))
              =? numWinners) eqn:E.
    + split; [constructor; [exact H | constructor] |].
      do 3 eexists. split; [reflexivity |].
      rewrite length_app. lia.
    + apply Z.eqb_neq in E.
      destruct (IH (MiniRoundResult.tied r) (rounds ++ [r])
                   (winners ++ MiniRoundResult.winners r)) as (Hcalls & s & rs & ws & Hloop & Hws).
      { rewrite length_app, Nat2Z.inj_add. lia. }
      split; [constructor; [exact H | exact Hcalls] |].
      rewrite Hloop. simpl. do 3 eexists. split; [reflexivity | exact Hws].
Qed.

Lemma calculateFullRound_safe (N : Z) (C : list Candidate.t)
    (miniRounds : list miniRoundType) :
  0 < N < Z.of_nat (length C) ->
  exists (C' : list Candidate.t) (r : FullRoundResult.t),
    calculateFullRound N C miniRounds = Ok (C', r) /\
    Z.of_nat (length (FullRoundResult.winners r)) <= N.
Proof.
  intros H.
  destruct (fullRoundLoop_safe N miniRounds C [] []) as (_ & s & rs & ws & Hloop & Hws).
  { simpl. lia. }
  unfold calculateFullRound. rewrite Hloop. simpl.
  do 2 eexists. split; [reflexivity | exact Hws].
Qed.

(** C2.  A full round asked for [N] winners on a pool [C], with
    [0 < N < |C|], asks each mini round it runs for fewer winners than the
    pool it passes (and for at least one), so no call faults and the round
    returns; the winners it returns are at most [N]. *)
Theorem C2_full_round_safe (N : Z) (C : list Candidate.t)
    (miniRounds : list miniRoundType) :
  0 < N < Z.of_nat (length C) ->
  Forall (fun call => 0 < fst call < Z.of_nat (length (snd call)))
         (miniRoundCalls N miniRounds C []) /\
  exists (C' : list Candidate.t) (r : FullRoundResult.t),
    calculateFullRound N C miniRounds = Ok (C', r) /\
    Z.of_nat (length (FullRoundResult.winners r)) <= N.
Proof.
  intros H.
  destruct (fullRoundLoop_safe N miniRounds C [] []) as (Hcalls & s & rs & ws & Hloop & Hws).
  { simpl. lia. }
  split; [exact Hcalls |].
  unfold calculateFullRound. rewrite Hloop. simpl.
  do 2 eexists. split; [reflexivity | exact Hws].
Qed.

(** The witness of C2: the scoring round on three candidates, two tied. *)
Lemma C2_full_round_safe_witness :
  let C := [Candidate.mk "a" [] 7 None 0 1; Candidate.mk "b" [] 9 None 0 2;
            Candidate.mk "c" [] 9 None 0 3] in
  0 < 1 < Z.of_nat (length C) /\
  exists C' r, calculateFullRound 1 C scoringRound = Ok (C', r) /\
               Z.of_nat (length (FullRoundResult.winners r)) <= 1.
Proof.
  split; [simpl; lia |].
  apply (C2_full_round_safe 1
           [Candidate.mk "a" [] 7 None 0 1; Candidate.mk "b" [] 9 None 0 2;
            Candidate.mk "c" [] 9 None 0 3] scoringRound).
  simpl; lia.
Defined.

(** A mini round that returns was asked for fewer winners than it had
    candidates, and its result is the one computed from the sorted pool. *)
Lemma calculateMiniRound_inv (numWinners : Z) (candidates : list Candidate.t)
    (roundType : miniRoundType) (sorted : list Candidate.t) (r : MiniRoundResult.t) :
  calculateMiniRound numWinners candidates roundType = Ok (sorted, r) ->
  0 <= numWinners < Z.of_nat (length candidates) /\
  sorted = sortByMetric roundType (roundPool roundType candidates) /\
  exists c,
    nth_error sorted (Z.to_nat numWinners) = Some c /\
    r = miniRoundResultOf numWinners roundType sorted (scoringFunc roundType c).
Proof.
  intros H.
  assert (Hn : 0 <= numWinners < Z.of_nat (length candidates)).
  { unfold calculateMiniRound in H.
    destruct (Z.of_nat (length candidates) <=? numWinners) eqn:E; [discriminate |].
    fold (roundPool roundType candidates) in H.
    rewrite (mapM_Ok _ (scoringFunc roundType)) in H by apply roundPool_getMetric.
    simpl in H.
    destruct (numWinners <? 0) eqn:E0; [discriminate | lia]. }
  split; [exact Hn |].
  destruct (calculateMiniRound_Ok numWinners candidates roundType Hn) as (c & Hc & Hrun).
  rewrite Hrun in H. injection H as <- <-.
  split; [reflexivity |]. now exists c.
Qed.

Lemma miniRoundResultOf_winners_incl (n : Z) (roundType : miniRoundType)
    (sorted : list Candidate.t) (scoreToBeat : Z) :
  incl (MiniRoundResult.winners (miniRoundResultOf n roundType sorted scoreToBeat)) sorted.
Proof.
  unfold miniRoundResultOf. simpl. intros x Hx. apply filter_In in Hx. tauto.
Qed.

Lemma miniRoundResultOf_tied_incl (n : Z) (roundType : miniRoundType)
    (sorted : list Candidate.t) (scoreToBeat : Z) :
  incl (MiniRoundResult.tied (miniRoundResultOf n roundType sorted scoreToBeat)) sorted.
Proof.
  unfold miniRoundResultOf. simpl. intros x Hx.
  destruct (_ =? n); [contradiction |]. apply filter_In in Hx. tauto.
Qed.

(** What holds of the candidates and is kept by the pools of the rounds run
    holds of the array left behind and of the winners. *)
Lemma fullRoundLoop_members (P : Candidate.t -> Prop) (numWinners : Z)
    (miniRounds : list miniRoundType) :
  (forall roundType cs, In roundType miniRounds ->
     Forall P cs -> Forall P (roundPool roundType cs)) ->
  forall candidates rounds winners sorted rounds' winners',
    Forall P candidates -> Forall P winners ->
    fullRoundLoop numWinners miniRounds candidates rounds winners
    = Ok (sorted, (rounds', winners')) ->
    Forall P sorted /\ Forall P winners'.
Proof.
  induction miniRounds as [| roundType miniRounds IH];
    intros Hpool candidates rounds winners sorted rounds' winners' Hc Hw Hrun.
  - simpl in Hrun. injection Hrun as <- <- <-. now split.
  - simpl in Hrun.
    apply bind_Ok in Hrun. destruct Hrun as ([s r] & Hmini & Hrest).
    apply calculateMiniRound_inv in Hmini.
    destruct Hmini as (_ & Hs & c & _ & Hr).
    assert (HPs : Forall P s).
    { rewrite Hs. unfold sortByMetric.
      eapply Permutation_Forall; [symmetry; apply sort_perm |].
      apply Hpool; [now left | assumption]. }
    assert (HPw : Forall P (winners ++ MiniRoundResult.winners r)).
    { apply Forall_app. split; [assumption |].
      rewrite Hr. eapply incl_Forall; [apply miniRoundResultOf_winners_incl | exact HPs]. }
    destruct (Z.of_nat (length (winners ++ MiniRoundResult.winners r)) =? numWinners).
    + injection Hrest as <- <- <-. now split.
    + apply bind_Ok in Hrest. destruct Hrest as ([s' [rs' ws']] & Hloop & Hret).
      injection Hret as <- <- <-.
      split; [exact HPs |].
      eapply (IH (fun rt cs Hin => Hpool rt cs (or_intror Hin))); [| | exact Hloop].
      * rewrite Hr. eapply incl_Forall; [apply miniRoundResultOf_tied_incl | exact HPs].
      * exact HPw.
Qed.

(** The array a full round leaves and its winners are candidates of the
    pool, up to [rankedWins]. *)
Lemma calculateFullRound_identity (numWinners : Z) (candidates : list Candidate.t)
    (miniRounds : list miniRoundType) (sorted : list Candidate.t)
    (r : FullRoundResult.t) :
  calculateFullRound numWinners candidates miniRounds = Ok (sorted, r) ->
  let P := fun c => In (identity c) (map identity candidates) in
  Forall P sorted /\ Forall P (FullRoundResult.winners r).
Proof.
  intros H P. unfold calculateFullRound in H.
  apply bind_Ok in H. destruct H as ([s [rs ws]] & Hloop & Hret).
  injection Hret as <- <-. simpl.
  eapply (fullRoundLoop_members P); [| | | exact Hloop].
  - intros roundType cs _ Hcs. rewrite Forall_forall in *. intros c Hc.
    destruct (roundPool_identity roundType cs c Hc) as (c0 & Hc0 & E).
    unfold P. rewrite E. now apply Hcs.
  - rewrite Forall_forall. intros c Hc. unfold P. now apply in_map.
  - constructor.
Qed.

(** A full round that runs a mini round and returns was asked for fewer
    winners than it had candidates; its winners are then at most those asked
    for. *)
Lemma calculateFullRound_inv (numWinners : Z) (candidates : list Candidate.t)
    (roundType : miniRoundType) (miniRounds : list miniRoundType)
    (sorted : list Candidate.t) (r : FullRoundResult.t) :
  0 < numWinners ->
  calculateFullRound numWinners candidates (roundType :: miniRounds) = Ok (sorted, r) ->
  numWinners < Z.of_nat (length candidates) /\
  sorted = sortByMetric roundType (roundPool roundType candidates) /\
  Z.of_nat (length (FullRoundResult.winners r)) <= numWinners.
Proof.
  intros Hpos H.
  assert (Hlen : numWinners < Z.of_nat (length candidates) /\
                 sorted = sortByMetric roundType (roundPool roundType candidates)).
  { unfold calculateFullRound in H. simpl in H.
    apply bind_Ok in H. destruct H as ([s [rs ws]] & Hloop & Hret).
    injection Hret as <- <-.
    apply bind_Ok in Hloop. destruct Hloop as ([s' r'] & Hmini & Hrest).
    apply calculateMiniRound_inv in Hmini. destruct Hmini as (Hn & Hs & _).
    rewrite Z.sub_0_r in Hn. split; [lia |].
    destruct (Z.of_nat (length (MiniRoundResult.winners r')) =? numWinners).
    - now injection Hrest as <- _ _.
    - apply bind_Ok in Hrest. destruct Hrest as ([? [? ?]] & _ & Hret).
      now injection Hret as <- _ _. }
  destruct Hlen as [Hlen Hs]. split; [exact Hlen |]. split; [exact Hs |].
  destruct (calculateFullRound_safe numWinners candidates (roundType :: miniRounds))
    as (C' & r0 & Hrun & Hle); [lia |].
  rewrite Hrun in H. now injection H as _ <-.
Qed.

(** ** Duration Aggregator: the bounded scan *)

Lemma sumOf_from {A : Type} (f : A -> Z) (l : list A) (z : Z) :
  fold_left (fun sum cur => sum + f cur) l z = z + sumOf f l.
Proof.
  unfold sumOf. revert z.
  induction l as [| a l IH]; intros z; simpl; [lia |].
  rewrite (IH (z + f a)), (IH (f a)). lia.
Qed.

Lemma sumOf_app {A : Type} (f : A -> Z) (l l' : list A) :
  sumOf f (l ++ l') = sumOf f l + sumOf f l'.
Proof.
  unfold sumOf at 1. rewrite fold_left_app. fold (sumOf f l). apply sumOf_from.
Qed.

Lemma filter_none {A : Type} (p : A -> bool) (l : list A) :
  (forall x, In x l -> p x = false) -> filter p l = [].
Proof.
  induction l as [| a l IH]; intros H; simpl; [reflexivity |].
  rewrite (H a (or_introl eq_refl)). apply IH. intros; apply H; now right.
Qed.

Lemma StronglySorted_nth {A : Type} (R : A -> A -> Prop) (l : list A) :
  StronglySorted R l ->
  forall (i j : nat) (a b : A),
    (i < j)%nat -> nth_error l i = Some a -> nth_error l j = Some b -> R a b.
Proof.
  induction 1 as [| x l Hl IH Hx]; intros i j a b Hij Ha Hb.
  - destruct i; discriminate.
  - destruct j as [| j]; [lia |]. simpl in Hb.
    destruct i as [| i]; simpl in Ha.
    + injection Ha as <-. rewrite Forall_forall in Hx.
      apply Hx. eapply nth_error_In; eauto.
    + apply (IH i j); [lia | assumption..].
Qed.

Lemma compare_neg (a b : Z) : (compare a b <? 0) = true <-> a < b.
Proof.
  unfold compare. destruct (Z.compare_spec a b); simpl; split; intros; lia || discriminate.
Qed.

Lemma timeInsideRange_spec (other lo hi : Z) :
  timeInsideRange other (lo, hi) = true <-> lo < other < hi.
Proof.
  unfold timeInsideRange. simpl. now rewrite andb_true_iff, !compare_neg.
Qed.

(** The meeting spans a whole number of timeslots: the end index of the
    slice is [idx + k]. *)
Lemma toInteger_sliceEnd (idx k : Z) :
  toInteger (inject_Z idx + numTimeslots (TIMESLOT_MINUTES * k))%Q = idx + k.
Proof.
  unfold toInteger, numTimeslots, TIMESLOT_MINUTES.
  cbn -[Z.mul Z.add Z.quot].
  replace (idx * 15 + 15 * k * 1 * 1) with ((idx + k) * 15) by lia.
  apply Z.quot_mul. lia.
Qed.

Lemma spaced_nth (l : list Slot.t) (i : nat) (a : Slot.t) :
  spaced l -> nth_error l i = Some a ->
  forall (j : nat) (b : Slot.t),
    nth_error l (i + j) = Some b ->
    Slot.timeObj a + TIMESLOT_MINUTES * Z.of_nat j <= Slot.timeObj b.
Proof.
  intros Hl Ha. induction j as [| j IH]; intros b Hb.
  - rewrite Nat.add_0_r, Ha in Hb. injection Hb as <-. lia.
  - destruct (nth_error l (i + j)) as [b' |] eqn:Hb'.
    + specialize (IH b' eq_refl).
      pose proof (StronglySorted_nth _ _ Hl (i + j) (i + S j) b' b
                    ltac:(lia) Hb' Hb) as Hstep.
      simpl in Hstep. lia.
    + apply nth_error_None in Hb'.
      assert (nth_error l (i + S j) = None) by (apply nth_error_None; lia).
      congruence.
Qed.

Lemma chronological_spaced (l : list Slot.t) :
  chronological l -> NoDup (map Slot.timeObj l) -> onSlotGrid l -> spaced l.
Proof.
  unfold chronological, spaced, onSlotGrid.
  induction 1 as [| a l Hl IH Ha]; intros Hnd Hgrid; [constructor |].
  simpl in Hnd. inversion Hnd as [| ? ? Hnotin Hnd']; subst.
  constructor.
  - apply IH; [assumption |]. intros x y Hx Hy. apply Hgrid; now right.
  - rewrite Forall_forall in *. intros b Hb.
    specialize (Ha b Hb).
    assert (Hne : Slot.timeObj a <> Slot.timeObj b).
    { intros E. apply Hnotin. rewrite E. now apply in_map. }
    destruct (Hgrid a b (or_introl eq_refl) (or_intror Hb)) as [q Hq].
    unfold TIMESLOT_MINUTES in *. lia.
Qed.

(** The scan of [duration / 15] entries from [idx] loses nothing of the
    window when the entries are a timeslot apart. *)
Lemma fullScore_spaced (fa : list Slot.t) (k : Z) (idx : nat) (a : Slot.t) :
  spaced fa -> nth_error fa idx = Some a ->
  fullScore fa (TIMESLOT_MINUTES * k) a idx
  = fullScore_reference fa (TIMESLOT_MINUTES * k) a.
Proof.
  intros Hfa Ha.
  unfold fullScore, fullScore_reference. cbv zeta.
  rewrite toInteger_sliceEnd.
  set (t := Slot.timeObj a).
  set (p := fun a2 : Slot.t =>
              timeInsideRange (Slot.timeObj a2) (t, t + TIMESLOT_MINUTES * k)).
  f_equal. f_equal.
  assert (Hp : forall x, p x = true ->
                         t < Slot.timeObj x < t + TIMESLOT_MINUTES * k).
  { intros x Hx. now apply timeInsideRange_spec in Hx. }
  assert (Hidx : (idx < length fa)%nat).
  { apply nth_error_Some. congruence. }
  destruct (Z_le_gt_dec k 0) as [Hk | Hk].
  - (* an empty window *)
    rewrite !filter_none; [reflexivity | |];
      intros x _; destruct (p x) eqn:E; [| reflexivity | | reflexivity];
      apply Hp in E; unfold TIMESLOT_MINUTES in E; lia.
  - unfold slice, relIndex.
    destruct (Z.of_nat idx <? 0) eqn:E1; [lia |].
    destruct (Z.of_nat idx + k <? 0) eqn:E2; [lia |].
    rewrite (Z.min_l (Z.of_nat idx)) by lia.
    rewrite Nat2Z.id.
    set (m := Z.to_nat (Z.min (Z.of_nat idx + k) (Z.of_nat (length fa)) - Z.of_nat idx)).
    rewrite <- (firstn_skipn idx fa) at 2.
    rewrite <- (firstn_skipn m (skipn idx fa)) at 2.
    rewrite !filter_app.
    rewrite (filter_none p (firstn idx fa)).
    + rewrite (filter_none p (skipn m (skipn idx fa))); [now rewrite app_nil_r |].
      intros x Hx. destruct (p x) eqn:E; [| reflexivity].
      apply Hp in E.
      apply In_nth_error in Hx. destruct Hx as [j Hj].
      rewrite !nth_error_skipn in Hj.
      assert (Hlen : (idx + (m + j) < length fa)%nat).
      { apply nth_error_Some. congruence. }
      pose proof (spaced_nth fa idx a Hfa Ha (m + j) x Hj) as Hsp.
      fold t in Hsp. unfold TIMESLOT_MINUTES in *. lia.
    + intros x Hx. destruct (p x) eqn:E; [| reflexivity].
      apply Hp in E.
      apply In_nth_error in Hx. destruct Hx as [i Hi].
      rewrite nth_error_firstn in Hi.
      destruct (i <? idx)%nat eqn:Ei; [| discriminate].
      apply Nat.ltb_lt in Ei.
      pose proof (StronglySorted_nth _ _ Hfa i idx x a Ei Hi Ha) as Hlt.
      fold t in Hlt. unfold TIMESLOT_MINUTES in *. lia.
Qed.

Lemma fullScore_chronological (fa : list Slot.t) (duration : Z) (idx : nat) (a : Slot.t) :
  chronological fa ->
  NoDup (map Slot.timeObj fa) ->
  onSlotGrid fa ->
  (TIMESLOT_MINUTES | duration) ->
  nth_error fa idx = Some a ->
  fullScore fa duration a idx = fullScore_reference fa duration a.
Proof.
  intros Hsorted Hnodup Hgrid [k Hk] Ha.
  rewrite Hk, Z.mul_comm.
  apply fullScore_spaced; [| exact Ha].
  now apply chronological_spaced.
Qed.

(** C6.  For every chronologically sorted, duplicate-free array of timeslot
    entries and every start index, with a duration of whole timeslots, the
    score found by scanning only the [duration / 15] positions from the start
    index is the score of the reference that filters the whole array by the
    open window between the start and the start plus the duration. *)
Theorem C6_bounded_lookahead (fa : list Slot.t) (duration : Z) (idx : nat) (a : Slot.t) :
  chronological fa ->
  NoDup (map Slot.timeObj fa) ->
  onSlotGrid fa ->
  (TIMESLOT_MINUTES | duration) ->
  nth_error fa idx = Some a ->
  fullScore fa duration a idx = fullScore_reference fa duration a.
Proof.
  intros Hsorted Hnodup Hgrid [k Hk] Ha.
  rewrite Hk, Z.mul_comm.
  apply fullScore_spaced; [| exact Ha].
  now apply chronological_spaced.
Qed.

(** *** The dense array of a person *)

Lemma insert_chronological (x : Slot.t) (l : list Slot.t) :
  chronological l ->
  chronological (insert (fun a b => compare (Slot.timeObj a) (Slot.timeObj b)) x l).
Proof.
  unfold chronological. induction 1 as [| y l Hl IH Hy]; simpl.
  - repeat constructor.
  - destruct (0 <? compare (Slot.timeObj x) (Slot.timeObj y)) eqn:E.
    + assert (Hyx : Slot.timeObj y <= Slot.timeObj x).
      { unfold compare in E.
        destruct (Z.compare_spec (Slot.timeObj x) (Slot.timeObj y)); simpl in E;
          try discriminate. lia. }
      constructor; [exact IH |].
      rewrite Forall_forall in *. intros z Hz.
      apply (Permutation_in _ (insert_perm _ x l)) in Hz.
      destruct Hz as [<- | Hz]; [exact Hyx | auto].
    + assert (Hxy : Slot.timeObj x <= Slot.timeObj y).
      { unfold compare in E.
        destruct (Z.compare_spec (Slot.timeObj x) (Slot.timeObj y)); simpl in E;
          try discriminate; lia. }
      constructor; [constructor; assumption |].
      constructor; [exact Hxy |].
      rewrite Forall_forall in *. intros z Hz. specialize (Hy z Hz). lia.
Qed.

Lemma fullAvailability_chronological (times : list string) (p : PersonResponse.t)
    (timeMap : TimeMap) :
  chronological (fullAvailability times p timeMap).
Proof.
  unfold fullAvailability.
  generalize (map (fun time =>
                     Slot.mk time (timeMap time)
                       match find (fun a => String.eqb (TimeScore.time a) time)
                                  (PersonResponse.availability p) with
                       | Some avail => TimeScore.score avail
                       | None => 0
                       end) times).
  intros l. induction l as [| x l IH]; simpl; [constructor |].
  now apply insert_chronological.
Qed.

Lemma fullAvailability_timeObj (times : list string) (p : PersonResponse.t)
    (timeMap : TimeMap) :
  Permutation (map Slot.timeObj (fullAvailability times p timeMap)) (map timeMap times).
Proof.
  unfold fullAvailability.
  etransitivity; [apply Permutation_map, sort_perm |].
  rewrite map_map. simpl. reflexivity.
Qed.

Lemma mapi_from_map {A B : Type} (f : A -> nat -> B) (g : A -> B) (l : list A) :
  forall (i : nat) (whole : list A),
    (forall j a, nth_error l j = Some a -> nth_error whole (i + j) = Some a) ->
    (forall j a, nth_error whole j = Some a -> f a j = g a) ->
    mapi_from f i l = map g l.
Proof.
  induction l as [| a l IH]; intros i whole Hsub Hfg; simpl; [reflexivity |].
  f_equal.
  - apply Hfg. specialize (Hsub 0%nat a eq_refl). now rewrite Nat.add_0_r in Hsub.
  - apply (IH (S i) whole); [| exact Hfg].
    intros j b Hj. specialize (Hsub (S j) b Hj).
    now rewrite Nat.add_succ_r in Hsub.
Qed.

(** For every person, on labels whose instants differ and lie on one grid
    of timeslots, the aggregation by the bounded scan is the reference
    aggregation. *)
Lemma newAvailability_bounded (times : list string) (p : PersonResponse.t)
    (timeMap : TimeMap) (duration : Z) :
  NoDup (map timeMap times) ->
  (forall t t', In t times -> In t' times -> (TIMESLOT_MINUTES | timeMap t' - timeMap t)) ->
  (TIMESLOT_MINUTES | duration) ->
  newAvailability (fullAvailability times p timeMap) duration
  = newAvailability_reference (fullAvailability times p timeMap) duration.
Proof.
  intros Hnd Hgrid Hd.
  set (fa := fullAvailability times p timeMap).
  assert (Hperm : Permutation (map Slot.timeObj fa) (map timeMap times))
    by apply fullAvailability_timeObj.
  assert (Hin : forall a, In a fa -> exists t, In t times /\ Slot.timeObj a = timeMap t).
  { intros a Ha. apply (in_map Slot.timeObj) in Ha.
    apply (Permutation_in _ Hperm) in Ha. apply in_map_iff in Ha.
    destruct Ha as (t & E & Ht). eauto. }
  unfold newAvailability, newAvailability_reference, mapi.
  apply (mapi_from_map _ _ fa 0 fa); [intros j a Hj; exact Hj |].
  intros idx a Ha. f_equal.
  apply fullScore_chronological; try assumption.
  - apply fullAvailability_chronological.
  - eapply Permutation_NoDup; [symmetry; exact Hperm | exact Hnd].
  - intros x y Hx Hy.
    destruct (Hin x Hx) as (t & Ht & ->). destruct (Hin y Hy) as (t' & Ht' & ->).
    now apply Hgrid.
Qed.

(** ** Ranked robin between a pair *)

(** What the entry [e] of [a] adds to the tally against [b]. *)
Lemma calculateRankedWinsBetweenPair_sum (a b : list NameScore.t) :
  calculateRankedWinsBetweenPair a b
  = sumOf (fun e =>
             match find (fun p => String.eqb (NameScore.name p) (NameScore.name e)) b with
             | None => 1
             | Some be => if NameScore.score be <? NameScore.score e then 1 else 0
             end) a.
Proof.
  unfold calculateRankedWinsBetweenPair, sumOf.
  set (z0 := 0) at 1 3. clearbody z0. revert z0.
  induction a as [| e a IH]; intros z; simpl; [reflexivity |].
  rewrite <- IH. f_equal.
  destruct (find _ b) as [be |]; [| reflexivity].
  destruct (NameScore.score be <? NameScore.score e); lia.
Qed.

Lemma calculateRankedWinsBetweenPair_nonneg (a b : list NameScore.t) :
  0 <= calculateRankedWinsBetweenPair a b.
Proof.
  rewrite calculateRankedWinsBetweenPair_sum. unfold sumOf.
  assert (H : forall z, 0 <= z ->
            0 <= fold_left
                   (fun sum cur =>
                      sum + match find (fun p => String.eqb (NameScore.name p)
                                                            (NameScore.name cur)) b with
                            | None => 1
                            | Some be =>
                                if NameScore.score be <? NameScore.score cur then 1 else 0
                            end) a z).
  { induction a as [| e a IH]; intros z Hz; simpl; [assumption |].
    apply IH. destruct (find _ b) as [be |]; [| lia].
    destruct (NameScore.score be <? NameScore.score e); lia. }
  apply H. lia.
Qed.

Lemma calculateAvailability_In (dates : list string) (people : list PersonResponse.t)
    (A : Availability.t) :
  In A (calculateAvailability dates people) ->
  Availability.people A = flat_map (collatedEntry (Availability.date A)) people.
Proof.
  unfold calculateAvailability. destruct people as [| p0 people]; [contradiction |].
  intros Hin. apply in_map_iff in Hin. destruct Hin as (d & <- & _). reflexivity.
Qed.

Lemma collated_names (date : string) (people : list PersonResponse.t) (e : NameScore.t) :
  In e (flat_map (collatedEntry date) people) ->
  In (NameScore.name e) (map PersonResponse.name people).
Proof.
  intros Hin. apply in_flat_map in Hin. destruct Hin as (p & Hp & He).
  unfold collatedEntry in He.
  destruct (0 <? getScoreForTime date (PersonResponse.availability p)); [| contradiction].
  destruct He as [<- | []]. simpl. now apply in_map.
Qed.

(** With names that tell people apart, [find] by name in a collated list gets
    the person's own entry. *)
Lemma find_collated (date : string) (people : list PersonResponse.t)
    (p : PersonResponse.t) :
  NoDup (map PersonResponse.name people) -> In p people ->
  find (fun e => String.eqb (NameScore.name e) (PersonResponse.name p))
       (flat_map (collatedEntry date) people)
  = hd_error (collatedEntry date p).
Proof.
  induction people as [| p0 people IH]; intros Hnd Hin; [contradiction |].
  simpl in Hnd. inversion Hnd as [| ? ? Hnotin Hnd']; subst.
  simpl. destruct Hin as [-> | Hin].
  - unfold collatedEntry at 1 3.
    destruct (0 <? getScoreForTime date (PersonResponse.availability p)); simpl.
    + now rewrite String.eqb_refl.
    + destruct (find _ _) as [e |] eqn:E; [| reflexivity].
      apply find_some in E. destruct E as [He Hname].
      apply String.eqb_eq in Hname. apply collated_names in He.
      rewrite Hname in He. contradiction.
  - assert (Hne : PersonResponse.name p0 <> PersonResponse.name p).
    { intros E. apply Hnotin. rewrite E. now apply in_map. }
    unfold collatedEntry at 1.
    destruct (0 <? getScoreForTime date (PersonResponse.availability p0)); simpl.
    + apply String.eqb_neq in Hne. rewrite Hne. now apply IH.
    + now apply IH.
Qed.

Lemma sumOf_cons {A : Type} (f : A -> Z) (a : A) (l : list A) :
  sumOf f (a :: l) = f a + sumOf f l.
Proof. apply (sumOf_app f [a] l). Qed.

(** The tally of A over B, person by person. *)
Lemma rankedWins_by_person (dateA dateB : string) (people : list PersonResponse.t) :
  NoDup (map PersonResponse.name people) ->
  (forall p date, In p people -> 0 <= getScoreForTime date (PersonResponse.availability p)) ->
  calculateRankedWinsBetweenPair
    (flat_map (collatedEntry dateA) people) (flat_map (collatedEntry dateB) people)
  = sumOf (fun p => winPoint (getScoreForTime dateA (PersonResponse.availability p))
                             (getScoreForTime dateB (PersonResponse.availability p)))
          people.
Proof.
  intros Hnd Hpos.
  rewrite calculateRankedWinsBetweenPair_sum.
  set (b := flat_map (collatedEntry dateB) people).
  assert (H : forall ps, incl ps people ->
    sumOf (fun e =>
             match find (fun p => String.eqb (NameScore.name p) (NameScore.name e)) b with
             | None => 1
             | Some be => if NameScore.score be <? NameScore.score e then 1 else 0
             end) (flat_map (collatedEntry dateA) ps)
    = sumOf (fun p => winPoint (getScoreForTime dateA (PersonResponse.availability p))
                               (getScoreForTime dateB (PersonResponse.availability p)))
            ps).
  { induction ps as [| p ps IH]; intros Hincl; [reflexivity |].
    simpl. rewrite sumOf_app, sumOf_cons, IH by (intros x Hx; apply Hincl; now right).
    f_equal.
    assert (Hp : In p people) by (apply Hincl; now left).
    pose proof (Hpos p dateA Hp) as HposA. pose proof (Hpos p dateB Hp) as HposB.
    unfold collatedEntry at 1, winPoint, winsItFor.
    destruct (0 <? getScoreForTime dateA (PersonResponse.availability p)) eqn:EA.
    - rewrite sumOf_cons. unfold sumOf at 1. simpl.
      unfold b. rewrite (find_collated dateB people p Hnd Hp).
      unfold collatedEntry.
      destruct (0 <? getScoreForTime dateB (PersonResponse.availability p)) eqn:EB; simpl.
      + destruct (getScoreForTime dateB (PersonResponse.availability p)
                  <? getScoreForTime dateA (PersonResponse.availability p)) eqn:E;
          simpl; [lia |].
        destruct (getScoreForTime dateB (PersonResponse.availability p) =? 0) eqn:E0;
          simpl; lia.
      + destruct (getScoreForTime dateB (PersonResponse.availability p)
                  <? getScoreForTime dateA (PersonResponse.availability p)) eqn:E;
          simpl; lia.
    - unfold sumOf at 1. simpl.
      destruct (getScoreForTime dateB (PersonResponse.availability p)
                <? getScoreForTime dateA (PersonResponse.availability p)) eqn:E;
        simpl; [lia |].
      destruct (getScoreForTime dateB (PersonResponse.availability p) =? 0) eqn:E0;
        simpl; [| reflexivity].
      destruct (getScoreForTime dateA (PersonResponse.availability p) =? 0) eqn:E1;
        simpl; lia. }
  apply H, incl_refl.
Qed.

Lemma getScoreForTime_nonneg (time : string) (availability : list (TimeScore.t Z)) :
  Forall (fun ts => 0 <= TimeScore.score ts) availability ->
  0 <= getScoreForTime time availability.
Proof.
  intros H. unfold getScoreForTime.
  destruct (find _ availability) as [ts |] eqn:E; [| lia].
  apply find_some in E. rewrite Forall_forall in H. now apply H.
Qed.

(** C7.  In the pairwise tally between two collated candidates A and B, with
    people told apart by their names and scores that are never negative, each
    person adds one win to A exactly when their score for A strictly exceeds
    their score for B, or their score for B is absent/zero while their score
    for A is present and nonzero, and nothing otherwise; likewise for B over
    A; and a person whose score is absent/zero for both adds to neither. *)
Theorem C7_ranked_robin_pair (dates : list string) (people : list PersonResponse.t)
    (A B : Availability.t) :
  NoDup (map PersonResponse.name people) ->
  (forall p, In p people ->
             Forall (fun ts => 0 <= TimeScore.score ts) (PersonResponse.availability p)) ->
  In A (calculateAvailability dates people) ->
  In B (calculateAvailability dates people) ->
  let scoreFor (X : Availability.t) (p : PersonResponse.t) :=
    getScoreForTime (Availability.date X) (PersonResponse.availability p) in
  calculateRankedWinsBetweenPair (Availability.people A) (Availability.people B)
  = sumOf (fun p => winPoint (scoreFor A p) (scoreFor B p)) people /\
  calculateRankedWinsBetweenPair (Availability.people B) (Availability.people A)
  = sumOf (fun p => winPoint (scoreFor B p) (scoreFor A p)) people /\
  (forall p, In p people -> scoreFor A p = 0 -> scoreFor B p = 0 ->
             winPoint (scoreFor A p) (scoreFor B p) = 0 /\
             winPoint (scoreFor B p) (scoreFor A p) = 0).
Proof.
  intros Hnd Hpos HA HB scoreFor.
  rewrite (calculateAvailability_In _ _ _ HA), (calculateAvailability_In _ _ _ HB).
  split; [| split].
  - apply rankedWins_by_person; [assumption |].
    intros p date Hp. apply getScoreForTime_nonneg, Hpos, Hp.
  - apply rankedWins_by_person; [assumption |].
    intros p date Hp. apply getScoreForTime_nonneg, Hpos, Hp.
  - intros p _ EA EB. unfold scoreFor in *. rewrite EA, EB. split; reflexivity.
Qed.

(** ** Overlap Filter *)

Lemma overlapsWindow_spec (timeMap : TimeMap) (duration start : Z) (other : Candidate.t) :
  overlapsWindow timeMap duration start other = true <->
  start < timeMap (Candidate.date other) < start + duration \/
  start < timeMap (Candidate.date other) + duration < start + duration.
Proof.
  unfold overlapsWindow. cbv zeta.
  now rewrite orb_true_iff, !timeInsideRange_spec.
Qed.

Lemma identity_date (c c' : Candidate.t) :
  identity c = identity c' -> Candidate.date c = Candidate.date c'.
Proof. unfold identity. now intros [= -> _ _ _ _]. Qed.

(** C5.  The Overlap Filter leaves up to two candidates as they are.  On more
    than two, with [top] the winner of its full round, it keeps of the
    candidates exactly those whose window start and window end are both not
    strictly inside the window of [top]; a candidate whose window has the
    bounds of that window, or only touches it, is kept, and the top-scoring
    candidate itself is among those kept. *)
Theorem C5_overlap_filter (candidates : list Candidate.t) (duration : Z)
    (timeMap : TimeMap) (out : list Candidate.t) :
  0 <= duration ->
  removeOverlapsWithTopScorer candidates duration timeMap = Ok out ->
  ((length candidates <= 2)%nat -> out = candidates) /\
  ((2 < length candidates)%nat ->
   exists (sorted : list Candidate.t) (r : FullRoundResult.t) (top : Candidate.t),
     calculateFullRound 1 candidates scoringRound = Ok (sorted, r) /\
     hd_error (FullRoundResult.winners r) = Some top /\
     sorted = sortByMetric score candidates /\
     let start := timeMap (Candidate.date top) in
     let end_ := start + duration in
     out = filter (fun other => negb (overlapsWindow timeMap duration start other)) sorted /\
     (forall other,
        In other out <->
        In other candidates /\
        ~ start < timeMap (Candidate.date other) < end_ /\
        ~ start < timeMap (Candidate.date other) + duration < end_) /\
     (forall other,
        In other candidates ->
        timeMap (Candidate.date other) = start \/
        timeMap (Candidate.date other) = end_ \/
        timeMap (Candidate.date other) + duration = start ->
        In other out) /\
     exists c, In c out /\ identity c = identity top).
Proof.
  intros Hd Hrun. unfold removeOverlapsWithTopScorer in Hrun.
  destruct (2 <? Z.of_nat (length candidates)) eqn:E.
  - split; [intros; lia |]. intros _.
    apply bind_Ok in Hrun. destruct Hrun as ([sorted r] & Hround & Hrest).
    destruct (FullRoundResult.winners r) as [| top ws] eqn:Hws; [discriminate |].
    injection Hrest as <-.
    exists sorted, r, top.
    pose proof (calculateFullRound_inv 1 candidates score _ sorted r ltac:(lia) Hround)
      as (_ & Hsorted & _).
    simpl in Hsorted.
    assert (Hkept : forall other,
              In other (filter (fun other =>
                                  negb (overlapsWindow timeMap duration
                                          (timeMap (Candidate.date top)) other)) sorted) <->
              In other candidates /\
              ~ timeMap (Candidate.date top) < timeMap (Candidate.date other)
                < timeMap (Candidate.date top) + duration /\
              ~ timeMap (Candidate.date top) < timeMap (Candidate.date other) + duration
                < timeMap (Candidate.date top) + duration).
    { intros other. rewrite filter_In, negb_true_iff, <- not_true_iff_false,
        overlapsWindow_spec, Hsorted.
      unfold sortByMetric. rewrite sort_In. tauto. }
    split; [exact Hround |]. split; [now rewrite Hws |]. split; [exact Hsorted |].
    cbv zeta. split; [reflexivity |]. split; [exact Hkept |].
    split.
    + intros other Hin Hb. apply Hkept. split; [exact Hin |]. lia.
    + destruct (calculateFullRound_identity _ _ _ _ _ Hround) as [_ Hwin].
      rewrite Hws in Hwin. inversion Hwin as [| ? ? Htop _]; subst.
      apply in_map_iff in Htop. destruct Htop as (c & Hc & Hin).
      exists c. split; [| exact Hc].
      apply Hkept. split; [exact Hin |].
      rewrite (identity_date _ _ Hc). lia.
  - injection Hrun as <-. split; [reflexivity |]. intros; lia.
Qed.

(** ** Result Selector: the finalists and the preference fraction *)

(** After its first mini round a full round without further ranked-robin
    rounds only picks winners out of the array that mini round sorted. *)
Lemma fullRoundLoop_first (numWinners : Z) (roundType : miniRoundType)
    (miniRounds : list miniRoundType) (candidates : list Candidate.t)
    (rounds : list MiniRoundResult.t) (winners sorted : list Candidate.t)
    (rounds' : list MiniRoundResult.t) (winners' : list Candidate.t) :
  ~ In rankedRobin miniRounds ->
  fullRoundLoop numWinners (roundType :: miniRounds) candidates rounds winners
  = Ok (sorted, (rounds', winners')) ->
  sorted = sortByMetric roundType (roundPool roundType candidates) /\
  Forall (fun c => In c winners \/ In c sorted) winners'.
Proof.
  intros Hnr Hrun. simpl in Hrun.
  apply bind_Ok in Hrun. destruct Hrun as ([s r] & Hmini & Hrest).
  apply calculateMiniRound_inv in Hmini. destruct Hmini as (_ & Hs & c & _ & Hr).
  set (P := fun c => In c winners \/ In c s).
  assert (HPs : Forall P s) by (apply Forall_forall; intros; now right).
  assert (HPw : Forall P (winners ++ MiniRoundResult.winners r)).
  { apply Forall_app. split; [apply Forall_forall; intros; now left |].
    rewrite Hr. eapply incl_Forall; [apply miniRoundResultOf_winners_incl | exact HPs]. }
  destruct (Z.of_nat (length (winners ++ MiniRoundResult.winners r)) =? numWinners).
  - injection Hrest as <- <- <-. now split.
  - apply bind_Ok in Hrest. destruct Hrest as ([s' [rs' ws']] & Hloop & Hret).
    injection Hret as <- <- <-. split; [exact Hs |].
    eapply (fullRoundLoop_members P); [| | exact HPw | exact Hloop].
    + intros rt cs Hin Hcs. destruct rt; simpl; try assumption. contradiction.
    + rewrite Hr. eapply incl_Forall; [apply miniRoundResultOf_tied_incl | exact HPs].
Qed.

(** The runoff between two candidates: the array it leaves holds the two
    with their tallies against each other, and its winners are among them. *)
Lemma runoff_pair (x y : Candidate.t) (sorted : list Candidate.t) (r : FullRoundResult.t) :
  calculateFullRound 1 [x; y] runoffRoundTypes = Ok (sorted, r) ->
  let x' := Candidate.setRankedWins x
              (calculateRankedWinsBetweenPair (Candidate.people x) (Candidate.people y)) in
  let y' := Candidate.setRankedWins y
              (calculateRankedWinsBetweenPair (Candidate.people y) (Candidate.people x)) in
  (forall c, In c sorted <-> c = x' \/ c = y') /\
  Forall (fun c => In c sorted) (FullRoundResult.winners r).
Proof.
  intros H x' y'. unfold calculateFullRound in H.
  apply bind_Ok in H. destruct H as ([s [rs ws]] & Hloop & Hret).
  injection Hret as <- <-. simpl.
  apply fullRoundLoop_first in Hloop.
  2:{ simpl. intros [? | [? | [? | []]]]; discriminate. }
  destruct Hloop as [Hs Hws]. split.
  - intros c. rewrite Hs. unfold sortByMetric. rewrite sort_In.
    change (roundPool rankedRobin [x; y]) with [x'; y']. simpl. intuition congruence.
  - eapply Forall_impl; [| exact Hws]. simpl. tauto.
Qed.

Lemma fractionOf_range (w s : Z) :
  0 <= w -> 0 <= s ->
  (0 <= fractionOf w s)%Q /\ (fractionOf w s <= 1)%Q /\
  (w = 0 -> s = 0 -> fractionOf w s = 0%Q).
Proof.
  intros Hw Hs. unfold fractionOf.
  destruct (w + s =? 0) eqn:E.
  - repeat split; discriminate.
  - apply Z.eqb_neq in E.
    assert (Ht : (0 < inject_Z (w + s))%Q).
    { rewrite <- (Zlt_Qlt 0). lia. }
    split; [| split].
    + apply Qle_shift_div_l; [exact Ht |].
      rewrite Qmult_0_l. rewrite <- (Zle_Qle 0). exact Hw.
    + apply Qle_shift_div_r; [exact Ht |].
      rewrite Qmult_1_l. rewrite <- Zle_Qle. lia.
    + intros -> ->. simpl in E. contradiction.
Qed.

(** C8.  Whenever a best time and a next best are both returned, they are two
    of the candidates (the finalists [W] and [S]); the preferred fraction
    returned is the tally of [W] over [S] divided by the sum of the tallies
    of [W] over [S] and of [S] over [W], both taken in the matchup of just
    these two; it lies between 0 and 1, and it is 0 when both tallies are
    zero. *)
Theorem C8_preferred_fraction (candidates : list Candidate.t) (duration : Z)
    (res : StarResults.t) (next : TimeScore.t jsnum) :
  calculateStarBest candidates duration = Ok res ->
  StarResults.nextBest res = Some next ->
  exists (W S : Candidate.t),
    In (identity W) (map identity candidates) /\
    In (identity S) (map identity candidates) /\
    Candidate.date W <> Candidate.date S /\
    StarResults.bestTime res
    = Some (TimeScore.mk (Candidate.date W)
              (jsdiv (inject_Z (Candidate.score W)) (numTimeslots duration))) /\
    StarResults.nextBest res
    = Some (TimeScore.mk (Candidate.date S)
              (jsdiv (inject_Z (Candidate.score S)) (numTimeslots duration))) /\
    let winnerWins :=
      calculateRankedWinsBetweenPair (Candidate.people W) (Candidate.people S) in
    let secondWins :=
      calculateRankedWinsBetweenPair (Candidate.people S) (Candidate.people W) in
    StarResults.preferredFraction res = Some (fractionOf winnerWins secondWins) /\
    (0 <= fractionOf winnerWins secondWins)%Q /\
    (fractionOf winnerWins secondWins <= 1)%Q /\
    (winnerWins = 0 -> secondWins = 0 -> fractionOf winnerWins secondWins = 0%Q).
Proof.
  intros Hrun Hnext. unfold calculateStarBest in Hrun.
  destruct candidates as [| c1 [| c2 rest]].
  { injection Hrun as <-. discriminate. }
  { injection Hrun as <-. discriminate. }
  set (candidates := c1 :: c2 :: rest) in *.
  apply bind_Ok in Hrun. destruct Hrun as ([sorted0 scoreRound] & Hscore & Hrun).
  apply bind_Ok in Hrun. destruct Hrun as ([finalists runoffRound] & Hrunoff & Hrun).
  (* the scoring round hands exactly two candidates to the runoff *)
  pose proof (calculateFullRound_inv 2 candidates score _ _ _ ltac:(lia) Hscore)
    as (_ & _ & Hle).
  pose proof (calculateFullRound_inv 1 _ rankedRobin _ _ _ ltac:(lia) Hrunoff)
    as (Hgt & _ & _).
  destruct (calculateFullRound_identity _ _ _ _ _ Hscore) as [_ Hid].
  destruct (FullRoundResult.winners scoreRound) as [| x [| y [| z ws]]];
    simpl in Hle, Hgt; try lia.
  inversion Hid as [| ? ? Hx Hid']; subst. inversion Hid' as [| ? ? Hy _]; subst.
  apply runoff_pair in Hrunoff. cbv zeta in Hrunoff.
  destruct Hrunoff as [Hfinalists Hwinners].
  destruct (FullRoundResult.winners runoffRound) as [| winner ws]; [discriminate |].
  inversion Hwinners as [| ? ? Hwinner _]; subst.
  destruct (find _ finalists) as [second |] eqn:Hfind.
  2:{ apply bind_Ok in Hrun. destruct Hrun as (? & _ & ?). discriminate. }
  apply find_some in Hfind. destruct Hfind as [Hsecond Hdate].
  apply negb_true_iff, String.eqb_neq in Hdate.
  apply Hfinalists in Hwinner, Hsecond.
  assert (Hcases :
            (winner = Candidate.setRankedWins x
                        (calculateRankedWinsBetweenPair (Candidate.people x)
                                                        (Candidate.people y)) /\
             second = Candidate.setRankedWins y
                        (calculateRankedWinsBetweenPair (Candidate.people y)
                                                        (Candidate.people x)) /\
             In (identity winner) (map identity candidates) /\
             In (identity second) (map identity candidates)) \/
            (winner = Candidate.setRankedWins y
                        (calculateRankedWinsBetweenPair (Candidate.people y)
                                                        (Candidate.people x)) /\
             second = Candidate.setRankedWins x
                        (calculateRankedWinsBetweenPair (Candidate.people x)
                                                        (Candidate.people y)) /\
             In (identity winner) (map identity candidates) /\
             In (identity second) (map identity candidates))).
  { destruct Hwinner as [-> | ->]; destruct Hsecond as [-> | ->];
      try (exfalso; apply Hdate; reflexivity); [left | right]; repeat split; assumption. }
  exists winner, second.
  destruct Hcases as [(-> & -> & Hw & Hs) | (-> & -> & Hw & Hs)]; simpl in Hrun;
    injection Hrun as <-; simpl;
    (split; [exact Hw |]); (split; [exact Hs |]);
    (split; [intros E; apply Hdate; simpl; congruence |]);
    (split; [reflexivity |]); (split; [reflexivity |]);
    (split; [reflexivity |]);
    apply fractionOf_range; apply calculateRankedWinsBetweenPair_nonneg.
Qed.

(** ** Rounds that end in the random tiebreak find all their winners *)

Lemma NoDup_app_disjoint {A : Type} (l l' : list A) :
  NoDup (l ++ l') -> forall a, In a l -> ~ In a l'.
Proof.
  induction l as [| x l IH]; intros Hnd a Ha; [contradiction |].
  simpl in Hnd. inversion Hnd as [| ? ? Hx Hnd']; subst.
  destruct Ha as [<- | Ha].
  - intros Hin. apply Hx, in_or_app. now right.
  - now apply IH.
Qed.

Lemma filter_key_NoDup {A : Type} (key : A -> Z) (v : Z) (l : list A) :
  NoDup (map key l) ->
  let level := filter (fun w => key w =? v) l in (length level <= 1)%nat.
Proof.
  induction l as [| x l IH]; intros Hnd; simpl; [lia |].
  inversion Hnd as [| ? ? Hx Hnd']; subst.
  destruct (key x =? v) eqn:E; [| now apply IH].
  apply Z.eqb_eq in E. simpl.
  rewrite filter_none; [simpl; lia |].
  intros y Hy. apply Z.eqb_neq. intros E'. apply Hx.
  rewrite E, <- E'. now apply in_map.
Qed.

Lemma filter_split_NoDup {A B : Type} (f : A -> B) (p1 p2 : A -> bool) (l : list A) :
  (forall x, p1 x = true -> p2 x = true -> False) ->
  NoDup (map f l) -> NoDup (map f (filter p1 l ++ filter p2 l)).
Proof.
  intros Hdis. induction l as [| a l IH]; intros Hnd; simpl; [constructor |].
  inversion Hnd as [| ? ? Ha Hnd']; subst. specialize (IH Hnd').
  assert (Hnotin : ~ In (f a) (map f (filter p1 l ++ filter p2 l))).
  { intros Hin. apply Ha. apply in_map_iff in Hin. destruct Hin as (x & <- & Hx).
    apply in_map. apply in_app_or in Hx. destruct Hx as [Hx | Hx];
      apply filter_In in Hx; tauto. }
  destruct (p1 a) eqn:E1; destruct (p2 a) eqn:E2.
  - destruct (Hdis a E1 E2).
  - simpl. now constructor.
  - eapply Permutation_NoDup.
    + apply Permutation_map, Permutation_middle.
    + simpl. now constructor.
  - exact IH.
Qed.

Section Projection.
Context {B : Type} (f : Candidate.t -> B).
Hypothesis f_kept : forall c w, f (Candidate.setRankedWins c w) = f c.

Lemma roundPool_map (roundType : miniRoundType) (candidates : list Candidate.t) :
  map f (roundPool roundType candidates) = map f candidates.
Proof.
  destruct roundType; simpl; try reflexivity.
  pose proof (calculateRankedWins_rewritten candidates) as H.
  induction H as [| c c' cs cs' [w ->] _ IH]; simpl; [reflexivity |].
  now rewrite f_kept, IH.
Qed.

(** Winners found so far and candidates still running stay apart. *)
Lemma calculateMiniRound_NoDup (need : Z) (candidates winners : list Candidate.t)
    (roundType : miniRoundType) (sorted : list Candidate.t) (r : MiniRoundResult.t) :
  NoDup (map f (winners ++ candidates)) ->
  calculateMiniRound need candidates roundType = Ok (sorted, r) ->
  NoDup (map f ((winners ++ MiniRoundResult.winners r) ++ MiniRoundResult.tied r)).
Proof.
  intros Hnd Hrun.
  apply calculateMiniRound_inv in Hrun. destruct Hrun as (_ & Hs & c & _ & ->).
  assert (Hperm : Permutation (map f sorted) (map f candidates)).
  { rewrite Hs. unfold sortByMetric.
    rewrite <- (roundPool_map roundType candidates).
    apply Permutation_map, sort_perm. }
  rewrite map_app in Hnd.
  set (stb := scoringFunc roundType c).
  assert (Hall : NoDup (map f (winners
                                 ++ filter (fun w => stb <? scoringFunc roundType w) sorted
                                 ++ filter (fun w => scoringFunc roundType w =? stb) sorted))).
  { rewrite map_app. apply NoDup_app.
    - eapply NoDup_app_remove_r; exact Hnd.
    - apply filter_split_NoDup; [intros x; lia |].
      eapply Permutation_NoDup; [symmetry; exact Hperm |].
      eapply NoDup_app_remove_l; exact Hnd.
    - intros a Ha Hin. apply (NoDup_app_disjoint _ _ Hnd a Ha).
      eapply Permutation_in; [exact Hperm |].
      apply in_map_iff in Hin. destruct Hin as (x & <- & Hx). apply in_map.
      apply in_app_or in Hx. destruct Hx as [Hx | Hx]; apply filter_In in Hx; tauto. }
  unfold miniRoundResultOf. simpl. fold stb.
  destruct (_ =? need).
  - rewrite app_nil_r. rewrite app_assoc, map_app in Hall.
    eapply NoDup_app_remove_r; exact Hall.
  - now rewrite <- app_assoc.
Qed.
End Projection.

(** With draws that differ, the random mini round finds exactly the winners
    asked for. *)
Lemma calculateMiniRound_random (need : Z) (candidates : list Candidate.t) :
  0 <= need < Z.of_nat (length candidates) ->
  NoDup (map Candidate.randomTieValue candidates) ->
  exists sorted r,
    calculateMiniRound need candidates random = Ok (sorted, r) /\
    Z.of_nat (length (MiniRoundResult.winners r)) = need.
Proof.
  intros Hneed Hnd.
  destruct (calculateMiniRound_Ok need candidates random Hneed) as (c & Hc & Hrun).
  do 2 eexists. split; [exact Hrun |].
  pose proof (descending_counts (scoringFunc random) _ _ _
                (sort_descending (scoringFunc random) _) Hc) as [H1 H2].
  fold (sortByMetric random (roundPool random candidates)) in H1, H2.
  assert (H3 : NoDup (map (scoringFunc random)
                          (sortByMetric random (roundPool random candidates)))).
  { eapply Permutation_NoDup; [| exact Hnd].
    symmetry. apply (Permutation_map Candidate.randomTieValue), sort_perm. }
  apply (filter_key_NoDup (scoringFunc random) (scoringFunc random c)) in H3.
  unfold miniRoundResultOf. cbv zeta in *. simpl MiniRoundResult.winners.
  change (roundPool random candidates) with candidates in *. lia.
Qed.

Lemma fullRoundLoop_complete {B : Type} (f : Candidate.t -> B) (numWinners : Z)
    (miniRounds : list miniRoundType) :
  (forall c w, f (Candidate.setRankedWins c w) = f c) ->
  In random miniRounds ->
  forall (candidates : list Candidate.t) (rounds : list MiniRoundResult.t)
         (winners : list Candidate.t),
    0 < numWinners - Z.of_nat (length winners) < Z.of_nat (length candidates) ->
    NoDup (map Candidate.randomTieValue (winners ++ candidates)) ->
    NoDup (map f (winners ++ candidates)) ->
    exists sorted rounds' winners',
      fullRoundLoop numWinners miniRounds candidates rounds winners
      = Ok (sorted, (rounds', winners')) /\
      Z.of_nat (length winners') = numWinners /\
      NoDup (map f winners').
Proof.
  intros Hf.
  induction miniRounds as [| roundType miniRounds IH];
    intros Hin candidates rounds winners H Hrnd Hnd; [contradiction |].
  simpl.
  destruct (calculateMiniRound_progress
              (numWinners - Z.of_nat (length winners)) candidates roundType)
    as (sorted & r & Hrun & Hle & Hlt); [lia |].
  rewrite Hrun. simpl.
  pose proof (calculateMiniRound_NoDup f Hf _ _ winners _ _ _ Hnd Hrun) as Hnd'.
  pose proof (calculateMiniRound_NoDup Candidate.randomTieValue
                (fun _ _ => eq_refl) _ _ winners _ _ _ Hrnd Hrun) as Hrnd'.
  rewrite length_app, Nat2Z.inj_add.
  destruct (Z.of_nat (length winners) + Z.of_nat (length (MiniRoundResult.winners r))
            =? numWinners) eqn:E.
  - do 3 eexists. split; [reflexivity |].
    rewrite length_app. split; [lia |].
    rewrite map_app in Hnd'. eapply NoDup_app_remove_r; exact Hnd'.
  - apply Z.eqb_neq in E.
    assert (Hin' : In random miniRounds).
    { destruct Hin as [-> | Hin]; [| exact Hin]. exfalso.
      destruct (calculateMiniRound_random
                  (numWinners - Z.of_nat (length winners)) candidates)
        as (s' & r' & Hrun' & Hexact); [lia | |].
      - rewrite map_app in Hrnd. eapply NoDup_app_remove_l; exact Hrnd.
      - rewrite Hrun in Hrun'. injection Hrun' as <- <-. lia. }
    destruct (IH Hin' (MiniRoundResult.tied r) (rounds ++ [r])
                 (winners ++ MiniRoundResult.winners r))
      as (s & rs & ws & Hloop & Hws & Hndws); [| assumption | assumption |].
    { rewrite length_app, Nat2Z.inj_add. lia. }
    rewrite Hloop. simpl. do 3 eexists. split; [reflexivity |]. now split.
Qed.

(** A full round whose last resort is the random tiebreak returns exactly the
    winners asked for when the draws differ, and they differ in whatever
    told the candidates apart. *)
Lemma calculateFullRound_complete {B : Type} (f : Candidate.t -> B) (N : Z)
    (C : list Candidate.t) (miniRounds : list miniRoundType) :
  (forall c w, f (Candidate.setRankedWins c w) = f c) ->
  In random miniRounds ->
  0 < N < Z.of_nat (length C) ->
  NoDup (map Candidate.randomTieValue C) ->
  NoDup (map f C) ->
  exists C' r,
    calculateFullRound N C miniRounds = Ok (C', r) /\
    Z.of_nat (length (FullRoundResult.winners r)) = N /\
    NoDup (map f (FullRoundResult.winners r)).
Proof.
  intros Hf Hin HN Hrnd Hnd.
  destruct (fullRoundLoop_complete f N miniRounds Hf Hin C [] [])
    as (s & rs & ws & Hloop & Hws & Hndws); [simpl; lia | assumption..|].
  unfold calculateFullRound. rewrite Hloop. simpl.
  do 2 eexists. split; [reflexivity |]. now split.
Qed.

(** The Overlap Filter returns when the draws differ. *)
Lemma removeOverlapsWithTopScorer_returns (candidates : list Candidate.t)
    (duration : Z) (timeMap : TimeMap) :
  NoDup (map Candidate.randomTieValue candidates) ->
  exists out, removeOverlapsWithTopScorer candidates duration timeMap = Ok out.
Proof.
  intros Hrnd. unfold removeOverlapsWithTopScorer.
  destruct (2 <? Z.of_nat (length candidates)) eqn:E; [| eauto].
  destruct (calculateFullRound_complete Candidate.randomTieValue 1 candidates scoringRound)
    as (C' & r & Hrun & Hlen & _);
    [reflexivity | simpl; tauto | lia | assumption | assumption |].
  rewrite Hrun. simpl.
  destruct (FullRoundResult.winners r) as [| top ws]; [simpl in Hlen; lia | eauto].
Qed.

(** On three or more candidates with labels and draws that differ, the
    Result Selector returns a best time, a next best and a fraction. *)
Lemma calculateStarBest_returns (candidates : list Candidate.t) (duration : Z) :
  (3 <= length candidates)%nat ->
  NoDup (map Candidate.randomTieValue candidates) ->
  NoDup (map Candidate.date candidates) ->
  exists best next fraction,
    calculateStarBest candidates duration
    = Ok (StarResults.mk (Some best) (Some next) (Some fraction)).
Proof.
  intros Hlen Hrnd Hdate. unfold calculateStarBest.
  destruct candidates as [| c1 [| c2 [| c3 rest]]]; simpl in Hlen; try lia.
  set (candidates := c1 :: c2 :: c3 :: rest) in *.
  destruct (calculateFullRound_complete Candidate.date 2 candidates scoringRound)
    as (C' & scoreRound & Hscore & Hlen2 & Hdate2);
    [reflexivity | simpl; tauto | unfold candidates; simpl; lia | assumption..|].
  destruct (calculateFullRound_complete Candidate.randomTieValue 2 candidates scoringRound)
    as (C'' & scoreRound' & Hscore' & _ & Hrnd2);
    [reflexivity | simpl; tauto | unfold candidates; simpl; lia | assumption..|].
  rewrite Hscore in Hscore'. injection Hscore' as _ <-.
  rewrite Hscore. simpl.
  destruct (FullRoundResult.winners scoreRound) as [| x [| y [| z ws]]];
    simpl in Hlen2; try lia.
  destruct (calculateFullRound_complete Candidate.randomTieValue 1 [x; y] runoffRoundTypes)
    as (finalists & runoffRound & Hrunoff & Hlen1 & _);
    [reflexivity | simpl; tauto | simpl; lia | assumption..|].
  rewrite Hrunoff. simpl.
  pose proof (runoff_pair x y _ _ Hrunoff) as [Hfinalists Hwinners].
  destruct (FullRoundResult.winners runoffRound) as [| winner ws];
    [simpl in Hlen1; lia |].
  inversion Hwinners as [| ? ? Hwinner _]; subst.
  assert (Hxy : Candidate.date x <> Candidate.date y).
  { simpl in Hdate2. inversion Hdate2 as [| ? ? Hx _]; subst.
    intros E. apply Hx. now left. }
  destruct (find _ finalists) as [second |] eqn:Hfind.
  - apply find_some in Hfind. destruct Hfind as [Hsecond _].
    apply Hfinalists in Hwinner, Hsecond.
    destruct Hwinner as [-> | ->]; destruct Hsecond as [-> | ->]; simpl; eauto.
  - exfalso.
    pose proof (find_none _ _ Hfind) as Hnone.
    apply Hfinalists in Hwinner.
    destruct Hwinner as [-> | ->]; simpl in Hnone.
    + specialize (Hnone (Candidate.setRankedWins y
                           (calculateRankedWinsBetweenPair (Candidate.people y)
                                                           (Candidate.people x)))).
      simpl in Hnone. apply String.eqb_neq in Hxy. rewrite String.eqb_sym in Hxy.
      rewrite Hxy in Hnone. simpl in Hnone.
      discriminate Hnone. apply Hfinalists. now right.
    + specialize (Hnone (Candidate.setRankedWins x
                           (calculateRankedWinsBetweenPair (Candidate.people x)
                                                           (Candidate.people y)))).
      simpl in Hnone. apply String.eqb_neq in Hxy.
      rewrite Hxy in Hnone. simpl in Hnone.
      discriminate Hnone. apply Hfinalists. now left.
Qed.

(** ** Result Selector on two candidates, and overlapping finalists *)

(** C3.  With exactly two candidates left, the scoring round asks its first
    mini round for two winners out of two candidates, and the Result Selector
    faults instead of returning a best time and a runner-up: for every pair
    of candidates, and from the top on two timeslots scored by one person. *)
Theorem C3_two_candidates_fault :
  (forall (c1 c2 : Candidate.t) (duration : Z),
     calculateStarBest [c1; c2] duration = Err MiniRoundPrecondition) /\
  (forall (rng : Rng) (now : Z * Z) (eventId : string),
     calculateBestTime rng now twoTimes onePerson 15 eventId exampleTimeMap
     = Err MiniRoundPrecondition).
Proof.
  split; intros; reflexivity.
Qed.

(** C4.  On [morning] and [threePeople] with 30-minute meetings, whatever the
    generator draws, the best time returned is 09:15 and the next best is
    09:00: both are returned, and their windows [09:15, 09:45) and
    [09:00, 09:30) overlap. *)
Theorem C4_finalists_overlap (rng : Rng) (now : Z * Z) (eventId : string) :
  returned (calculateBestTime rng now morning threePeople 30 eventId exampleTimeMap)
  = Ok (StarResults.mk
          (Some (TimeScore.mk "0915-01012024"%string
                   (jsdiv (inject_Z 16) (numTimeslots 30))))
          (Some (TimeScore.mk "0900-01012024"%string
                   (jsdiv (inject_Z 16) (numTimeslots 30))))
          (Some (2 # 3)%Q)) /\
  windowsOverlap 30 (exampleTimeMap "0915-01012024"%string)
                 (exampleTimeMap "0900-01012024"%string) /\
  overlapsWindow exampleTimeMap 30 (exampleTimeMap "0900-01012024"%string)
    (Candidate.mk "0915-01012024" [] 16 None 0 0) = true.
Proof.
  split; [vm_compute; reflexivity |].
  split; [unfold windowsOverlap; vm_compute; split; reflexivity | reflexivity].
Qed.

(** ** Determinism and the short results *)

Lemma simpleMetrics_draws (rng : Rng) (duration : Z) (times : list Availability.t) :
  forall g : rng_state rng,
    map snd (simpleMetrics rng g duration times) = draws rng g (length times).
Proof.
  induction times as [| t times IH]; intros g; simpl; [reflexivity |].
  now rewrite IH.
Qed.

Lemma simpleMetrics_length (rng : Rng) (duration : Z) (times : list Availability.t) :
  forall g : rng_state rng,
    length (simpleMetrics rng g duration times) = length times.
Proof.
  induction times as [| t times IH]; intros g; simpl; [reflexivity |].
  now rewrite IH.
Qed.

Lemma randomTieValues_draws (rng : Rng) (times : list Availability.t) (duration : Z)
    (eventId : string) :
  map Candidate.randomTieValue (calculateSimpleCandidateMetrics rng times duration eventId)
  = draws rng (seedrandom rng eventId) (length times).
Proof.
  unfold calculateSimpleCandidateMetrics.
  rewrite <- (simpleMetrics_draws rng duration times).
  generalize (simpleMetrics_length rng duration times (seedrandom rng eventId)).
  generalize (simpleMetrics rng (seedrandom rng eventId) duration times).
  intros ms. revert times.
  induction ms as [| [[s f] r] ms IH]; intros [| t times] Hlen; try discriminate;
    simpl; [reflexivity |].
  f_equal. apply IH. now injection Hlen.
Qed.

(** C9.  The value (or fault) a call of [calculateBestTime] returns is a
    function of its arguments: the readings of the clock do not enter it, so
    two calls on the same times, people, duration and event identifier return
    the same.  The [randomTieValue]s of the candidates are the first draws of
    the generator seeded with the event identifier, one per candidate in
    index order, whatever the people, their scores and the duration. *)
Theorem C9_deterministic (rng : Rng) :
  (forall (now now' : Z * Z) (times : list string) (people : list PersonResponse.t)
          (duration : Z) (eventId : string) (timeMap : TimeMap),
     returned (calculateBestTime rng now times people duration eventId timeMap)
     = returned (calculateBestTime rng now' times people duration eventId timeMap)) /\
  (forall (times : list Availability.t) (duration : Z) (eventId : string),
     map Candidate.randomTieValue
         (calculateSimpleCandidateMetrics rng times duration eventId)
     = draws rng (seedrandom rng eventId) (length times)) /\
  (forall (times : list string) (p : PersonResponse.t) (people : list PersonResponse.t)
          (duration : Z) (eventId : string) (timeMap : TimeMap),
     map Candidate.randomTieValue
         (calculateSimpleCandidateMetrics rng
            (calculateAvailability times
               (replaceScoresWithFullScores times (p :: people) duration timeMap))
            duration eventId)
     = draws rng (seedrandom rng eventId) (length times)).
Proof.
  split; [| split].
  - intros. unfold calculateBestTime.
    destruct people as [| p people]; [reflexivity |].
    destruct (removeOverlapsWithTopScorer _ duration timeMap) as [cs | e];
      [| reflexivity].
    simpl. destruct (calculateStarBest cs duration); reflexivity.
  - apply randomTieValues_draws.
  - intros. rewrite randomTieValues_draws. simpl. now rewrite length_map.
Qed.

(** C10.  With no people the result is all undefined (and nothing is
    logged); with no candidate left the result is all undefined; with exactly
    one candidate left the best time is that candidate with its score divided
    by the number of timeslots, and the next best and the preferred fraction
    are undefined; and with people, a call returns what the Result Selector
    returns on the candidates the Overlap Filter leaves. *)
Theorem C10_short_results :
  (forall (rng : Rng) (now : Z * Z) (times : list string) (duration : Z)
          (eventId : string) (timeMap : TimeMap),
     calculateBestTime rng now times [] duration eventId timeMap
     = Ok (Completed.mk (StarResults.mk None None None) None)) /\
  (forall duration : Z,
     calculateStarBest [] duration = Ok (StarResults.mk None None None)) /\
  (forall (c : Candidate.t) (duration : Z),
     calculateStarBest [c] duration
     = Ok (StarResults.mk
             (Some (TimeScore.mk (Candidate.date c)
                      (jsdiv (inject_Z (Candidate.score c))
                             (inject_Z duration / inject_Z TIMESLOT_MINUTES)%Q)))
             None None)) /\
  (forall (rng : Rng) (now : Z * Z) (times : list string) (p : PersonResponse.t)
          (people : list PersonResponse.t) (duration : Z) (eventId : string)
          (timeMap : TimeMap),
     returned (calculateBestTime rng now times (p :: people) duration eventId timeMap)
     = (left <-
          removeOverlapsWithTopScorer
            (calculateSimpleCandidateMetrics rng
               (calculateAvailability times
                  (replaceScoresWithFullScores times (p :: people) duration timeMap))
               duration eventId)
            duration timeMap ;;
        calculateStarBest left duration)).
Proof.
  repeat split.
  intros. unfold calculateBestTime.
  destruct (removeOverlapsWithTopScorer _ duration timeMap) as [cs | e]; [| reflexivity].
  simpl. destruct (calculateStarBest cs duration); reflexivity.
Qed.

(** ** The properties at the concrete inputs *)

(** The witness of C5: of [threeCandidates] the second scores highest and
    the first overlaps it. *)
Lemma C5_overlap_filter_witness :
  0 <= 30 /\
  removeOverlapsWithTopScorer threeCandidates 30 exampleTimeMap = Ok threeCandidatesKept /\
  exists c, In c threeCandidatesKept /\ Candidate.date c = "0915-01012024"%string.
Proof.
  split; [lia |]. split; [reflexivity |].
  destruct (C5_overlap_filter threeCandidates 30 exampleTimeMap threeCandidatesKept
              ltac:(lia) eq_refl) as [_ H].
  destruct (H ltac:(simpl; lia))
    as (sorted & r & top & Hround & Hhd & _ & _ & _ & _ & c & Hc & Hid).
  vm_compute in Hround. injection Hround as <- <-.
  simpl in Hhd. injection Hhd as <-.
  exists c. split; [exact Hc | exact (identity_date _ _ Hid)].
Defined.

(** The witness of C6: the second of [fourSlots] and 30 minutes. *)
Lemma C6_bounded_lookahead_witness :
  chronological fourSlots /\
  NoDup (map Slot.timeObj fourSlots) /\
  onSlotGrid fourSlots /\
  (TIMESLOT_MINUTES | 30) /\
  nth_error fourSlots 1 = Some (Slot.mk "0915-01012024" 555 0) /\
  fullScore fourSlots 30 (Slot.mk "0915-01012024" 555 0) 1
  = fullScore_reference fourSlots 30 (Slot.mk "0915-01012024" 555 0).
Proof.
  assert (H1 : chronological fourSlots).
  { unfold chronological, fourSlots. repeat constructor; simpl; lia. }
  assert (H2 : NoDup (map Slot.timeObj fourSlots)).
  { simpl. repeat constructor; simpl; intuition discriminate. }
  assert (H3 : onSlotGrid fourSlots).
  { intros a b Ha Hb. simpl in Ha, Hb.
    repeat (destruct Ha as [<- | Ha]; [| ]); try contradiction;
      repeat (destruct Hb as [<- | Hb]; [| ]); try contradiction;
      apply Z.mod_divide; try discriminate; reflexivity. }
  assert (H4 : (TIMESLOT_MINUTES | 30)) by (exists 2; reflexivity).
  split; [exact H1 |]. split; [exact H2 |]. split; [exact H3 |]. split; [exact H4 |].
  split; [reflexivity |].
  apply (C6_bounded_lookahead fourSlots 30 1 (Slot.mk "0915-01012024" 555 0)
           H1 H2 H3 H4 eq_refl).
Defined.

(** The witness of C7: Ada prefers the first date, Bob only scored the
    second; each date wins one matchup. *)
Lemma C7_ranked_robin_pair_witness :
  NoDup (map PersonResponse.name twoPeople) /\
  In collatedFirst (calculateAvailability twoTimes twoPeople) /\
  In collatedSecond (calculateAvailability twoTimes twoPeople) /\
  calculateRankedWinsBetweenPair (Availability.people collatedFirst)
                                 (Availability.people collatedSecond) = 1 /\
  calculateRankedWinsBetweenPair (Availability.people collatedSecond)
                                 (Availability.people collatedFirst) = 1.
Proof.
  assert (H1 : NoDup (map PersonResponse.name twoPeople)).
  { simpl. repeat constructor; simpl; intuition discriminate. }
  assert (H2 : forall p, In p twoPeople ->
                         Forall (fun ts => 0 <= TimeScore.score ts)
                                (PersonResponse.availability p)).
  { intros p [<- | [<- | []]]; simpl; repeat constructor; simpl; lia. }
  assert (H3 : In collatedFirst (calculateAvailability twoTimes twoPeople))
    by (left; reflexivity).
  assert (H4 : In collatedSecond (calculateAvailability twoTimes twoPeople))
    by (right; left; reflexivity).
  destruct (C7_ranked_robin_pair twoTimes twoPeople collatedFirst collatedSecond
              H1 H2 H3 H4) as (E1 & E2 & _).
  split; [exact H1 |]. split; [exact H3 |]. split; [exact H4 |].
  split; [rewrite E1 | rewrite E2]; reflexivity.
Defined.

(** The witness of C8: on [threeCandidates] the finalists are 09:15 and
    10:00, one win each in their matchup. *)
Lemma C8_preferred_fraction_witness :
  calculateStarBest threeCandidates 30 = Ok threeCandidatesBest /\
  exists W S,
    Candidate.date W <> Candidate.date S /\
    Some (1 # 2)%Q
    = Some (fractionOf
              (calculateRankedWinsBetweenPair (Candidate.people W) (Candidate.people S))
              (calculateRankedWinsBetweenPair (Candidate.people S) (Candidate.people W))).
Proof.
  split; [reflexivity |].
  destruct (C8_preferred_fraction threeCandidates 30 threeCandidatesBest
              (TimeScore.mk "1000-01012024"%string (jsdiv (inject_Z 7) (numTimeslots 30)))
              eq_refl eq_refl)
    as (W & S & _ & _ & Hne & _ & _ & Hf & _).
  exists W, S. split; [exact Hne | exact Hf].
Defined.

(** Four contiguous timeslots all scored 5 by one person, for a meeting of
    60 minutes: the candidate at the first timeslot has score 20, is the only
    one the Overlap Filter leaves, and is the best time with normalized score
    20 / 4; there is no next best. *)
Example one_hour_of_five_stars (rng : Rng) (now : Z * Z) (eventId : string) :
  returned (calculateBestTime rng now fourTimes fiveStarPerson 60 eventId exampleTimeMap)
  = Ok (StarResults.mk
          (Some (TimeScore.mk "0900-01012024"%string
                   (jsdiv (inject_Z 20) (numTimeslots 60))))
          None None) /\
  jsdiv (inject_Z 20) (numTimeslots 60) = Fin (300 # 60).
Proof.
  split; reflexivity.
Qed.

(** Two timeslots of [morning] left by the Overlap Filter out of three: the
    Result Selector faults on them as on any two candidates. *)
Example three_timeslots_half_hour (rng : Rng) (now : Z * Z) (eventId : string) :
  calculateBestTime rng now
    ["0900-01012024"; "0915-01012024"; "0930-01012024"]%string onePerson 30 eventId
    exampleTimeMap
  = Err MiniRoundPrecondition.
Proof.
  reflexivity.
Qed.

(** The bounded scan does need timeslots: entries closer than a timeslot, or
    a duration that is not a number of timeslots, and it misses part of the
    window. *)
Example bounded_scan_off_the_grid :
  fullScore fiveMinuteSlots 15 (Slot.mk "a" 0 1) 0 = 1 /\
  fullScore_reference fiveMinuteSlots 15 (Slot.mk "a" 0 1) = 3.
Proof.
  split; reflexivity.
Qed.

Example bounded_scan_of_a_broken_duration :
  fullScore twoSlots 20 (Slot.mk "0900-01012024" 540 1) 0 = 1 /\
  fullScore_reference twoSlots 20 (Slot.mk "0900-01012024" 540 1) = 2.
Proof.
  split; reflexivity.
Qed.

(** The tally does need names that tell people apart: of two people named
    alike, one only scoring the first date and one only the second, the
    second date gets no win over the first, though its only scorer left the
    first date out. *)
Example tally_of_namesakes :
  calculateAvailability twoTimes namesakes
  = [Availability.mk "0900-01012024" [NameScore.mk "Ada" 5];
     Availability.mk "0915-01012024" [NameScore.mk "Ada" 3]] /\
  calculateRankedWinsBetweenPair [NameScore.mk "Ada" 3] [NameScore.mk "Ada" 5] = 0 /\
  sumOf (fun p => winPoint
                    (getScoreForTime "0915-01012024" (PersonResponse.availability p))
                    (getScoreForTime "0900-01012024" (PersonResponse.availability p)))
        namesakes = 1.
Proof.
  repeat split; reflexivity.
Qed.

(** * Further properties of the code around the tabulation *)

(** ** Scores looked up by time *)

Lemma getScoreForTime_cons (time : string) (a : TimeScore.t Z)
    (availability : list (TimeScore.t Z)) :
  getScoreForTime time (a :: availability)
  = if String.eqb (TimeScore.time a) time then TimeScore.score a
    else getScoreForTime time availability.
Proof.
  unfold getScoreForTime. simpl. now destruct (String.eqb (TimeScore.time a) time).
Qed.

Lemma getScoreForTime_absent (time : string) (availability : list (TimeScore.t Z)) :
  ~ In time (map TimeScore.time availability) -> getScoreForTime time availability = 0.
Proof.
  intros Hnotin. unfold getScoreForTime.
  destruct (find _ availability) as [ts |] eqn:E; [| reflexivity].
  apply find_some in E. destruct E as [Hin Heq]. apply String.eqb_eq in Heq.
  exfalso. apply Hnotin. rewrite <- Heq. now apply in_map.
Qed.

Lemma getScoreForTime_valid (time : string) (availability : list (TimeScore.t Z)) :
  validScores availability -> 0 <= getScoreForTime time availability <= MAXSCORE.
Proof.
  intros H. unfold getScoreForTime.
  destruct (find _ availability) as [ts |] eqn:E; [| unfold MAXSCORE; lia].
  apply find_some in E. unfold validScores in H. rewrite Forall_forall in H.
  now apply H.
Qed.

Lemma dropZeroScores_lookup (availability : list (TimeScore.t Z)) :
  NoDup (map TimeScore.time availability) ->
  Forall (fun ts => 0 <= TimeScore.score ts) availability ->
  (forall time,
     getScoreForTime time (dropZeroScores availability)
     = getScoreForTime time availability) /\
  Forall (fun ts => 0 < TimeScore.score ts) (dropZeroScores availability).
Proof.
  intros Hnd Hpos. split.
  - intros time. induction availability as [| a av IH]; [reflexivity |].
    simpl in Hnd. inversion Hnd as [| ? ? Hnotin Hnd']; subst.
    inversion Hpos as [| ? ? Ha Hpos']; subst.
    specialize (IH Hnd' Hpos').
    unfold dropZeroScores in *. simpl.
    destruct (0 <? TimeScore.score a) eqn:E.
    + rewrite !getScoreForTime_cons. now rewrite IH.
    + rewrite getScoreForTime_cons, IH.
      destruct (String.eqb (TimeScore.time a) time) eqn:Et; [| reflexivity].
      apply String.eqb_eq in Et. subst time.
      rewrite getScoreForTime_absent by assumption. lia.
  - unfold dropZeroScores. apply Forall_forall. intros ts Hin.
    apply filter_In in Hin. destruct Hin as [_ Hin]. lia.
Qed.

(** X1.  Leaving out the zero scores loses nothing: on an availability that
    names no time twice and holds no negative score, every time has the same
    score before and after [dropZeroScores], and what is left holds positive
    scores only. *)
Theorem dropZeroScores_keeps_scores (availability : list (TimeScore.t Z)) :
  NoDup (map TimeScore.time availability) ->
  Forall (fun ts => 0 <= TimeScore.score ts) availability ->
  (forall time,
     getScoreForTime time (dropZeroScores availability)
     = getScoreForTime time availability) /\
  Forall (fun ts => 0 < TimeScore.score ts) (dropZeroScores availability).
Proof.
  intros Hnd Hpos. split.
  - intros time. now apply dropZeroScores_lookup.
  - now apply dropZeroScores_lookup.
Qed.

Lemma dropZeroScores_keeps_scores_witness :
  let availability :=
    [TimeScore.mk "0900-01012024"%string 0; TimeScore.mk "0915-01012024"%string 3] in
  NoDup (map TimeScore.time availability) /\
  Forall (fun ts => 0 <= TimeScore.score ts) availability /\
  getScoreForTime "0900-01012024" (dropZeroScores availability) = 0.
Proof.
  assert (H1 : NoDup (map TimeScore.time
                        [TimeScore.mk "0900-01012024"%string 0;
                         TimeScore.mk "0915-01012024"%string 3])).
  { simpl. repeat constructor; simpl; intuition discriminate. }
  assert (H2 : Forall (fun ts => 0 <= TimeScore.score ts)
                 [TimeScore.mk "0900-01012024"%string 0;
                  TimeScore.mk "0915-01012024"%string 3]).
  { repeat constructor; simpl; lia. }
  split; [exact H1 |]. split; [exact H2 |].
  rewrite (proj1 (dropZeroScores_keeps_scores _ H1 H2)). reflexivity.
Defined.

(** ** The selection controls *)

Lemma getScoreForTime_map (f : string -> Z) (times : list string) (time : string) :
  getScoreForTime time (map (fun t => TimeScore.mk t (f t)) times)
  = if existsb (String.eqb time) times then f time else 0.
Proof.
  induction times as [| t times IH]; [reflexivity |].
  simpl map. rewrite getScoreForTime_cons. simpl.
  rewrite (String.eqb_sym time t).
  destruct (String.eqb t time) eqn:E; simpl; [| exact IH].
  apply String.eqb_eq in E. now subst.
Qed.

(** X2.  Inverting the selection gives every time of the event the score
    [MAXSCORE] minus its score and every other time none; inverting twice
    gives every time of the event its score back. *)
Theorem selectInvert_scores (times : list string) (value : list (TimeScore.t Z))
    (time : string) :
  getScoreForTime time (selectInvert times value)
  = (if existsb (String.eqb time) times
     then MAXSCORE - getScoreForTime time value else 0) /\
  getScoreForTime time (selectInvert times (selectInvert times value))
  = (if existsb (String.eqb time) times then getScoreForTime time value else 0).
Proof.
  unfold selectInvert.
  rewrite (getScoreForTime_map (fun t => MAXSCORE - getScoreForTime t value)).
  split; [reflexivity |].
  rewrite (getScoreForTime_map
             (fun t => MAXSCORE - getScoreForTime t
                                    (map (fun t0 => TimeScore.mk t0
                                                      (MAXSCORE - getScoreForTime t0 value))
                                         times))).
  rewrite (getScoreForTime_map (fun t => MAXSCORE - getScoreForTime t value)).
  destruct (existsb (String.eqb time) times); [lia | reflexivity].
Qed.

Lemma getScoreForTime_app (time : string) (l l' : list (TimeScore.t Z)) :
  getScoreForTime time (l ++ l')
  = if existsb (fun ts => String.eqb (TimeScore.time ts) time) l
    then getScoreForTime time l else getScoreForTime time l'.
Proof.
  induction l as [| a l IH]; [reflexivity |].
  simpl app. rewrite !getScoreForTime_cons. simpl.
  destruct (String.eqb (TimeScore.time a) time); simpl; [reflexivity | exact IH].
Qed.

Lemma getScoreForTime_removed (time : string) (selecting : list string)
    (value : list (TimeScore.t Z)) :
  let selectingRemoved :=
    filter (fun ts => negb (existsb (String.eqb (TimeScore.time ts)) selecting)) value in
  existsb (fun ts => String.eqb (TimeScore.time ts) time) selectingRemoved
  = negb (existsb (String.eqb time) selecting)
    && existsb (fun ts => String.eqb (TimeScore.time ts) time) value /\
  getScoreForTime time selectingRemoved
  = if existsb (String.eqb time) selecting then 0 else getScoreForTime time value.
Proof.
  cbv zeta. induction value as [| a value [IH1 IH2]].
  - simpl. split; [now rewrite andb_false_r | now destruct (existsb _ selecting)].
  - cbn [filter existsb].
    rewrite (getScoreForTime_cons time a value).
    destruct (String.eqb (TimeScore.time a) time) eqn:E.
    + apply String.eqb_eq in E. subst time.
      destruct (existsb (String.eqb (TimeScore.time a)) selecting) eqn:Es;
        cbn [negb andb orb existsb].
      * rewrite IH1, IH2. split; reflexivity.
      * rewrite getScoreForTime_cons, String.eqb_refl. split; reflexivity.
    + destruct (existsb (String.eqb (TimeScore.time a)) selecting) eqn:Es;
        cbn [negb andb orb existsb].
      * split; [exact IH1 | exact IH2].
      * rewrite getScoreForTime_cons, E. cbn [orb]. split; [exact IH1 | exact IH2].
Qed.

(** X3.  Committing a dragged selection: in mode add every selected time gets
    the selected score, in mode remove every selected time gets no score,
    and in both every other time keeps its score; without a mode nothing is
    passed on. *)
Theorem commitSelection_scores (value : list (TimeScore.t Z)) (selecting : list string)
    (selectedScore : Z) :
  (exists added,
     commitSelection value selecting (Some add) selectedScore = Some added /\
     forall time,
       getScoreForTime time added
       = if existsb (String.eqb time) selecting then selectedScore
         else getScoreForTime time value) /\
  (exists removed,
     commitSelection value selecting (Some remove) selectedScore = Some removed /\
     forall time,
       getScoreForTime time removed
       = if existsb (String.eqb time) selecting then 0
         else getScoreForTime time value) /\
  commitSelection value selecting None selectedScore = None.
Proof.
  split; [| split]; [| | reflexivity].
  - eexists. split; [reflexivity |]. intros time.
    rewrite getScoreForTime_app.
    destruct (getScoreForTime_removed time selecting value) as [H1 H2].
    cbv zeta in H1, H2. rewrite H1, H2.
    rewrite (getScoreForTime_map (fun _ => selectedScore)).
    destruct (existsb (String.eqb time) selecting); simpl; [reflexivity |].
    destruct (existsb _ value) eqn:E; [reflexivity |].
    unfold getScoreForTime.
    destruct (find _ value) as [ts |] eqn:Ef; [| reflexivity].
    apply find_some in Ef. destruct Ef as [Hin Heq].
    assert (existsb (fun ts => String.eqb (TimeScore.time ts) time) value = true).
    { apply existsb_exists. eauto. }
    congruence.
  - eexists. split; [reflexivity |]. intros time.
    apply (getScoreForTime_removed time selecting value).
Qed.

(** X4.  The selection controls keep scores valid: from scores between 0 and
    [MAXSCORE] and a selected score between 0 and [MAXSCORE], selecting all,
    inverting, and committing a selection give scores between 0 and
    [MAXSCORE]. *)
Theorem selection_keeps_scores_valid (times : list string) (value : list (TimeScore.t Z))
    (selecting : list string) (mode : option selectionMode) (selectedScore : Z) :
  validScores value ->
  0 <= selectedScore <= MAXSCORE ->
  validScores (selectAll times selectedScore) /\
  validScores (selectInvert times value) /\
  (forall changed,
     commitSelection value selecting mode selectedScore = Some changed ->
     validScores changed).
Proof.
  intros Hv Hs. unfold validScores in *. split; [| split].
  - unfold selectAll. apply Forall_forall. intros ts Hin.
    apply in_map_iff in Hin. destruct Hin as (t & <- & _). exact Hs.
  - unfold selectInvert. apply Forall_forall. intros ts Hin.
    apply in_map_iff in Hin. destruct Hin as (t & <- & _). cbn [TimeScore.score].
    pose proof (getScoreForTime_valid t value Hv). lia.
  - intros changed Hc.
    assert (Hrem : Forall (fun ts => 0 <= TimeScore.score ts <= MAXSCORE)
                     (filter (fun ts => negb (existsb (String.eqb (TimeScore.time ts))
                                                      selecting)) value)).
    { apply Forall_forall. intros ts Hin. apply filter_In in Hin.
      rewrite Forall_forall in Hv. now apply Hv. }
    destruct mode as [[|] |]; simpl in Hc; try discriminate; injection Hc as <-.
    + apply Forall_app. split; [exact Hrem |].
      apply Forall_forall. intros ts Hin.
      apply in_map_iff in Hin. destruct Hin as (t & <- & _). exact Hs.
    + exact Hrem.
Qed.

Lemma selection_keeps_scores_valid_witness :
  validScores [TimeScore.mk "0900-01012024"%string 2] /\
  0 <= 4 <= MAXSCORE /\
  validScores (selectInvert twoTimes [TimeScore.mk "0900-01012024"%string 2]).
Proof.
  assert (H1 : validScores [TimeScore.mk "0900-01012024"%string 2]).
  { repeat constructor; simpl; unfold MAXSCORE; lia. }
  assert (H2 : 0 <= 4 <= MAXSCORE) by (unfold MAXSCORE; lia).
  split; [exact H1 |]. split; [exact H2 |].
  exact (proj1 (proj2 (selection_keeps_scores_valid twoTimes _ [] None 4 H1 H2))).
Defined.

(** ** Time scores on the wire *)

Lemma prefix_underscores (c : Ascii.ascii) (s : string) :
  Ascii.eqb c underscore = false -> prefix "__" (String c s) = false.
Proof.
  intros H. apply Ascii.eqb_neq in H.
  change (prefix "__" (String c s))
    with (if Ascii.ascii_dec underscore c then prefix "_" s else false).
  destruct (Ascii.ascii_dec underscore c) as [E | _]; [| reflexivity].
  exfalso. apply H. now rewrite <- E.
Qed.

Lemma split_noUnderscore (s : string) :
  noUnderscore s = true -> split "__" s = [s].
Proof.
  unfold split. induction s as [| c s IH]; intros H; [reflexivity |].
  simpl in H. apply andb_true_iff in H. destruct H as [Hc Hs].
  apply negb_true_iff in Hc.
  cbn [splitFrom]. rewrite (prefix_underscores c s Hc), (IH Hs). reflexivity.
Qed.

Lemma split_separated (s1 s2 : string) :
  noUnderscore s1 = true -> noUnderscore s2 = true ->
  split "__" (s1 ++ "__" ++ s2)%string = [s1; s2].
Proof.
  intros H1 H2. unfold split. induction s1 as [| c s1 IH].
  - simpl. destruct s2 as [| c2 s2]; [reflexivity |].
    change (splitFrom "__" 0 (String c2 s2)) with (split "__" (String c2 s2)).
    now rewrite (split_noUnderscore _ H2).
  - simpl in H1. apply andb_true_iff in H1. destruct H1 as [Hc Hs].
    apply negb_true_iff in Hc.
    change (String c s1 ++ "__" ++ s2)%string with (String c (s1 ++ "__" ++ s2))%string.
    cbn [splitFrom]. rewrite (prefix_underscores c _ Hc), (IH Hs). reflexivity.
Qed.

(** X5.  Whatever string arrives and whatever [parseInt] makes of it, the
    deserialized score lies between 0 and [MAXSCORE]: it is the parsed score
    when that lies in the range, 0 below it, [MAXSCORE] above it and when
    nothing could be parsed; a person's deserialized availability holds valid
    scores only, under the same name and creation time. *)
Theorem deserialize_clamps (parseInt : string -> option Z) :
  (forall ts : string,
     let scoreStr := nth 1 (split "__" ts) "undefined"%string in
     let d := deserializeTimeScore parseInt ts in
     0 <= TimeScore.score d <= MAXSCORE /\
     TimeScore.time d = nth 0 (split "__" ts) EmptyString /\
     (parseInt scoreStr = None -> TimeScore.score d = MAXSCORE) /\
     (forall n, parseInt scoreStr = Some n ->
                (0 <= n <= MAXSCORE -> TimeScore.score d = n) /\
                (n < 0 -> TimeScore.score d = 0) /\
                (MAXSCORE < n -> TimeScore.score d = MAXSCORE))) /\
  (forall response : APIPersonResponse.t,
     let p := deserializePersonResponse parseInt response in
     validScores (PersonResponse.availability p) /\
     length (PersonResponse.availability p)
     = length (APIPersonResponse.availability response) /\
     PersonResponse.name p = APIPersonResponse.name response /\
     PersonResponse.created_at p = APIPersonResponse.created_at response).
Proof.
  assert (Hone : forall ts : string,
            0 <= TimeScore.score (deserializeTimeScore parseInt ts) <= MAXSCORE).
  { intros ts. unfold deserializeTimeScore, MAXSCORE. cbn [TimeScore.score]. lia. }
  split.
  - intros ts scoreStr d. split; [apply Hone |]. split; [reflexivity |].
    unfold d, deserializeTimeScore. cbn [TimeScore.score]. fold scoreStr.
    split.
    + intros ->. unfold MAXSCORE. lia.
    + intros n ->. unfold MAXSCORE. repeat split; lia.
  - intros response p. unfold p, deserializePersonResponse. simpl.
    repeat split.
    + unfold validScores. apply Forall_forall. intros ts Hin.
      apply in_map_iff in Hin. destruct Hin as (s & <- & _). apply Hone.
    + apply length_map.
Qed.

(** X6.  A time score survives the wire: when neither the time label nor the
    printed score holds an underscore, [parseInt] reads the printed score
    back, and the score lies between 0 and [MAXSCORE], deserializing the
    serialized time score gives the time score. *)
Theorem wire_round_trip (parseInt : string -> option Z) (numberToString : Z -> string)
    (ts : TimeScore.t Z) :
  noUnderscore (TimeScore.time ts) = true ->
  noUnderscore (numberToString (TimeScore.score ts)) = true ->
  parseInt (numberToString (TimeScore.score ts)) = Some (TimeScore.score ts) ->
  0 <= TimeScore.score ts <= MAXSCORE ->
  deserializeTimeScore parseInt (serializeTimeScore numberToString ts) = ts.
Proof.
  intros Ht Hn Hparse Hrange.
  unfold deserializeTimeScore, serializeTimeScore.
  rewrite (split_separated _ _ Ht Hn). cbn [nth]. rewrite Hparse.
  destruct ts as [time s]. cbn [TimeScore.time TimeScore.score] in *.
  f_equal. unfold MAXSCORE in *. lia.
Qed.

Lemma wire_round_trip_witness :
  let ts := TimeScore.mk "0900-01012024"%string 4 in
  noUnderscore (TimeScore.time ts) = true /\
  noUnderscore (digitToString (TimeScore.score ts)) = true /\
  parseDigit (digitToString (TimeScore.score ts)) = Some (TimeScore.score ts) /\
  0 <= TimeScore.score ts <= MAXSCORE /\
  deserializeTimeScore parseDigit (serializeTimeScore digitToString ts) = ts.
Proof.
  assert (H4 : 0 <= 4 <= MAXSCORE) by (unfold MAXSCORE; lia).
  split; [reflexivity |]. split; [reflexivity |]. split; [reflexivity |].
  split; [exact H4 |].
  exact (wire_round_trip parseDigit digitToString
           (TimeScore.mk "0900-01012024"%string 4) eq_refl eq_refl eq_refl H4).
Defined.

(** ** The bounds of the heat map *)

Lemma noteTotal_fold (availabilities : list Availability.t) :
  forall lo hi : Z,
    lo <= hi ->
    exists lo' hi',
      fold_left (fun bounds a => noteTotal bounds (Availability.people a))
                availabilities (Int lo, Int hi)
      = (Int lo', Int hi') /\
      lo' <= lo /\ hi <= hi' /\
      (forall a, In a availabilities ->
                 lo' <= sumOf NameScore.score (Availability.people a) <= hi') /\
      (lo' = lo \/
       exists a, In a availabilities /\
                 sumOf NameScore.score (Availability.people a) = lo') /\
      (hi' = hi \/
       exists a, In a availabilities /\
                 sumOf NameScore.score (Availability.people a) = hi').
Proof.
  induction availabilities as [| a l IH]; intros lo hi Hle.
  - exists lo, hi. simpl. repeat split; try lia; try tauto; contradiction.
  - cbn [fold_left].
    set (total := sumOf NameScore.score (Availability.people a)).
    change (noteTotal (Int lo, Int hi) (Availability.people a))
      with (if total <? lo then Int total else Int lo,
            if hi <? total then Int total else Int hi).
    destruct (IH (if total <? lo then total else lo) (if hi <? total then total else hi))
      as (lo' & hi' & Hfold & Hlo & Hhi & Hall & Hmin & Hmax).
    { destruct (total <? lo) eqn:E1; destruct (hi <? total) eqn:E2; lia. }
    exists lo', hi'. split.
    { rewrite <- Hfold. f_equal.
      destruct (total <? lo); destruct (hi <? total); reflexivity. }
    split; [destruct (total <? lo) eqn:E1; lia |].
    split; [destruct (hi <? total) eqn:E2; lia |].
    split.
    { intros x [<- | Hx]; [| now apply Hall]. fold total.
      destruct (total <? lo) eqn:E1; destruct (hi <? total) eqn:E2; lia. }
    split.
    + destruct Hmin as [E | (x & Hx & Ex)].
      * destruct (total <? lo) eqn:E1; [right | now left].
        exists a. split; [now left | fold total; lia].
      * right. exists x. split; [now right | exact Ex].
    + destruct Hmax as [E | (x & Hx & Ex)].
      * destruct (hi <? total) eqn:E2; [right | now left].
        exists a. split; [now left | fold total; lia].
      * right. exists x. split; [now right | exact Ex].
Qed.

(** X7.  For people and at least one date, [min] and [max] are totals of
    dates, the least and the greatest: every date's total lies between them,
    so the palette index of every date is inside the palette.  Without
    people both are 0 and no date is listed; with people but no date they
    stay the infinities they started from. *)
Theorem calculateAvailabilityInfo_bounds :
  (forall (date : string) (dates : list string) (p : PersonResponse.t)
          (people : list PersonResponse.t),
     let info := calculateAvailabilityInfo (date :: dates) (p :: people) in
     let total := fun a => sumOf NameScore.score (Availability.people a) in
     exists lo hi,
       AvailabilityInfo.min info = Int lo /\
       AvailabilityInfo.max info = Int hi /\
       (exists a, In a (AvailabilityInfo.availabilities info) /\ total a = lo) /\
       (exists a, In a (AvailabilityInfo.availabilities info) /\ total a = hi) /\
       (forall a, In a (AvailabilityInfo.availabilities info) ->
                  lo <= total a <= hi /\
                  0 <= paletteIndex (total a) lo < paletteSize lo hi)) /\
  (forall dates : list string,
     calculateAvailabilityInfo dates [] = AvailabilityInfo.mk [] (Int 0) (Int 0)) /\
  (forall (p : PersonResponse.t) (people : list PersonResponse.t),
     calculateAvailabilityInfo [] (p :: people)
     = AvailabilityInfo.mk [] Infinity NegInfinity).
Proof.
  split; [| split; reflexivity].
  intros date dates p people info total.
  unfold info, calculateAvailabilityInfo.
  set (avs := calculateAvailability (date :: dates) (p :: people)).
  assert (Havs : exists a l, avs = a :: l) by (unfold avs; simpl; eauto).
  destruct Havs as (a & l & ->).
  cbn [fold_left].
  change (noteTotal (Infinity, NegInfinity) (Availability.people a))
    with (Int (total a), Int (total a)).
  destruct (noteTotal_fold l (total a) (total a) ltac:(lia))
    as (lo & hi & Hfold & Hlo & Hhi & Hall & Hmin & Hmax).
  rewrite Hfold. cbn [fst snd AvailabilityInfo.min AvailabilityInfo.max
                                       AvailabilityInfo.availabilities].
  exists lo, hi. split; [reflexivity |]. split; [reflexivity |].
  assert (Hin : forall x, In x (a :: l) -> lo <= total x <= hi).
  { intros x [<- | Hx]; [lia | now apply Hall]. }
  split; [| split].
  - destruct Hmin as [-> | (x & Hx & Ex)]; [exists a | exists x]; split;
      auto; now (left + right).
  - destruct Hmax as [-> | (x & Hx & Ex)]; [exists a | exists x]; split;
      auto; now (left + right).
  - intros x Hx. specialize (Hin x Hx). split; [exact Hin |].
    unfold paletteIndex, paletteSize. lia.
Qed.

(** ** Duration Aggregator: dense arrays and window scores *)

Lemma sumOf_bounds {A : Type} (f : A -> Z) (B : Z) (l : list A) :
  Forall (fun x => 0 <= f x <= B) l ->
  0 <= sumOf f l <= B * Z.of_nat (length l).
Proof.
  induction 1 as [| x l Hx _ IH]; [unfold sumOf; simpl; lia |].
  rewrite sumOf_cons. cbn [length]. lia.
Qed.

Lemma filter_all {A : Type} (p : A -> bool) (l : list A) :
  (forall x, In x l -> p x = true) -> filter p l = l.
Proof.
  induction l as [| a l IH]; intros H; simpl; [reflexivity |].
  rewrite (H a (or_introl eq_refl)). f_equal. apply IH. intros; apply H; now right.
Qed.

Lemma In_firstn {A : Type} (n : nat) (l : list A) (x : A) :
  In x (firstn n l) -> In x l.
Proof.
  intros H. rewrite <- (firstn_skipn n l). apply in_or_app. now left.
Qed.

Lemma In_skipn {A : Type} (n : nat) (l : list A) (x : A) :
  In x (skipn n l) -> In x l.
Proof.
  intros H. rewrite <- (firstn_skipn n l). apply in_or_app. now right.
Qed.

Lemma skipn_nth_error {A : Type} (l : list A) (idx : nat) (a : A) :
  nth_error l idx = Some a -> skipn idx l = a :: skipn (S idx) l.
Proof.
  revert idx. induction l as [| x l IH]; intros [| idx] H; try discriminate.
  - now injection H as ->.
  - simpl in H. apply IH in H. exact H.
Qed.

(** The entries scanned from [idx] for a duration of [k >= 1] timeslots:
    the entry at [idx] and the next ones, [k] in all or up to the end. *)
Lemma slice_scanned (fa : list Slot.t) (k : Z) (idx : nat) (a : Slot.t) :
  1 <= k -> nth_error fa idx = Some a ->
  exists m : nat,
    S m = Nat.min (Z.to_nat k) (length fa - idx) /\
    slice (Z.of_nat idx)
          (toInteger (inject_Z (Z.of_nat idx) + numTimeslots (TIMESLOT_MINUTES * k))%Q) fa
    = a :: firstn m (skipn (S idx) fa).
Proof.
  intros Hk Ha.
  assert (Hidx : (idx < length fa)%nat) by (apply nth_error_Some; congruence).
  rewrite toInteger_sliceEnd. unfold slice, relIndex.
  destruct (Z.of_nat idx <? 0) eqn:E1; [lia |].
  destruct (Z.of_nat idx + k <? 0) eqn:E2; [lia |].
  rewrite (Z.min_l (Z.of_nat idx)) by lia. rewrite Nat2Z.id.
  rewrite (skipn_nth_error _ _ _ Ha).
  set (n := Z.to_nat (Z.min (Z.of_nat idx + k) (Z.of_nat (length fa)) - Z.of_nat idx)).
  destruct n as [| m] eqn:En; [lia |].
  exists m. split; [lia | reflexivity].
Qed.

Lemma timeInsideRange_start (t hi : Z) : timeInsideRange t (t, hi) = false.
Proof.
  apply not_true_iff_false. rewrite timeInsideRange_spec. lia.
Qed.

(** What the scan adds up: the score of the start and the scores of fewer
    than [k] other entries of the array. *)
Lemma fullScore_window (fa : list Slot.t) (k : Z) (idx : nat) (a : Slot.t) :
  1 <= k ->
  nth_error fa idx = Some a ->
  exists inside,
    fullScore fa (TIMESLOT_MINUTES * k) a idx = Slot.score a + sumOf Slot.score inside /\
    incl inside fa /\
    Z.of_nat (length inside) < k.
Proof.
  intros Hk Ha. unfold fullScore. cbv zeta.
  destruct (slice_scanned fa k idx a Hk Ha) as (m & Hm & ->).
  cbn [filter]. rewrite timeInsideRange_start.
  set (inside := filter _ (firstn m (skipn (S idx) fa))).
  exists inside. split; [reflexivity |]. split.
  - intros x Hx. unfold inside in Hx.
    apply filter_In in Hx. destruct Hx as [Hx _].
    apply In_firstn in Hx. now apply In_skipn in Hx.
  - assert (Hlen : (length inside <= m)%nat).
    { unfold inside. etransitivity; [apply filter_length_le |].
      rewrite length_firstn. lia. }
    lia.
Qed.

Lemma fullScore_bounds (fa : list Slot.t) (k : Z) (idx : nat) (a : Slot.t) :
  validSlots fa ->
  1 <= k ->
  nth_error fa idx = Some a ->
  0 <= fullScore fa (TIMESLOT_MINUTES * k) a idx <= MAXSCORE * k.
Proof.
  intros Hvalid Hk Ha.
  destruct (fullScore_window fa k idx a Hk Ha) as (inside & -> & Hincl & Hlen).
  unfold validSlots in Hvalid.
  pose proof (proj1 (Forall_forall _ _) Hvalid a (nth_error_In _ _ Ha)) as Hscore.
  pose proof (sumOf_bounds Slot.score MAXSCORE inside (incl_Forall Hincl Hvalid)) as Hsum.
  unfold MAXSCORE in *. nia.
Qed.

(** X8.  A person's score for a meeting time never leaves the range of its
    timeslots: with slot scores between 0 and [MAXSCORE] and a duration of
    [k >= 1] timeslots, the score computed for the start at any index lies
    between 0 and [MAXSCORE * k], whatever the order and the instants of the
    entries. *)
Theorem fullScore_range (fa : list Slot.t) (k : Z) (idx : nat) (a : Slot.t) :
  validSlots fa ->
  1 <= k ->
  nth_error fa idx = Some a ->
  0 <= fullScore fa (TIMESLOT_MINUTES * k) a idx <= MAXSCORE * k.
Proof.
  intros Hvalid Hk Ha.
  destruct (fullScore_window fa k idx a Hk Ha) as (inside & -> & Hincl & Hlen).
  assert (Hin : Forall (fun x => 0 <= Slot.score x <= MAXSCORE) inside).
  { apply Forall_forall. intros x Hx. unfold validSlots in Hvalid.
    rewrite Forall_forall in Hvalid. apply Hvalid. now apply Hincl. }
  assert (Hscore : 0 <= Slot.score a <= MAXSCORE).
  { unfold validSlots in Hvalid. rewrite Forall_forall in Hvalid.
    apply Hvalid. eapply nth_error_In; exact Ha. }
  pose proof (sumOf_bounds Slot.score MAXSCORE inside Hin) as Hsum.
  unfold MAXSCORE in *. nia.
Qed.

Lemma fullScore_range_witness :
  validSlots fourSlots /\ 1 <= 2 /\
  nth_error fourSlots 2 = Some (Slot.mk "0930-01012024" 570 5) /\
  0 <= fullScore fourSlots (TIMESLOT_MINUTES * 2) (Slot.mk "0930-01012024" 570 5) 2
  <= MAXSCORE * 2.
Proof.
  assert (H1 : validSlots fourSlots).
  { unfold validSlots, fourSlots, MAXSCORE. repeat constructor; simpl; lia. }
  split; [exact H1 |]. split; [lia |]. split; [reflexivity |].
  exact (fullScore_range fourSlots 2 2 _ H1 ltac:(lia) eq_refl).
Defined.

Lemma contiguous_nth (l : list Slot.t) (i : nat) (a : Slot.t) :
  contiguous l -> nth_error l i = Some a ->
  forall (j : nat) (b : Slot.t),
    nth_error l (i + j) = Some b ->
    Slot.timeObj b = Slot.timeObj a + TIMESLOT_MINUTES * Z.of_nat j.
Proof.
  intros Hl Ha. induction j as [| j IH]; intros b Hb.
  - rewrite Nat.add_0_r, Ha in Hb. injection Hb as <-. lia.
  - destruct (nth_error l (i + j)) as [b' |] eqn:Hb'.
    + specialize (IH b' eq_refl).
      rewrite Nat.add_succ_r in Hb.
      rewrite (Hl (i + j)%nat b' b Hb' Hb), IH. lia.
    + apply nth_error_None in Hb'.
      assert (nth_error l (i + S j) = None) by (apply nth_error_None; lia).
      congruence.
Qed.

(** X9.  On contiguous timeslots a person's score for a meeting time is
    the sum of their scores for its timeslots: for a duration of [k >= 1]
    timeslots, the score for the start at index [idx] is the sum of the
    scores of the [k] entries from [idx] on (of those there are, at the end
    of the array). *)
Theorem fullScore_contiguous (fa : list Slot.t) (k : Z) (idx : nat) (a : Slot.t) :
  contiguous fa ->
  1 <= k ->
  nth_error fa idx = Some a ->
  fullScore fa (TIMESLOT_MINUTES * k) a idx
  = sumOf Slot.score (firstn (Z.to_nat k) (skipn idx fa)).
Proof.
  intros Hcont Hk Ha. unfold fullScore. cbv zeta.
  destruct (slice_scanned fa k idx a Hk Ha) as (m & Hm & ->).
  cbn [filter]. rewrite timeInsideRange_start.
  rewrite filter_all.
  - rewrite (skipn_nth_error _ _ _ Ha).
    destruct (Z.to_nat k) as [| k'] eqn:Ek; [lia |].
    cbn [firstn]. rewrite sumOf_cons. f_equal. f_equal.
    destruct (Nat.le_gt_cases (S k') (length fa - idx)) as [Hle | Hgt].
    + f_equal. lia.
    + rewrite (firstn_all2 (n := k')) by (rewrite length_skipn; lia).
      apply firstn_all2. rewrite length_skipn. lia.
  - intros x Hx. apply In_nth_error in Hx. destruct Hx as [j Hj].
    assert (Hjm : (j < m)%nat).
    { rewrite nth_error_firstn in Hj. destruct (j <? m)%nat eqn:E; [| discriminate].
      now apply Nat.ltb_lt. }
    rewrite nth_error_firstn in Hj.
    destruct (j <? m)%nat; [| discriminate].
    rewrite nth_error_skipn in Hj.
    replace (S idx + j)%nat with (idx + S j)%nat in Hj by lia.
    rewrite (contiguous_nth fa idx a Hcont Ha (S j) x Hj).
    apply timeInsideRange_spec. unfold TIMESLOT_MINUTES. lia.
Qed.

Lemma fullScore_contiguous_witness :
  contiguous fourSlots /\ 1 <= 2 /\
  nth_error fourSlots 1 = Some (Slot.mk "0915-01012024" 555 0) /\
  fullScore fourSlots (TIMESLOT_MINUTES * 2) (Slot.mk "0915-01012024" 555 0) 1 = 5.
Proof.
  assert (H1 : contiguous fourSlots).
  { intros i a b Ha Hb.
    destruct i as [| [| [| [| i]]]]; simpl in Ha, Hb;
      try discriminate; try (destruct i; discriminate);
      injection Ha as <-; injection Hb as <-; reflexivity. }
  split; [exact H1 |]. split; [lia |]. split; [reflexivity |].
  rewrite (fullScore_contiguous fourSlots 2 1 _ H1 ltac:(lia) eq_refl). reflexivity.
Defined.

(** X10.  A person's dense array holds one entry per time label, with the
    label's instant and the person's score for the label (0 when they gave
    none), in chronological order. *)
Theorem fullAvailability_dense (times : list string) (p : PersonResponse.t)
    (timeMap : TimeMap) :
  Permutation (fullAvailability times p timeMap) (map (slotOf p timeMap) times) /\
  chronological (fullAvailability times p timeMap) /\
  length (fullAvailability times p timeMap) = length times.
Proof.
  assert (H : Permutation (fullAvailability times p timeMap)
                          (map (slotOf p timeMap) times)).
  { unfold fullAvailability. apply sort_perm. }
  split; [exact H |]. split; [apply fullAvailability_chronological |].
  rewrite (Permutation_length H). apply length_map.
Qed.

(** ** From people to candidates *)

Lemma In_mapi_from {A B : Type} (f : A -> nat -> B) (l : list A) :
  forall (i : nat) (x : B),
    In x (mapi_from f i l) <->
    exists j a, nth_error l j = Some a /\ x = f a (i + j)%nat.
Proof.
  induction l as [| a l IH]; intros i x; simpl.
  - split; [contradiction | intros (j & b & H & _); destruct j; discriminate].
  - rewrite IH. split.
    + intros [<- | (j & b & Hj & ->)].
      * exists 0%nat, a. split; [reflexivity | now rewrite Nat.add_0_r].
      * exists (S j), b. split; [exact Hj | f_equal; lia].
    + intros (j & b & Hj & ->). destruct j as [| j]; simpl in Hj.
      * left. injection Hj as <-. now rewrite Nat.add_0_r.
      * right. exists j, b. split; [exact Hj | f_equal; lia].
Qed.

Lemma newAvailability_In (fa : list Slot.t) (duration : Z) (ts : TimeScore.t Z) :
  In ts (newAvailability fa duration) <->
  exists idx a, nth_error fa idx = Some a /\
                ts = TimeScore.mk (Slot.time a) (fullScore fa duration a idx).
Proof.
  unfold newAvailability, mapi. rewrite In_mapi_from. reflexivity.
Qed.

Lemma mapi_from_times {B : Type} (f : Slot.t -> nat -> B) (time : B -> string)
    (l : list Slot.t) :
  (forall a i, time (f a i) = Slot.time a) ->
  forall i, map time (mapi_from f i l) = map Slot.time l.
Proof.
  intros H. induction l as [| a l IH]; intros i; simpl; [reflexivity |].
  now rewrite H, IH.
Qed.

Lemma newAvailability_times (fa : list Slot.t) (duration : Z) :
  map TimeScore.time (newAvailability fa duration) = map Slot.time fa.
Proof.
  unfold newAvailability, mapi. now apply mapi_from_times.
Qed.

Lemma fullAvailability_times (times : list string) (p : PersonResponse.t)
    (timeMap : TimeMap) :
  Permutation (map Slot.time (fullAvailability times p timeMap)) times.
Proof.
  etransitivity.
  - apply Permutation_map. unfold fullAvailability. apply sort_perm.
  - rewrite map_map. simpl. now rewrite map_id.
Qed.

Lemma fullAvailability_valid (times : list string) (p : PersonResponse.t)
    (timeMap : TimeMap) :
  validScores (PersonResponse.availability p) ->
  validSlots (fullAvailability times p timeMap).
Proof.
  intros Hv. unfold validSlots.
  eapply Permutation_Forall.
  - symmetry. unfold fullAvailability. apply sort_perm.
  - apply Forall_forall. intros a Ha. apply in_map_iff in Ha.
    destruct Ha as (t & <- & _). cbn [Slot.score].
    apply (getScoreForTime_valid t _ Hv).
Qed.

Lemma getScoreForTime_In (availability : list (TimeScore.t Z)) (ts : TimeScore.t Z) :
  NoDup (map TimeScore.time availability) -> In ts availability ->
  getScoreForTime (TimeScore.time ts) availability = TimeScore.score ts.
Proof.
  induction availability as [| a av IH]; intros Hnd Hin; [contradiction |].
  simpl in Hnd. inversion Hnd as [| ? ? Hnotin Hnd']; subst.
  rewrite getScoreForTime_cons. destruct Hin as [-> | Hin].
  - now rewrite String.eqb_refl.
  - destruct (String.eqb (TimeScore.time a) (TimeScore.time ts)) eqn:E;
      [| now apply IH].
    apply String.eqb_eq in E. exfalso. apply Hnotin. rewrite E. now apply in_map.
Qed.

(** The scores of what [replaceScoresWithFullScores] leaves a person. *)
Lemma fullScores_range (times : list string) (p : PersonResponse.t)
    (timeMap : TimeMap) (k : Z) (time : string) :
  validScores (PersonResponse.availability p) -> 1 <= k ->
  0 <= getScoreForTime time
         (dropZeroScores
            (newAvailability (fullAvailability times p timeMap) (TIMESLOT_MINUTES * k)))
    <= MAXSCORE * k.
Proof.
  intros Hv Hk. unfold getScoreForTime.
  destruct (find _ _) as [ts |] eqn:E; [| unfold MAXSCORE; lia].
  apply find_some in E. destruct E as [Hin _].
  apply filter_In in Hin. destruct Hin as [Hin _].
  apply newAvailability_In in Hin. destruct Hin as (idx & a & Ha & ->).
  cbn [TimeScore.score].
  apply fullScore_bounds; [now apply fullAvailability_valid | exact Hk | exact Ha].
Qed.

(** X11.  What a person ends up with for a time label is their window score:
    with time labels that differ, valid scores and a duration of [k >= 1]
    timeslots, the score [replaceScoresWithFullScores] leaves the person for
    a label of the event is the score computed for the start at that label's
    entry of their dense array; the person keeps name and creation time. *)
Theorem replaceScoresWithFullScores_scores (times : list string)
    (people : list PersonResponse.t) (k : Z) (timeMap : TimeMap)
    (i : nat) (p : PersonResponse.t) (time : string) :
  NoDup times ->
  validScores (PersonResponse.availability p) ->
  1 <= k ->
  nth_error people i = Some p ->
  In time times ->
  let duration := TIMESLOT_MINUTES * k in
  let fa := fullAvailability times p timeMap in
  exists p' idx a,
    nth_error (replaceScoresWithFullScores times people duration timeMap) i = Some p' /\
    PersonResponse.name p' = PersonResponse.name p /\
    PersonResponse.created_at p' = PersonResponse.created_at p /\
    nth_error fa idx = Some a /\
    Slot.time a = time /\
    getScoreForTime time (PersonResponse.availability p') = fullScore fa duration a idx.
Proof.
  intros Hnd Hv Hk Hp Hin duration fa.
  assert (Hfa : exists idx a, nth_error fa idx = Some a /\ Slot.time a = time).
  { assert (Ht : In time (map Slot.time fa)).
    { eapply Permutation_in; [symmetry; apply fullAvailability_times | exact Hin]. }
    apply in_map_iff in Ht. destruct Ht as (a & Ea & Ha).
    apply In_nth_error in Ha. destruct Ha as [idx Hidx]. eauto. }
  destruct Hfa as (idx & a & Ha & Et).
  eexists _, idx, a.
  unfold replaceScoresWithFullScores. rewrite nth_error_map, Hp. cbn [option_map].
  split; [reflexivity |]. split; [reflexivity |]. split; [reflexivity |].
  split; [exact Ha |]. split; [exact Et |].
  cbn [PersonResponse.availability]. fold fa. fold duration.
  assert (Hnd' : NoDup (map TimeScore.time (newAvailability fa duration))).
  { rewrite newAvailability_times.
    eapply Permutation_NoDup; [symmetry; apply fullAvailability_times | exact Hnd]. }
  assert (Hpos : Forall (fun ts => 0 <= TimeScore.score ts) (newAvailability fa duration)).
  { apply Forall_forall. intros ts Hts. apply newAvailability_In in Hts.
    destruct Hts as (j & b & Hb & ->). cbn [TimeScore.score].
    apply (fullScore_bounds fa k j b); [now apply fullAvailability_valid | exact Hk | exact Hb]. }
  rewrite (proj1 (dropZeroScores_lookup _ Hnd' Hpos)).
  rewrite <- Et.
  apply (getScoreForTime_In _ (TimeScore.mk (Slot.time a) (fullScore fa duration a idx)) Hnd').
  apply newAvailability_In. eauto.
Qed.

Lemma replaceScoresWithFullScores_scores_witness :
  NoDup twoTimes /\
  validScores (PersonResponse.availability
                 (PersonResponse.mk "Ada"
                    [TimeScore.mk "0900-01012024"%string 5;
                     TimeScore.mk "0915-01012024"%string 2] 0)) /\
  1 <= 2 /\
  In "0900-01012024"%string twoTimes /\
  exists p',
    nth_error (replaceScoresWithFullScores twoTimes twoPeople (TIMESLOT_MINUTES * 2)
                 exampleTimeMap) 0 = Some p' /\
    getScoreForTime "0900-01012024" (PersonResponse.availability p') = 7.
Proof.
  assert (H1 : NoDup twoTimes).
  { unfold twoTimes. repeat constructor; simpl; intuition discriminate. }
  assert (H2 : validScores (PersonResponse.availability
                              (PersonResponse.mk "Ada"
                                 [TimeScore.mk "0900-01012024"%string 5;
                                  TimeScore.mk "0915-01012024"%string 2] 0))).
  { unfold validScores, MAXSCORE. repeat constructor; simpl; lia. }
  assert (H3 : In "0900-01012024"%string twoTimes) by (now left).
  split; [exact H1 |]. split; [exact H2 |]. split; [lia |]. split; [exact H3 |].
  destruct (replaceScoresWithFullScores_scores twoTimes twoPeople 2 exampleTimeMap 0 _
              "0900-01012024" H1 H2 ltac:(lia) eq_refl H3)
    as (p' & idx & a & Hp' & _ & _ & _ & _ & _).
  exists p'. split; [exact Hp' |].
  vm_compute in Hp'. injection Hp' as <-. reflexivity.
Defined.

(** *** The metrics of a candidate *)

Lemma Qlt_bool_iff (x y : Q) : Qlt_bool x y = true <-> (x < y)%Q.
Proof.
  unfold Qlt_bool. rewrite negb_true_iff, <- not_true_iff_false, Qle_bool_iff.
  split; [apply Qnot_le_lt | apply Qlt_not_le].
Qed.

Lemma numTimeslots_whole (k : Z) :
  (numTimeslots (TIMESLOT_MINUTES * k) == inject_Z k)%Q.
Proof.
  unfold numTimeslots, TIMESLOT_MINUTES, Qeq, Qdiv, Qmult, Qinv, inject_Z.
  cbn [Qnum Qden]. cbn -[Z.mul]. lia.
Qed.

Lemma isFiveStars_threshold (k : Z) (p : NameScore.t) :
  1 <= k ->
  isFiveStars (TIMESLOT_MINUTES * k) p = (9 * k <? 2 * NameScore.score p).
Proof.
  intros Hk. unfold isFiveStars, jsdiv, jsgt.
  assert (Hpos : (0 < numTimeslots (TIMESLOT_MINUTES * k))%Q).
  { rewrite numTimeslots_whole. rewrite <- (Zlt_Qlt 0). lia. }
  destruct (Qeq_bool (numTimeslots (TIMESLOT_MINUTES * k)) 0) eqn:E.
  { apply Qeq_bool_iff in E. rewrite E in Hpos. now apply Qlt_irrefl in Hpos. }
  apply eq_true_iff_eq. rewrite Qlt_bool_iff, Z.ltb_lt.
  set (s := NameScore.score p).
  assert (H92 : (inject_Z MAXSCORE - (1 # 2) == 9 # 2)%Q) by reflexivity.
  rewrite H92. split.
  - intros H.
    apply (Qmult_lt_compat_r _ _ _ Hpos) in H.
    rewrite Qmult_comm in H.
    assert (Hdiv : (inject_Z s / numTimeslots (TIMESLOT_MINUTES * k)
                    * numTimeslots (TIMESLOT_MINUTES * k) == inject_Z s)%Q).
    { rewrite Qmult_comm. apply Qmult_div_r.
      intros E0. rewrite E0 in Hpos. now apply Qlt_irrefl in Hpos. }
    rewrite Hdiv, numTimeslots_whole in H.
    unfold Qlt, Qmult, inject_Z in H. cbn [Qnum Qden] in H. lia.
  - intros H. apply Qlt_shift_div_l; [exact Hpos |].
    rewrite numTimeslots_whole.
    unfold Qlt, Qmult, inject_Z. cbn [Qnum Qden]. lia.
Qed.

Lemma simpleMetrics_In (rng : Rng) (duration : Z) (times : list Availability.t)
    (f : Availability.t * (Z * Z * Z) -> Candidate.t) (c : Candidate.t) :
  forall g : rng_state rng,
    In c (map f (combine times (simpleMetrics rng g duration times))) ->
    exists A r,
      In A times /\
      c = f (A, (sumOf NameScore.score (Availability.people A),
                 Z.of_nat (length (filter (isFiveStars duration) (Availability.people A))),
                 r)).
Proof.
  induction times as [| t times IH]; intros g Hin; [contradiction |].
  simpl in Hin. destruct Hin as [<- | Hin].
  - exists t, (fst (draw rng g)). split; [now left | reflexivity].
  - destruct (IH _ Hin) as (A & r & HA & ->). exists A, r. split; [now right | reflexivity].
Qed.

Lemma flat_map_length_le {A B : Type} (g : A -> list B) (l : list A) :
  (forall a, In a l -> (length (g a) <= 1)%nat) ->
  (length (flat_map g l) <= length l)%nat.
Proof.
  induction l as [| a l IH]; intros H; simpl; [lia |].
  rewrite length_app. specialize (H a (or_introl eq_refl)) as Ha.
  specialize (IH (fun x Hx => H x (or_intror Hx))). lia.
Qed.

Lemma collatedEntry_length (date : string) (p : PersonResponse.t) :
  (length (collatedEntry date p) <= 1)%nat.
Proof.
  unfold collatedEntry. destruct (0 <? _); simpl; lia.
Qed.

(** What the Candidate Metrics Calculator is handed and makes of it. *)
Lemma candidate_entries (rng : Rng) (times : list string)
    (people : list PersonResponse.t) (k : Z) (eventId : string) (timeMap : TimeMap)
    (c : Candidate.t) :
  Forall (fun p => validScores (PersonResponse.availability p)) people ->
  1 <= k ->
  In c (calculateSimpleCandidateMetrics rng
          (calculateAvailability times
             (replaceScoresWithFullScores times people (TIMESLOT_MINUTES * k) timeMap))
          (TIMESLOT_MINUTES * k) eventId) ->
  In (Candidate.date c) times /\
  (length (Candidate.people c) <= length people)%nat /\
  Forall (fun e => 0 < NameScore.score e <= MAXSCORE * k) (Candidate.people c) /\
  Candidate.score c = sumOf NameScore.score (Candidate.people c) /\
  Candidate.fiveStars c
  = Z.of_nat (length (filter (isFiveStars (TIMESLOT_MINUTES * k)) (Candidate.people c))) /\
  Candidate.rankedWins c = None.
Proof.
  intros Hv Hk Hc.
  unfold calculateSimpleCandidateMetrics in Hc.
  apply simpleMetrics_In in Hc. destruct Hc as (A & r & HA & ->).
  cbn [Candidate.date Candidate.people Candidate.score Candidate.fiveStars
       Candidate.rankedWins].
  set (duration := TIMESLOT_MINUTES * k) in *.
  set (full := replaceScoresWithFullScores times people duration timeMap) in *.
  assert (Hlen : length full = length people) by apply length_map.
  pose proof (calculateAvailability_In _ _ _ HA) as Hpeople.
  split.
  { unfold calculateAvailability in HA. destruct full; [contradiction |].
    apply in_map_iff in HA. destruct HA as (d & <- & Hd). exact Hd. }
  split.
  { rewrite Hpeople, <- Hlen. apply flat_map_length_le.
    intros; apply collatedEntry_length. }
  split; [| repeat split].
  rewrite Hpeople. apply Forall_forall. intros e He.
  apply in_flat_map in He. destruct He as (p' & Hp' & He).
  unfold collatedEntry in He.
  destruct (0 <? getScoreForTime (Availability.date A) (PersonResponse.availability p'))
    eqn:E; [| contradiction].
  destruct He as [<- | []]. cbn [NameScore.score].
  unfold full, replaceScoresWithFullScores in Hp'.
  apply in_map_iff in Hp'. destruct Hp' as (p & <- & Hp).
  cbn [PersonResponse.availability] in *.
  rewrite Forall_forall in Hv.
  pose proof (fullScores_range times p timeMap k (Availability.date A) (Hv p Hp) Hk).
  fold duration in H. lia.
Qed.

Lemma candidate_score_range (k : Z) (n : nat) (c : Candidate.t) :
  1 <= k ->
  (length (Candidate.people c) <= n)%nat ->
  Forall (fun e => 0 < NameScore.score e <= MAXSCORE * k) (Candidate.people c) ->
  Candidate.score c = sumOf NameScore.score (Candidate.people c) ->
  0 <= Candidate.score c <= MAXSCORE * k * Z.of_nat n.
Proof.
  intros Hk Hlen Hentries ->.
  assert (Hsum : 0 <= sumOf NameScore.score (Candidate.people c)
                 <= MAXSCORE * k * Z.of_nat (length (Candidate.people c))).
  { apply sumOf_bounds. eapply Forall_impl; [| exact Hentries].
    simpl. intros; lia. }
  unfold MAXSCORE in *. nia.
Qed.

(** X12.  The metrics of every candidate stay in range: from people with
    valid scores and a duration of [k >= 1] timeslots, every candidate the
    Candidate Metrics Calculator is handed and makes has a label of the
    event, lists at most one entry per person, each with a score above 0 and
    at most [MAXSCORE * k], has as score the sum of these, between 0 and
    [MAXSCORE * k] times the number of people, counts as five stars exactly
    the entries whose doubled score exceeds [9 * k], and has no ranked wins
    yet. *)
Theorem candidate_metrics_range (rng : Rng) (times : list string)
    (people : list PersonResponse.t) (k : Z) (eventId : string) (timeMap : TimeMap)
    (c : Candidate.t) :
  Forall (fun p => validScores (PersonResponse.availability p)) people ->
  1 <= k ->
  let duration := TIMESLOT_MINUTES * k in
  In c (calculateSimpleCandidateMetrics rng
          (calculateAvailability times
             (replaceScoresWithFullScores times people duration timeMap))
          duration eventId) ->
  In (Candidate.date c) times /\
  (length (Candidate.people c) <= length people)%nat /\
  Forall (fun e => 0 < NameScore.score e <= MAXSCORE * k) (Candidate.people c) /\
  Candidate.score c = sumOf NameScore.score (Candidate.people c) /\
  0 <= Candidate.score c <= MAXSCORE * k * Z.of_nat (length people) /\
  Candidate.fiveStars c
  = Z.of_nat (length (filter (fun e => 9 * k <? 2 * NameScore.score e)
                             (Candidate.people c))) /\
  0 <= Candidate.fiveStars c <= Z.of_nat (length people) /\
  Candidate.rankedWins c = None.
Proof.
  intros Hv Hk duration Hc.
  destruct (candidate_entries rng times people k eventId timeMap c Hv Hk Hc)
    as (Hdate & Hcount & Hentries & Hscore & Hfive & Hranked).
  assert (Hthreshold : filter (isFiveStars duration) (Candidate.people c)
                       = filter (fun e => 9 * k <? 2 * NameScore.score e)
                                (Candidate.people c)).
  { apply filter_ext. intros e. now apply isFiveStars_threshold. }
  pose proof (filter_length_le (fun e => 9 * k <? 2 * NameScore.score e)
                (Candidate.people c)) as Hfl.
  pose proof (candidate_score_range k _ c Hk Hcount Hentries Hscore) as Hrange.
  fold duration in Hfive. rewrite Hthreshold in Hfive.
  repeat split; try assumption; try lia.
Qed.

Lemma candidate_metrics_range_witness :
  let c := Candidate.mk "0900-01012024"
             [NameScore.mk "Ada" 7; NameScore.mk "Bob" 4] 11 None 0 1 in
  Forall (fun p => validScores (PersonResponse.availability p)) twoPeople /\
  1 <= 2 /\
  In c (calculateSimpleCandidateMetrics countingRng
          (calculateAvailability twoTimes
             (replaceScoresWithFullScores twoTimes twoPeople (TIMESLOT_MINUTES * 2)
                exampleTimeMap))
          (TIMESLOT_MINUTES * 2) "e") /\
  0 <= Candidate.score c <= MAXSCORE * 2 * Z.of_nat (length twoPeople).
Proof.
  assert (H1 : Forall (fun p => validScores (PersonResponse.availability p)) twoPeople).
  { unfold twoPeople, validScores, MAXSCORE. repeat constructor; simpl; lia. }
  assert (H2 : In (Candidate.mk "0900-01012024"
                     [NameScore.mk "Ada" 7; NameScore.mk "Bob" 4] 11 None 0 1)
                  (calculateSimpleCandidateMetrics countingRng
                     (calculateAvailability twoTimes
                        (replaceScoresWithFullScores twoTimes twoPeople
                           (TIMESLOT_MINUTES * 2) exampleTimeMap))
                     (TIMESLOT_MINUTES * 2) "e")) by (left; reflexivity).
  split; [exact H1 |]. split; [lia |]. split; [exact H2 |].
  exact (proj1 (proj2 (proj2 (proj2 (proj2
           (candidate_metrics_range countingRng twoTimes twoPeople 2 "e" exampleTimeMap _
              H1 ltac:(lia) H2)))))).
Defined.

(** ** Ranked robin over a pool *)

Lemma rankedWinsInner_spec (a : list NameScore.t) (bs : list Candidate.t) :
  forall (wi : Z) (ws : list Z),
    length ws = length bs ->
    fst (rankedWinsInner a wi bs ws)
    = wi + sumOf (fun b => calculateRankedWinsBetweenPair a (Candidate.people b)) bs /\
    forall i b wj,
      nth_error bs i = Some b -> nth_error ws i = Some wj ->
      nth_error (snd (rankedWinsInner a wi bs ws)) i
      = Some (wj + calculateRankedWinsBetweenPair (Candidate.people b) a).
Proof.
  induction bs as [| b bs IH]; intros wi ws Hlen; destruct ws as [| wj ws];
    try discriminate.
  - simpl. split; [unfold sumOf; simpl; lia |]. intros [| i]; discriminate.
  - cbn [rankedWinsInner].
    specialize (IH (wi + calculateRankedWinsBetweenPair a (Candidate.people b)) ws
                   ltac:(now injection Hlen)).
    destruct (rankedWinsInner a _ bs ws) as [wi' ws'] eqn:E.
    cbn [fst snd] in *. destruct IH as [IH1 IH2]. split.
    + rewrite sumOf_cons. lia.
    + intros [| i] c w Hc Hw; simpl in Hc, Hw |- *.
      * injection Hc as <-. injection Hw as <-. reflexivity.
      * now apply IH2.
Qed.

Lemma others_cons {A : Type} (i : nat) (x : A) (l : list A) :
  others (S i) (x :: l) = x :: others i l.
Proof. reflexivity. Qed.

Lemma rankedWinsOuter_spec (candidates : list Candidate.t) :
  forall rankedWins : list Z,
    length rankedWins = length candidates ->
    forall i c w,
      nth_error candidates i = Some c -> nth_error rankedWins i = Some w ->
      nth_error (rankedWinsOuter candidates rankedWins) i
      = Some (Candidate.setRankedWins c (w + tally c (others i candidates))).
Proof.
  induction candidates as [| c0 cs IH]; intros ws Hlen i c w Hc Hw;
    destruct ws as [| w0 ws]; try discriminate; [destruct i; discriminate |].
  cbn [rankedWinsOuter].
  pose proof (rankedWinsInner_spec (Candidate.people c0) cs w0 ws
                ltac:(now injection Hlen)) as [H1 H2].
  pose proof (rankedWinsInner_length (Candidate.people c0) cs w0 ws
                ltac:(now injection Hlen)) as Hlen'.
  destruct (rankedWinsInner (Candidate.people c0) w0 cs ws) as [wi ws'] eqn:E.
  cbn [fst snd] in *.
  destruct i as [| i]; simpl in Hc, Hw.
  - injection Hc as <-. injection Hw as <-. simpl. rewrite H1. reflexivity.
  - cbn [nth_error]. rewrite others_cons.
    rewrite (IH ws' Hlen' i c _ Hc (H2 i c w Hc Hw)).
    do 2 f_equal. unfold tally. rewrite sumOf_cons. lia.
Qed.

Lemma nth_error_mapi_from {A B : Type} (f : A -> nat -> B) (l : list A) :
  forall i j,
    nth_error (mapi_from f i l) j = option_map (fun a => f a (i + j)%nat) (nth_error l j).
Proof.
  induction l as [| a l IH]; intros i j; destruct j as [| j]; simpl; try reflexivity.
  - now rewrite Nat.add_0_r.
  - rewrite IH. destruct (nth_error l j); simpl; [| reflexivity].
    do 2 f_equal. lia.
Qed.

(** X13.  A ranked-robin round leaves every candidate of its pool, in place
    and otherwise unchanged, with the sum of its wins in the matchups with
    each of the other candidates of the pool. *)
Theorem calculateRankedWins_tallies (candidates : list Candidate.t) :
  calculateRankedWins candidates
  = mapi (fun c i => Candidate.setRankedWins c (tally c (others i candidates)))
         candidates.
Proof.
  apply nth_error_ext. intros i. unfold mapi. rewrite nth_error_mapi_from.
  destruct (nth_error candidates i) as [c |] eqn:Hc; cbn [option_map].
  - assert (Hw : nth_error (repeat 0 (length candidates)) i = Some 0).
    { rewrite nth_error_repeat; [reflexivity |]. apply nth_error_Some. congruence. }
    unfold calculateRankedWins.
    rewrite (rankedWinsOuter_spec candidates _ (repeat_length _ _) i c 0 Hc Hw).
    reflexivity.
  - apply nth_error_None. rewrite calculateRankedWins_length.
    now apply nth_error_None.
Qed.

(** ** What a full round guarantees *)

Lemma fullRoundLoop_extends (numWinners : Z) (miniRounds : list miniRoundType) :
  forall candidates rounds winners sorted rounds' winners',
    fullRoundLoop numWinners miniRounds candidates rounds winners
    = Ok (sorted, (rounds', winners')) ->
    exists later, winners' = winners ++ later.
Proof.
  induction miniRounds as [| roundType miniRounds IH];
    intros candidates rounds winners sorted rounds' winners' Hrun.
  - simpl in Hrun. injection Hrun as _ _ <-. exists []. now rewrite app_nil_r.
  - simpl in Hrun.
    apply bind_Ok in Hrun. destruct Hrun as ([s r] & _ & Hrest).
    destruct (Z.of_nat (length (winners ++ MiniRoundResult.winners r)) =? numWinners).
    + injection Hrest as _ _ <-. eauto.
    + apply bind_Ok in Hrest. destruct Hrest as ([s' [rs' ws']] & Hloop & Hret).
      injection Hret as _ _ <-.
      destruct (IH _ _ _ _ _ _ Hloop) as [later ->].
      exists (MiniRoundResult.winners r ++ later). now rewrite app_assoc.
Qed.

Lemma fullRoundLoop_first_sorted (numWinners : Z) (roundType : miniRoundType)
    (miniRounds : list miniRoundType) (candidates : list Candidate.t)
    (rounds : list MiniRoundResult.t) (winners sorted : list Candidate.t)
    (rounds' : list MiniRoundResult.t) (winners' : list Candidate.t) :
  fullRoundLoop numWinners (roundType :: miniRounds) candidates rounds winners
  = Ok (sorted, (rounds', winners')) ->
  sorted = sortByMetric roundType (roundPool roundType candidates).
Proof.
  intros Hrun. simpl in Hrun.
  apply bind_Ok in Hrun. destruct Hrun as ([s r] & Hmini & Hrest).
  apply calculateMiniRound_inv in Hmini. destruct Hmini as (_ & Hs & _).
  destruct (Z.of_nat (length (winners ++ MiniRoundResult.winners r)) =? numWinners).
  - now injection Hrest as <- _ _.
  - apply bind_Ok in Hrest. destruct Hrest as ([? [? ?]] & _ & Hret).
    now injection Hret as <- _ _.
Qed.

Lemma scoringFunc_rewritten (roundType : miniRoundType) (c : Candidate.t) (w : Z) :
  roundType <> rankedRobin ->
  scoringFunc roundType (Candidate.setRankedWins c w) = scoringFunc roundType c.
Proof.
  destruct roundType; intros H; try reflexivity. contradiction.
Qed.

(** In a full round nobody is passed over by the first metric: a candidate
    of the sorted pool that the first metric puts strictly above a winner is
    a winner. *)
Lemma fullRoundLoop_dominance (numWinners : Z) (roundType : miniRoundType)
    (miniRounds : list miniRoundType) (candidates : list Candidate.t)
    (rounds : list MiniRoundResult.t) (sorted : list Candidate.t)
    (rounds' : list MiniRoundResult.t) (winners' : list Candidate.t) :
  roundType <> rankedRobin \/ ~ In rankedRobin miniRounds ->
  fullRoundLoop numWinners (roundType :: miniRounds) candidates rounds []
  = Ok (sorted, (rounds', winners')) ->
  forall w c,
    In w winners' -> In c sorted ->
    scoringFunc roundType w < scoringFunc roundType c -> In c winners'.
Proof.
  intros Hkeep Hrun w c Hw Hc Hlt.
  pose proof (fullRoundLoop_extends _ _ _ _ _ _ _ _ Hrun) as Hext.
  simpl in Hrun.
  apply bind_Ok in Hrun. destruct Hrun as ([s r] & Hmini & Hrest).
  apply calculateMiniRound_inv in Hmini. destruct Hmini as (_ & Hs & atNeed & _ & Hr).
  set (stb := scoringFunc roundType atNeed) in *.
  set (P := fun x : Candidate.t => stb <= scoringFunc roundType x).
  assert (Hw1 : MiniRoundResult.winners r
                = filter (fun x => stb <? scoringFunc roundType x) s).
  { rewrite Hr. reflexivity. }
  assert (HPw : Forall P (MiniRoundResult.winners r)).
  { rewrite Hw1. apply Forall_forall. intros x Hx. apply filter_In in Hx.
    unfold P. lia. }
  assert (HPt : Forall P (MiniRoundResult.tied r)).
  { rewrite Hr. unfold miniRoundResultOf. cbn [MiniRoundResult.tied].
    match goal with
    | |- context [if ?b then _ else _] => destruct b
    end; [constructor |].
    apply Forall_forall. intros x Hx. apply filter_In in Hx. unfold P. lia. }
  assert (Hfinal : Forall P winners' /\ sorted = s /\
                   incl (MiniRoundResult.winners r) winners').
  { simpl in Hrest.
    destruct (Z.of_nat (length (MiniRoundResult.winners r)) =? numWinners).
    - injection Hrest as <- _ <-. split; [exact HPw |]. split; [reflexivity |].
      apply incl_refl.
    - apply bind_Ok in Hrest. destruct Hrest as ([s' [rs' ws']] & Hloop & Hret).
      injection Hret as <- _ <-.
      split; [| split; [reflexivity |]].
      + eapply (fullRoundLoop_members P); [| exact HPt | exact HPw | exact Hloop].
        intros rt cs Hin Hcs.
        destruct rt; simpl; try assumption.
        destruct Hkeep as [Hne | Hnr]; [| contradiction].
        pose proof (calculateRankedWins_rewritten cs) as Hrw.
        apply Forall_forall. intros x Hx.
        destruct (Forall2_In_r _ _ _ _ Hrw Hx) as (x0 & Hx0 & w0 & ->).
        unfold P. rewrite scoringFunc_rewritten by assumption.
        rewrite Forall_forall in Hcs. now apply Hcs.
      + destruct (fullRoundLoop_extends _ _ _ _ _ _ _ _ Hloop) as [later ->].
        intros x Hx. apply in_or_app. now left. }
  destruct Hfinal as (HP & -> & Hincl).
  apply Hincl. rewrite Hw1. apply filter_In. split; [exact Hc |].
  rewrite Forall_forall in HP. specialize (HP w Hw). unfold P in HP. lia.
Qed.

Lemma calculateFullRound_dominance (N : Z) (C : list Candidate.t)
    (roundType : miniRoundType) (miniRounds : list miniRoundType)
    (C' : list Candidate.t) (r : FullRoundResult.t) :
  roundType <> rankedRobin \/ ~ In rankedRobin miniRounds ->
  calculateFullRound N C (roundType :: miniRounds) = Ok (C', r) ->
  forall w c,
    In w (FullRoundResult.winners r) -> In c C' ->
    scoringFunc roundType w < scoringFunc roundType c ->
    In c (FullRoundResult.winners r).
Proof.
  intros Hkeep H. unfold calculateFullRound in H.
  apply bind_Ok in H. destruct H as ([s [rs ws]] & Hloop & Hret).
  injection Hret as <- <-. cbn [FullRoundResult.winners].
  now apply (fullRoundLoop_dominance N roundType miniRounds C [] s rs ws).
Qed.

(** X14.  A round that starts with the score never passes over a higher
    score: whenever it returns, a candidate of the pool that scores strictly
    higher than one of the winners is itself one of the winners. *)
Theorem score_round_takes_top_scores (N : Z) (C : list Candidate.t)
    (miniRounds : list miniRoundType) (C' : list Candidate.t) (r : FullRoundResult.t) :
  calculateFullRound N C (score :: miniRounds) = Ok (C', r) ->
  forall w c,
    In w (FullRoundResult.winners r) -> In c C ->
    Candidate.score w < Candidate.score c ->
    In c (FullRoundResult.winners r).
Proof.
  intros H w c Hw Hc Hlt.
  assert (Hkeep : score <> rankedRobin \/ ~ In rankedRobin miniRounds)
    by (left; discriminate).
  apply (calculateFullRound_dominance N C score miniRounds C' r Hkeep H w c Hw);
    [| exact Hlt].
  unfold calculateFullRound in H.
  apply bind_Ok in H. destruct H as ([s [rs ws]] & Hloop & Hret).
  injection Hret as <- _.
  apply fullRoundLoop_first_sorted in Hloop. rewrite Hloop.
  unfold sortByMetric. now apply sort_In.
Qed.

Lemma score_round_takes_top_scores_witness :
  exists C' r,
    calculateFullRound 2 threeCandidates (score :: [rankedRobin; fiveStars; random])
    = Ok (C', r) /\
    In candidateTen (FullRoundResult.winners r) /\
    In candidateQuarterPast threeCandidates /\
    Candidate.score candidateTen < Candidate.score candidateQuarterPast /\
    In candidateQuarterPast (FullRoundResult.winners r).
Proof.
  assert (E : exists C' r,
             calculateFullRound 2 threeCandidates (score :: [rankedRobin; fiveStars; random])
             = Ok (C', r) /\
             In candidateTen (FullRoundResult.winners r)).
  { vm_compute. do 2 eexists. split; [reflexivity | right; left; reflexivity]. }
  destruct E as (C' & r & E & Hw).
  assert (Hc : In candidateQuarterPast threeCandidates) by (right; left; reflexivity).
  assert (Hlt : Candidate.score candidateTen < Candidate.score candidateQuarterPast)
    by (simpl; lia).
  exists C', r. split; [exact E |]. split; [exact Hw |]. split; [exact Hc |].
  split; [exact Hlt |].
  exact (score_round_takes_top_scores 2 threeCandidates _ C' r E _ _ Hw Hc Hlt).
Defined.

Lemma fullRoundLoop_NoDup {B : Type} (f : Candidate.t -> B) (numWinners : Z)
    (miniRounds : list miniRoundType) :
  (forall c w, f (Candidate.setRankedWins c w) = f c) ->
  forall candidates rounds winners sorted rounds' winners',
    NoDup (map f (winners ++ candidates)) ->
    fullRoundLoop numWinners miniRounds candidates rounds winners
    = Ok (sorted, (rounds', winners')) ->
    NoDup (map f winners').
Proof.
  intros Hf.
  induction miniRounds as [| roundType miniRounds IH];
    intros candidates rounds winners sorted rounds' winners' Hnd Hrun.
  - simpl in Hrun. injection Hrun as _ _ <-.
    rewrite map_app in Hnd. eapply NoDup_app_remove_r; exact Hnd.
  - simpl in Hrun.
    apply bind_Ok in Hrun. destruct Hrun as ([s r] & Hmini & Hrest).
    pose proof (calculateMiniRound_NoDup f Hf _ _ winners _ _ _ Hnd Hmini) as Hnd'.
    destruct (Z.of_nat (length (winners ++ MiniRoundResult.winners r)) =? numWinners).
    + injection Hrest as _ _ <-.
      rewrite map_app in Hnd'. eapply NoDup_app_remove_r; exact Hnd'.
    + apply bind_Ok in Hrest. destruct Hrest as ([s' [rs' ws']] & Hloop & Hret).
      injection Hret as _ _ <-.
      exact (IH _ _ _ _ _ _ Hnd' Hloop).
Qed.

(** X15.  A full round loses and doubles nobody: whenever it returns, the
    array it leaves holds the candidates of the pool in some order (up to
    their ranked wins), every winner is one of them, and when the labels of
    the pool differ no label wins twice. *)
Theorem full_round_keeps_candidates (N : Z) (C : list Candidate.t)
    (miniRounds : list miniRoundType) (C' : list Candidate.t) (r : FullRoundResult.t) :
  calculateFullRound N C miniRounds = Ok (C', r) ->
  Permutation (map identity C') (map identity C) /\
  incl (map identity (FullRoundResult.winners r)) (map identity C) /\
  FullRoundResult.candidates r = C /\
  (NoDup (map Candidate.date C) -> NoDup (map Candidate.date (FullRoundResult.winners r))).
Proof.
  intros H.
  pose proof (calculateFullRound_identity _ _ _ _ _ H) as [_ Hwin].
  unfold calculateFullRound in H.
  apply bind_Ok in H. destruct H as ([s [rs ws]] & Hloop & Hret).
  injection Hret as <- <-. cbn [FullRoundResult.winners FullRoundResult.candidates] in *.
  split; [| split; [| split]].
  - destruct miniRounds as [| roundType miniRounds].
    + simpl in Hloop. now injection Hloop as <- _ _.
    + apply fullRoundLoop_first_sorted in Hloop. rewrite Hloop.
      unfold sortByMetric.
      rewrite <- (roundPool_map identity (fun _ _ => eq_refl) roundType C).
      apply Permutation_map, sort_perm.
  - intros x Hx. apply in_map_iff in Hx. destruct Hx as (w & <- & Hw).
    rewrite Forall_forall in Hwin. now apply Hwin.
  - reflexivity.
  - intros Hnd.
    apply (fullRoundLoop_NoDup Candidate.date N miniRounds (fun _ _ => eq_refl)
             C [] [] s rs ws); [exact Hnd | exact Hloop].
Qed.

Lemma full_round_keeps_candidates_witness :
  exists C' r,
    calculateFullRound 2 threeCandidates scoringRound = Ok (C', r) /\
    Permutation (map identity C') (map identity threeCandidates).
Proof.
  assert (E : exists C' r, calculateFullRound 2 threeCandidates scoringRound = Ok (C', r)).
  { vm_compute. do 2 eexists. reflexivity. }
  destruct E as (C' & r & E).
  exists C', r. split; [exact E |].
  exact (proj1 (full_round_keeps_candidates 2 threeCandidates scoringRound C' r E)).
Defined.

(** X16.  With the random tiebreak among its mini rounds and draws that
    differ, a full round asked for [N] winners out of more than [N]
    candidates returns exactly [N] winners, with draws that differ. *)
Theorem full_round_finds_all_winners (N : Z) (C : list Candidate.t)
    (miniRounds : list miniRoundType) :
  In random miniRounds ->
  0 < N < Z.of_nat (length C) ->
  NoDup (map Candidate.randomTieValue C) ->
  exists C' r,
    calculateFullRound N C miniRounds = Ok (C', r) /\
    Z.of_nat (length (FullRoundResult.winners r)) = N /\
    NoDup (map Candidate.randomTieValue (FullRoundResult.winners r)).
Proof.
  intros Hin HN Hnd.
  exact (calculateFullRound_complete Candidate.randomTieValue N C miniRounds
           (fun _ _ => eq_refl) Hin HN Hnd Hnd).
Qed.

Lemma full_round_finds_all_winners_witness :
  In random scoringRound /\
  0 < 2 < Z.of_nat (length threeCandidates) /\
  NoDup (map Candidate.randomTieValue threeCandidates) /\
  exists C' r,
    calculateFullRound 2 threeCandidates scoringRound = Ok (C', r) /\
    Z.of_nat (length (FullRoundResult.winners r)) = 2.
Proof.
  assert (H1 : In random scoringRound) by (simpl; tauto).
  assert (H2 : 0 < 2 < Z.of_nat (length threeCandidates)) by (simpl; lia).
  assert (H3 : NoDup (map Candidate.randomTieValue threeCandidates)).
  { simpl. repeat constructor; simpl; intuition discriminate. }
  split; [exact H1 |]. split; [exact H2 |]. split; [exact H3 |].
  destruct (full_round_finds_all_winners 2 threeCandidates scoringRound H1 H2 H3)
    as (C' & r & E & Hlen & _).
  exists C', r. split; [exact E | exact Hlen].
Defined.

(** ** Result Selector, Overlap Filter and the whole call: what they return *)

(** The two finalists of the Result Selector as its rounds produce them:
    [x] and [y] are the winners of the scoring round, [W] and [S] are the
    two after the runoff wrote their tallies against each other, and the
    runoff put first the one whose tally is not the smaller. *)
Lemma calculateStarBest_finalists (candidates : list Candidate.t) (duration : Z)
    (res : StarResults.t) (next : TimeScore.t jsnum) :
  calculateStarBest candidates duration = Ok res ->
  StarResults.nextBest res = Some next ->
  exists (x y W S : Candidate.t),
    (exists sorted scoreRound,
        calculateFullRound 2 candidates scoringRound = Ok (sorted, scoreRound) /\
        FullRoundResult.winners scoreRound = [x; y]) /\
    ((identity W = identity x /\ identity S = identity y) \/
     (identity W = identity y /\ identity S = identity x)) /\
    Candidate.date W <> Candidate.date S /\
    res = StarResults.mk
            (Some (TimeScore.mk (Candidate.date W)
                     (jsdiv (inject_Z (Candidate.score W)) (numTimeslots duration))))
            (Some (TimeScore.mk (Candidate.date S)
                     (jsdiv (inject_Z (Candidate.score S)) (numTimeslots duration))))
            (Some (fractionOf
                     (calculateRankedWinsBetweenPair (Candidate.people W) (Candidate.people S))
                     (calculateRankedWinsBetweenPair (Candidate.people S) (Candidate.people W)))) /\
    calculateRankedWinsBetweenPair (Candidate.people S) (Candidate.people W)
    <= calculateRankedWinsBetweenPair (Candidate.people W) (Candidate.people S).
Proof.
  intros Hrun Hnext. unfold calculateStarBest in Hrun.
  destruct candidates as [| c1 [| c2 rest]].
  { injection Hrun as <-. discriminate. }
  { injection Hrun as <-. discriminate. }
  set (candidates := c1 :: c2 :: rest) in *.
  apply bind_Ok in Hrun. destruct Hrun as ([sorted0 scoreRound] & Hscore & Hrun).
  apply bind_Ok in Hrun. destruct Hrun as ([finalists runoffRound] & Hrunoff & Hrun).
  pose proof (calculateFullRound_inv 2 candidates score _ _ _ ltac:(lia) Hscore)
    as (_ & _ & Hle).
  pose proof (calculateFullRound_inv 1 _ rankedRobin _ _ _ ltac:(lia) Hrunoff)
    as (Hgt & _ & Hone).
  destruct (FullRoundResult.winners scoreRound) as [| x [| y [| z ws]]] eqn:Hxy;
    simpl in Hle, Hgt; try lia.
  assert (Hdom : forall w c,
             In w (FullRoundResult.winners runoffRound) -> In c finalists ->
             scoringFunc rankedRobin w < scoringFunc rankedRobin c ->
             In c (FullRoundResult.winners runoffRound)).
  { apply (calculateFullRound_dominance 1 [x; y] rankedRobin [score; fiveStars; random]);
      [| exact Hrunoff].
    right. simpl. intros [? | [? | [? | []]]]; discriminate. }
  apply runoff_pair in Hrunoff. cbv zeta in Hrunoff.
  destruct Hrunoff as [Hfinalists Hwinners].
  destruct (FullRoundResult.winners runoffRound) as [| winner [| w2 ws]];
    [discriminate | | simpl in Hone; lia].
  inversion Hwinners as [| ? ? Hwinner _]; subst.
  destruct (find _ finalists) as [second |] eqn:Hfind.
  2:{ apply bind_Ok in Hrun. destruct Hrun as (? & _ & ?). discriminate. }
  apply find_some in Hfind. destruct Hfind as [Hsecond Hdate].
  apply negb_true_iff, String.eqb_neq in Hdate.
  specialize (Hdom winner second (or_introl eq_refl) Hsecond).
  assert (Hsame : In second [winner] -> False).
  { intros [E | []]. apply Hdate. now rewrite E. }
  apply Hfinalists in Hwinner, Hsecond.
  exists x, y, winner, second.
  split; [exists sorted0, scoreRound; now split |].
  destruct Hwinner as [-> | ->]; destruct Hsecond as [-> | ->];
    try (exfalso; apply Hdate; reflexivity);
    simpl in Hrun; injection Hrun as <-; simpl in *;
    (split; [(left + right); split; reflexivity |]);
    (split; [intros E; apply Hdate; congruence |]);
    (split; [reflexivity |]).
  - destruct (Z_lt_le_dec
                (calculateRankedWinsBetweenPair (Candidate.people x) (Candidate.people y))
                (calculateRankedWinsBetweenPair (Candidate.people y) (Candidate.people x)))
      as [Hlt | Hge]; [| exact Hge].
    exfalso. apply Hsame. apply Hdom. exact Hlt.
  - destruct (Z_lt_le_dec
                (calculateRankedWinsBetweenPair (Candidate.people y) (Candidate.people x))
                (calculateRankedWinsBetweenPair (Candidate.people x) (Candidate.people y)))
      as [Hlt | Hge]; [| exact Hge].
    exfalso. apply Hsame. apply Hdom. exact Hlt.
Qed.

Lemma fractionOf_majority (w s : Z) :
  0 <= s <= w ->
  fractionOf w s = 0%Q \/ (1 # 2 <= fractionOf w s)%Q.
Proof.
  intros Hws. unfold fractionOf.
  destruct (w + s =? 0) eqn:E; [now left | right].
  apply Z.eqb_neq in E.
  apply Qle_shift_div_l.
  - rewrite <- (Zlt_Qlt 0). lia.
  - unfold Qle, Qmult, inject_Z. cbn [Qnum Qden]. lia.
Qed.

Lemma identity_fields (c c' : Candidate.t) :
  identity c = identity c' ->
  Candidate.date c = Candidate.date c' /\
  Candidate.people c = Candidate.people c' /\
  Candidate.score c = Candidate.score c' /\
  Candidate.fiveStars c = Candidate.fiveStars c' /\
  Candidate.randomTieValue c = Candidate.randomTieValue c'.
Proof. unfold identity. intros [= -> -> -> -> ->]. repeat split. Qed.

(** X17.  The finalists are the two top scorers and the winner is the one
    the majority prefers: whenever the Result Selector returns a best time
    and a next best, they are two candidates [W] and [S] with different
    labels; no candidate scores strictly higher than [W] or [S] other than
    these two themselves; at least as many people prefer [W] to [S] as
    prefer [S] to [W]; and the preferred fraction returned is 0 (nobody
    prefers either) or at least one half. *)
Theorem star_best_finalists (candidates : list Candidate.t) (duration : Z)
    (res : StarResults.t) (next : TimeScore.t jsnum) :
  calculateStarBest candidates duration = Ok res ->
  StarResults.nextBest res = Some next ->
  exists (W S : Candidate.t) (fraction : Q),
    In (identity W) (map identity candidates) /\
    In (identity S) (map identity candidates) /\
    Candidate.date W <> Candidate.date S /\
    option_map TimeScore.time (StarResults.bestTime res) = Some (Candidate.date W) /\
    option_map TimeScore.time (StarResults.nextBest res) = Some (Candidate.date S) /\
    (forall c, In c candidates ->
               Candidate.score W < Candidate.score c \/
               Candidate.score S < Candidate.score c ->
               identity c = identity W \/ identity c = identity S) /\
    calculateRankedWinsBetweenPair (Candidate.people S) (Candidate.people W)
    <= calculateRankedWinsBetweenPair (Candidate.people W) (Candidate.people S) /\
    StarResults.preferredFraction res = Some fraction /\
    (fraction = 0%Q \/ (1 # 2 <= fraction)%Q).
Proof.
  intros Hrun Hnext.
  destruct (calculateStarBest_finalists _ _ _ _ Hrun Hnext)
    as (x & y & W & S & (sorted & scoreRound & Hscore & Hxy) & Hid & Hdate & -> & Hmaj).
  destruct (calculateFullRound_identity _ _ _ _ _ Hscore) as [_ Hin].
  rewrite Hxy in Hin.
  inversion Hin as [| ? ? Hx Hin']; subst. inversion Hin' as [| ? ? Hy _]; subst.
  assert (Htop : forall w c, In w [x; y] -> In c candidates ->
                             Candidate.score w < Candidate.score c -> In c [x; y]).
  { intros w c Hw Hc Hlt. rewrite <- Hxy in *.
    assert (Hkeep : score <> rankedRobin \/ ~ In rankedRobin [rankedRobin; fiveStars; random])
      by (left; discriminate).
    apply (calculateFullRound_dominance 2 candidates score [rankedRobin; fiveStars; random]
             sorted scoreRound Hkeep Hscore w c Hw); [| exact Hlt].
    pose proof (calculateFullRound_inv 2 candidates score _ _ _ ltac:(lia) Hscore)
      as (_ & -> & _).
    unfold sortByMetric. now apply sort_In. }
  exists W, S, (fractionOf
                  (calculateRankedWinsBetweenPair (Candidate.people W) (Candidate.people S))
                  (calculateRankedWinsBetweenPair (Candidate.people S) (Candidate.people W))).
  assert (HW : In (identity W) (map identity candidates))
    by (destruct Hid as [[-> _] | [-> _]]; assumption).
  assert (HS : In (identity S) (map identity candidates))
    by (destruct Hid as [[_ ->] | [_ ->]]; assumption).
  repeat (split; [first [assumption | reflexivity] |]).
  split.
  { intros c Hc Hlt.
    assert (Hc' : In c [x; y]).
    { destruct Hid as [[EW ES] | [EW ES]];
        apply identity_fields in EW, ES;
        destruct EW as (_ & _ & EW & _), ES as (_ & _ & ES & _);
        rewrite EW, ES in Hlt;
        destruct Hlt as [Hlt | Hlt];
        first [ apply (Htop x c (or_introl eq_refl) Hc Hlt)
              | apply (Htop y c (or_intror (or_introl eq_refl)) Hc Hlt) ]. }
    destruct Hc' as [<- | [<- | []]];
      destruct Hid as [[-> ->] | [-> ->]]; tauto. }
  split; [exact Hmaj |]. split; [reflexivity |].
  apply fractionOf_majority. split; [apply calculateRankedWinsBetweenPair_nonneg | exact Hmaj].
Qed.

Lemma star_best_finalists_witness :
  calculateStarBest threeCandidates 30 = Ok threeCandidatesBest /\
  exists W S,
    Candidate.date W <> Candidate.date S /\
    calculateRankedWinsBetweenPair (Candidate.people S) (Candidate.people W)
    <= calculateRankedWinsBetweenPair (Candidate.people W) (Candidate.people S).
Proof.
  split; [reflexivity |].
  destruct (star_best_finalists threeCandidates 30 threeCandidatesBest
              (TimeScore.mk "1000-01012024"%string (jsdiv (inject_Z 7) (numTimeslots 30)))
              eq_refl eq_refl)
    as (W & S & f & _ & _ & Hne & _ & _ & _ & Hmaj & _).
  exists W, S. split; [exact Hne | exact Hmaj].
Defined.

(** X18.  On three or more candidates whose labels differ and whose draws
    differ, the Result Selector returns, with a best time, a next best and a
    preferred fraction, and the two times are different labels of the
    candidates. *)
Theorem result_selector_returns (candidates : list Candidate.t) (duration : Z) :
  (3 <= length candidates)%nat ->
  NoDup (map Candidate.randomTieValue candidates) ->
  NoDup (map Candidate.date candidates) ->
  exists best next fraction,
    calculateStarBest candidates duration
    = Ok (StarResults.mk (Some best) (Some next) (Some fraction)) /\
    TimeScore.time best <> TimeScore.time next /\
    In (TimeScore.time best) (map Candidate.date candidates) /\
    In (TimeScore.time next) (map Candidate.date candidates).
Proof.
  intros Hlen Hrnd Hdate.
  destruct (calculateStarBest_returns candidates duration Hlen Hrnd Hdate)
    as (best & next & fraction & Hrun).
  exists best, next, fraction. split; [exact Hrun |].
  destruct (calculateStarBest_finalists _ _ _ next Hrun eq_refl)
    as (x & y & W & S & (sorted & scoreRound & Hscore & Hxy) & Hid & Hne & Hres & _).
  injection Hres as -> -> _. cbn [TimeScore.time].
  destruct (calculateFullRound_identity _ _ _ _ _ Hscore) as [_ Hin].
  rewrite Hxy in Hin.
  inversion Hin as [| ? ? Hx Hin']; subst. inversion Hin' as [| ? ? Hy _]; subst.
  assert (Hlabel : forall c, In (identity c) (map identity candidates) ->
                             In (Candidate.date c) (map Candidate.date candidates)).
  { intros c Hc. apply in_map_iff in Hc. destruct Hc as (c0 & E & Hc0).
    apply identity_date in E. rewrite <- E. now apply in_map. }
  split; [exact Hne |].
  destruct Hid as [[EW ES] | [EW ES]];
    rewrite (identity_date _ _ EW), (identity_date _ _ ES); split; now apply Hlabel.
Qed.

Lemma result_selector_returns_witness :
  (3 <= length threeCandidates)%nat /\
  NoDup (map Candidate.randomTieValue threeCandidates) /\
  NoDup (map Candidate.date threeCandidates) /\
  exists best next fraction,
    calculateStarBest threeCandidates 30
    = Ok (StarResults.mk (Some best) (Some next) (Some fraction)) /\
    TimeScore.time best <> TimeScore.time next /\
    In (TimeScore.time best) (map Candidate.date threeCandidates) /\
    In (TimeScore.time next) (map Candidate.date threeCandidates).
Proof.
  assert (H1 : (3 <= length threeCandidates)%nat) by (simpl; lia).
  assert (H2 : NoDup (map Candidate.randomTieValue threeCandidates)).
  { simpl. repeat (constructor; [simpl; intuition lia |]). constructor. }
  assert (H3 : NoDup (map Candidate.date threeCandidates)).
  { simpl. repeat (constructor; [simpl; intuition discriminate |]). constructor. }
  exact (conj H1 (conj H2 (conj H3 (result_selector_returns threeCandidates 30 H1 H2 H3)))).
Defined.

Lemma highest_score (candidates : list Candidate.t) :
  candidates <> [] ->
  exists top, In top candidates /\
              forall c, In c candidates -> Candidate.score c <= Candidate.score top.
Proof.
  induction candidates as [| a l IH]; [congruence | intros _].
  destruct l as [| b l].
  - exists a. split; [now left |]. intros c [<- | []]. lia.
  - destruct IH as (top & Htop & Hmax); [discriminate |].
    destruct (Z_lt_le_dec (Candidate.score top) (Candidate.score a)) as [Hlt | Hge].
    + exists a. split; [now left |].
      intros c [<- | Hc]; [lia |]. specialize (Hmax c Hc). lia.
    + exists top. split; [now right |].
      intros c [<- | Hc]; [exact Hge | now apply Hmax].
Qed.

(** The output of the Overlap Filter holds candidates of its input, as they
    were. *)
Lemma removeOverlapsWithTopScorer_incl (candidates : list Candidate.t)
    (duration : Z) (timeMap : TimeMap) (out : list Candidate.t) :
  removeOverlapsWithTopScorer candidates duration timeMap = Ok out ->
  incl out candidates.
Proof.
  unfold removeOverlapsWithTopScorer. intros H.
  destruct (2 <? Z.of_nat (length candidates)).
  - apply bind_Ok in H. destruct H as ([sorted scoreResult] & Hround & H).
    pose proof (calculateFullRound_inv 1 candidates score _ _ _ ltac:(lia) Hround)
      as (_ & Hsorted & _).
    destruct (FullRoundResult.winners scoreResult) as [| top ws]; [discriminate |].
    injection H as <-. intros c Hc. apply filter_In in Hc. destruct Hc as [Hc _].
    rewrite Hsorted in Hc. unfold sortByMetric in Hc. now apply sort_In in Hc.
  - injection H as <-. apply incl_refl.
Qed.

(** X19.  The Overlap Filter returns whenever the draws of the candidates
    differ, and then it hands on candidates of its input unchanged, among
    them (when there are any) one whose score no candidate of the input
    exceeds. *)
Theorem overlap_filter_keeps_a_top_scorer (candidates : list Candidate.t)
    (duration : Z) (timeMap : TimeMap) :
  NoDup (map Candidate.randomTieValue candidates) ->
  exists out,
    removeOverlapsWithTopScorer candidates duration timeMap = Ok out /\
    incl out candidates /\
    (candidates <> [] ->
     exists top, In top out /\
                 forall c, In c candidates -> Candidate.score c <= Candidate.score top).
Proof.
  intros Hrnd.
  destruct (removeOverlapsWithTopScorer_returns candidates duration timeMap Hrnd)
    as (out & Hout).
  exists out. split; [exact Hout |].
  split; [exact (removeOverlapsWithTopScorer_incl _ _ _ _ Hout) |].
  intros Hne. unfold removeOverlapsWithTopScorer in Hout.
  destruct (2 <? Z.of_nat (length candidates)) eqn:E.
  - apply bind_Ok in Hout. destruct Hout as ([sorted scoreResult] & Hround & Hout).
    pose proof (calculateFullRound_inv 1 candidates score _ _ _ ltac:(lia) Hround)
      as (_ & Hsorted & Hone).
    assert (Hkeep : score <> rankedRobin \/ ~ In rankedRobin [rankedRobin; fiveStars; random])
      by (left; discriminate).
    pose proof (calculateFullRound_dominance 1 candidates score
                  [rankedRobin; fiveStars; random] sorted scoreResult Hkeep Hround) as Hdom.
    destruct (calculateFullRound_identity _ _ _ _ _ Hround) as [_ Hid].
    destruct (FullRoundResult.winners scoreResult) as [| top [| w2 ws]];
      [discriminate | | simpl in Hone; lia].
    injection Hout as <-.
    pose proof (Forall_inv Hid) as Htop. cbv beta in Htop.
    apply in_map_iff in Htop. destruct Htop as (top0 & Eid & Htop0).
    apply identity_fields in Eid. destruct Eid as (Edate & _ & Escore & _).
    assert (Hin : forall c, In c candidates -> In c sorted).
    { intros c Hc. rewrite Hsorted. unfold sortByMetric. now apply sort_In. }
    exists top0. split.
    + apply filter_In. split; [now apply Hin |].
      apply negb_true_iff. apply not_true_iff_false.
      rewrite overlapsWindow_spec. rewrite Edate. lia.
    + intros c Hc.
      destruct (Z_lt_le_dec (Candidate.score top0) (Candidate.score c)) as [Hlt | Hge];
        [| exact Hge].
      rewrite Escore in Hlt.
      destruct (Hdom top c (or_introl eq_refl) (Hin c Hc) Hlt) as [<- | []].
      simpl in Hlt. lia.
  - injection Hout as <-. now apply highest_score.
Qed.

Lemma overlap_filter_keeps_a_top_scorer_witness :
  NoDup (map Candidate.randomTieValue threeCandidates) /\
  exists out,
    removeOverlapsWithTopScorer threeCandidates 30 exampleTimeMap = Ok out /\
    incl out threeCandidates /\
    (threeCandidates <> [] ->
     exists top, In top out /\
                 forall c, In c threeCandidates -> Candidate.score c <= Candidate.score top).
Proof.
  assert (H : NoDup (map Candidate.randomTieValue threeCandidates)).
  { simpl. repeat (constructor; [simpl; intuition lia |]). constructor. }
  exact (conj H (overlap_filter_keeps_a_top_scorer threeCandidates 30 exampleTimeMap H)).
Defined.

(** A time the whole call returns is a candidate the Candidate Metrics
    Calculator made. *)
Lemma calculateBestTime_candidate (rng : Rng) (now : Z * Z) (times : list string)
    (people : list PersonResponse.t) (duration : Z) (eventId : string)
    (timeMap : TimeMap) (done : Completed.t) (b : TimeScore.t jsnum) :
  calculateBestTime rng now times people duration eventId timeMap = Ok done ->
  StarResults.bestTime (Completed.out done) = Some b \/
  StarResults.nextBest (Completed.out done) = Some b ->
  exists c,
    In c (calculateSimpleCandidateMetrics rng
            (calculateAvailability times
               (replaceScoresWithFullScores times people duration timeMap))
            duration eventId) /\
    b = TimeScore.mk (Candidate.date c)
          (jsdiv (inject_Z (Candidate.score c)) (numTimeslots duration)).
Proof.
  intros Hrun Hb. unfold calculateBestTime in Hrun.
  destruct people as [| p people].
  { injection Hrun as <-. simpl in Hb. destruct Hb; discriminate. }
  cbv zeta in Hrun.
  set (made := calculateSimpleCandidateMetrics rng _ duration eventId) in *.
  apply bind_Ok in Hrun. destruct Hrun as (kept & Hkept & Hrun).
  apply bind_Ok in Hrun. destruct Hrun as (res & Hres & Hrun).
  injection Hrun as <-. cbn [Completed.out] in Hb.
  pose proof (removeOverlapsWithTopScorer_incl _ _ _ _ Hkept) as Hincl.
  assert (Hmade : forall X, In (identity X) (map identity kept) ->
                            exists c, In c made /\ identity X = identity c).
  { intros X HX. apply in_map_iff in HX. destruct HX as (c & E & Hc).
    exists c. split; [now apply Hincl | now symmetry]. }
  assert (Hsame : forall X c, identity X = identity c ->
                    TimeScore.mk (Candidate.date X)
                      (jsdiv (inject_Z (Candidate.score X)) (numTimeslots duration))
                    = TimeScore.mk (Candidate.date c)
                        (jsdiv (inject_Z (Candidate.score c)) (numTimeslots duration))).
  { intros X c E. apply identity_fields in E. destruct E as (-> & _ & -> & _).
    reflexivity. }
  destruct (StarResults.nextBest res) as [next |] eqn:Hnext.
  - destruct (calculateStarBest_finalists _ _ _ next Hres Hnext)
      as (x & y & W & S & (sorted & scoreRound & Hscore & Hxy) & Hid & _ & E & _).
    destruct (calculateFullRound_identity _ _ _ _ _ Hscore) as [_ Hin].
    rewrite Hxy in Hin.
    inversion Hin as [| ? ? Hx Hin']; subst x0 l. inversion Hin' as [| ? ? Hy _]; subst x0 l.
    assert (HW : In (identity W) (map identity kept))
      by (destruct Hid as [[-> _] | [-> _]]; assumption).
    assert (HS : In (identity S) (map identity kept))
      by (destruct Hid as [[_ ->] | [_ ->]]; assumption).
    rewrite E in Hb, Hnext. cbn [StarResults.bestTime StarResults.nextBest] in Hb, Hnext.
    destruct Hb as [Hb | Hb].
    + injection Hb as <-. destruct (Hmade W HW) as (c & Hc & Ec).
      exists c. split; [exact Hc | now apply Hsame].
    + injection Hb as <-. injection Hnext as <-.
      destruct (Hmade S HS) as (c & Hc & Ec).
      exists c. split; [exact Hc | now apply Hsame].
  - destruct Hb as [Hb | Hb]; [| discriminate].
    unfold calculateStarBest in Hres.
    destruct kept as [| c [| c2 rest]].
    + injection Hres as <-. discriminate.
    + injection Hres as <-. injection Hb as <-.
      exists c. split; [apply Hincl; now left | reflexivity].
    + exfalso.
      apply bind_Ok in Hres. destruct Hres as ([sorted0 scoreRound] & _ & Hres).
      apply bind_Ok in Hres. destruct Hres as ([finalists runoffRound] & _ & Hres).
      destruct (FullRoundResult.winners runoffRound) as [| winner ws]; [discriminate |].
      apply bind_Ok in Hres. destruct Hres as (w & _ & Hres).
      destruct (find _ finalists); [| discriminate].
      apply bind_Ok in Hres. destruct Hres as (s & _ & Hres).
      injection Hres as <-. discriminate.
Qed.

(** X20.  The scores a call reports are averages within the scale: from
    people with valid scores and a duration of [k >= 1] timeslots, every
    time a call of [calculateBestTime] returns (best or next best) is a
    label of the event, and its score is a finite number between 0 and
    [MAXSCORE] times the number of people. *)
Theorem best_time_score_range (rng : Rng) (now : Z * Z) (times : list string)
    (people : list PersonResponse.t) (k : Z) (eventId : string)
    (timeMap : TimeMap) (done : Completed.t) (b : TimeScore.t jsnum) :
  Forall (fun p => validScores (PersonResponse.availability p)) people ->
  1 <= k ->
  calculateBestTime rng now times people (TIMESLOT_MINUTES * k) eventId timeMap = Ok done ->
  StarResults.bestTime (Completed.out done) = Some b \/
  StarResults.nextBest (Completed.out done) = Some b ->
  In (TimeScore.time b) times /\
  exists q, TimeScore.score b = Fin q /\
            (0 <= q)%Q /\ (q <= inject_Z (MAXSCORE * Z.of_nat (length people)))%Q.
Proof.
  intros Hv Hk Hrun Hb.
  destruct (calculateBestTime_candidate _ _ _ _ _ _ _ _ _ Hrun Hb) as (c & Hc & ->).
  destruct (candidate_entries rng times people k eventId timeMap c Hv Hk Hc)
    as (Hdate & Hcount & Hentries & Hscore & _).
  pose proof (candidate_score_range k _ c Hk Hcount Hentries Hscore) as Hrange.
  cbn [TimeScore.time TimeScore.score]. split; [exact Hdate |].
  pose proof (numTimeslots_whole k) as Hn.
  assert (Hpos : (0 < numTimeslots (TIMESLOT_MINUTES * k))%Q).
  { rewrite Hn. rewrite <- (Zlt_Qlt 0). lia. }
  unfold jsdiv.
  destruct (Qeq_bool (numTimeslots (TIMESLOT_MINUTES * k)) 0) eqn:E.
  { apply Qeq_bool_iff in E. rewrite E in Hpos. discriminate. }
  eexists. split; [reflexivity |]. split.
  - apply Qle_shift_div_l; [exact Hpos |].
    rewrite Qmult_0_l. rewrite <- (Zle_Qle 0). lia.
  - apply Qle_shift_div_r; [exact Hpos |].
    rewrite Hn. rewrite <- inject_Z_mult. rewrite <- Zle_Qle. lia.
Qed.

Lemma best_time_score_range_witness :
  let b := TimeScore.mk "0900-01012024"%string (jsdiv (inject_Z 20) (numTimeslots 60)) in
  let done := Completed.mk (StarResults.mk (Some b) None None) (Some 0) in
  Forall (fun p => validScores (PersonResponse.availability p)) fiveStarPerson /\
  1 <= 4 /\
  calculateBestTime countingRng (0, 0) fourTimes fiveStarPerson (TIMESLOT_MINUTES * 4)
    "e" exampleTimeMap = Ok done /\
  In (TimeScore.time b) fourTimes /\
  exists q, TimeScore.score b = Fin q /\
            (0 <= q)%Q /\ (q <= inject_Z (MAXSCORE * Z.of_nat (length fiveStarPerson)))%Q.
Proof.
  intros b done.
  assert (H1 : Forall (fun p => validScores (PersonResponse.availability p)) fiveStarPerson).
  { unfold fiveStarPerson, validScores, MAXSCORE. repeat constructor; simpl; lia. }
  assert (H2 : 1 <= 4) by lia.
  assert (H3 : calculateBestTime countingRng (0, 0) fourTimes fiveStarPerson
                 (TIMESLOT_MINUTES * 4) "e" exampleTimeMap = Ok done) by reflexivity.
  exact (conj H1 (conj H2 (conj H3
           (best_time_score_range countingRng (0, 0) fourTimes fiveStarPerson 4 "e"
              exampleTimeMap done b H1 H2 H3 (or_introl eq_refl))))).
Defined.
